(** * zc.zk.testing: the in-process ZooKeeper emulator

    A shallow embedding of [src/zc/zk/testing.py]: the [Node] class, the
    [ZooKeeper] facade and the statements that the specification makes about
    them.

    Modelling choices.
    - The tree of [Node] objects is an inductive value; [children] is a finite
      map from names to nodes (a Python dict; nothing in the emulator depends
      on its iteration order).  Every node built by the facade is a fresh
      object linked under one parent, so the object graph is a tree and an
      object is identified by its position: the list of dictionary keys that
      leads to it from the root.  Variables of the source that hold a node
      ([node], [bnode]) are such positions, and [node is bnode] is equality
      of positions.
    - Watch callbacks are opaque callables; they are represented by
      identifiers, and every invocation is appended to a trace together with
      the emulator state the callback finds when it is invoked.  A callback
      is taken not to call the emulator itself.  In [ZooKeeper] a callback
      returns normally; [Callbacks] gives the operations that invoke
      callbacks again, for callbacks that may raise.
      [print] also appends to that trace.
    - A facade operation is a state transformer that either returns a value or
      raises; the state reached at the moment of the [raise] is kept, since
      Python does not roll anything back.
    - [threading.RLock] is not modelled: operations are run one at a time. *)

From stdpp Require Import gmap strings list fin_maps sorting.
From Stdlib Require Import Ascii ZArith.

Local Open Scope Z_scope.

(** ** Values of the [zookeeper] binding and of [zc.zk] *)

(** The integer constants of the [zookeeper] C binding that the emulator
    passes around.  Only [EPHEMERAL] is ever inspected (as a bit mask). *)
Definition SESSION_EVENT : Z := -1.
Definition DELETED_EVENT : Z := 2.
Definition CHANGED_EVENT : Z := 3.
Definition CHILD_EVENT : Z := 4.
Definition CONNECTED_STATE : Z := 3.
Definition EPHEMERAL : Z := 1.
Definition PERM_ALL : Z := 31.

(** An ACL is a list of entries; the emulator stores it and never looks
    inside. *)
Record acl_entry := mk_acl_entry {
  perms : Z;
  scheme : string;
  id : string;
}.

Definition ACL := list acl_entry.

(** Modelled from the spec: [zc.zk.OPEN_ACL_UNSAFE] is defined in
    [zc/zk/__init__.py], which is not part of the sources at hand.  The
    specification says that ACLs are opaque to the emulator (stored, not
    enforced); the constant is the usual world-readable entry.  No theorem
    below depends on what it contains, only on it being one fixed value. *)
Definition OPEN_ACL_UNSAFE : ACL :=
  [ {| perms := PERM_ALL; scheme := "world"; id := "anyone" |} ].

(** ** Data model *)

(** A watch callback: an opaque Python callable, named by an identifier. *)
Definition callback := nat.

(** [class Node].  [watchers], [child_watchers], [flags], [aversion] and
    [acl] are the class-level defaults [()], [()], [0], [0] and
    [zc.zk.OPEN_ACL_UNSAFE] until an instance attribute replaces them; tuples
    are immutable, so sharing the empty tuple is not observable.  [acls] is
    the instance attribute that [ZooKeeper.create] assigns; it does not exist
    on other nodes. *)
#[warnings="-register-all"]
Inductive Node : Type := mkNode {
  data : string;
  children : gmap string Node;
  watchers : list (Z * callback);
  child_watchers : list (Z * callback);
  flags : Z;
  aversion : Z;
  acl : ACL;
  acls : option ACL;
}.

(** [class ZooKeeper]: the attributes set by [__init__] (the lock apart). *)
Record ZooKeeper := mkZooKeeper {
  connection_string : string;
  root : Node;
  sessions : gmap Z (gset string);
}.

(** One invocation [w(h, type, state, path)] of a watch callback. *)
Record call := Call {
  c_watch : callback;
  c_handle : Z;
  c_type : Z;
  c_state : Z;
  c_path : string;
}.

(** What an operation does to the outside: the items of a [print]
    statement, or a callback invocation with the emulator as the callback
    finds it. *)
Inductive event :=
| Printed (items : list string)
| Called (c : call) (seen : ZooKeeper).

Record World := mkWorld {
  zk : ZooKeeper;
  trace : list event;
}.

(** Keys of a failed dictionary lookup. *)
Inductive key := KStr (s : string) | KInt (z : Z).

(** The exceptions that the emulator raises, the two that Python raises
    on its behalf ([KeyError] from [del d[k]] and [d[k]], [ValueError] from
    unpacking the result of [rsplit]), the [AssertionError] of [wait_until],
    the [TypeError] of a call of [None], and [Exception] for whatever else a
    callback or a polled function may raise. *)
Inductive exn :=
| ZooKeeperException (msg : string)
| NoNodeException (msg : string)
| NodeExistsException
| BadVersionException (msg : string)
| KeyError (k : key)
| ValueError (msg : string)
| AssertionError (msg : string)
| TypeError (msg : string)
| Exception (what : string).

(** ** Attribute assignment on a node *)

Definition set_data (v : string) (n : Node) : Node :=
  mkNode v (children n) (watchers n) (child_watchers n)
         (flags n) (aversion n) (acl n) (acls n).

Definition set_children (v : gmap string Node) (n : Node) : Node :=
  mkNode (data n) v (watchers n) (child_watchers n)
         (flags n) (aversion n) (acl n) (acls n).

Definition set_watchers (v : list (Z * callback)) (n : Node) : Node :=
  mkNode (data n) (children n) v (child_watchers n)
         (flags n) (aversion n) (acl n) (acls n).

Definition set_child_watchers (v : list (Z * callback)) (n : Node) : Node :=
  mkNode (data n) (children n) (watchers n) v
         (flags n) (aversion n) (acl n) (acls n).

Definition set_flags (v : Z) (n : Node) : Node :=
  mkNode (data n) (children n) (watchers n) (child_watchers n)
         v (aversion n) (acl n) (acls n).

Definition set_aversion (v : Z) (n : Node) : Node :=
  mkNode (data n) (children n) (watchers n) (child_watchers n)
         (flags n) v (acl n) (acls n).

Definition set_acl_attr (v : ACL) (n : Node) : Node :=
  mkNode (data n) (children n) (watchers n) (child_watchers n)
         (flags n) (aversion n) v (acls n).

Definition set_acls (v : ACL) (n : Node) : Node :=
  mkNode (data n) (children n) (watchers n) (child_watchers n)
         (flags n) (aversion n) (acl n) (Some v).

(** [node.children[name] = child] and [del node.children[name]]. *)
Definition add_child (name : string) (child : Node) (n : Node) : Node :=
  set_children (<[name := child]> (children n)) n.

Definition del_child (name : string) (n : Node) : Node :=
  set_children (delete name (children n)) n.

(** ** Positions in the tree *)

(** A reference to a node object: the dictionary keys from the root. *)
Definition ref := list string.

(** The object a position denotes, if it is linked. *)
Fixpoint lookup_pos (pos : ref) (n : Node) : option Node :=
  match pos with
  | [] => Some n
  | name :: rest =>
      match children n !! name with
      | Some c => lookup_pos rest c
      | None => None
      end
  end.

(** In-place mutation of the object at a position. *)
Fixpoint update_at (pos : ref) (f : Node → Node) (n : Node) : Node :=
  match pos with
  | [] => f n
  | name :: rest => set_children (alter (update_at rest f) name (children n)) n
  end.

(** ** The methods of [Node] *)

Module Node.

(** [Node.__init__(self, data='', **children)]. *)
Definition __init__ (data : string) (children : gmap string Node) : Node :=
  mkNode data children [] [] 0 0 OPEN_ACL_UNSAFE None.

Definition notify (type state : Z) (path : string)
    (ws : list (Z * callback)) : list call :=
  map (λ hw, Call hw.2 hw.1 type state path) ws.

(** A method mutates [self] and invokes callbacks: it maps the object to
    the mutated object and the invocations, in order. *)
Definition children_changed (handle state : Z) (path : string)
    (self : Node) : Node * list call :=
  let watchers0 := child_watchers self in
  let self := set_child_watchers [] self in
  (self, notify CHILD_EVENT state path watchers0).

Definition changed (handle state : Z) (path : string)
    (self : Node) : Node * list call :=
  let watchers0 := watchers self in
  let self := set_watchers [] self in
  (self, notify CHANGED_EVENT state path watchers0).

(** The second assignment of the source is again to [self.watchers]. *)
Definition deleted (handle state : Z) (path : string)
    (self : Node) : Node * list call :=
  let watchers0 := watchers self in
  let self := set_watchers [] self in
  let calls0 := notify DELETED_EVENT state path watchers0 in
  let watchers1 := child_watchers self in
  let self := set_watchers [] self in
  let calls1 := notify DELETED_EVENT state path watchers1 in
  (self, calls0 ++ calls1).

Definition keep (handle : Z) (ws : list (Z * callback))
    : list (Z * callback) :=
  filter (λ hw, hw.1 ≠ handle) ws.

Fixpoint clear_watchers (handle : Z) (self : Node) : Node :=
  mkNode (data self)
         (clear_watchers handle <$> children self)
         (keep handle (watchers self))
         (keep handle (child_watchers self))
         (flags self) (aversion self) (acl self) (acls self).

End Node.

(** ** Strings *)

Definition slash : ascii := "/"%char.

(** [s.split('/')]. *)
Fixpoint split (s : string) : list string :=
  match s with
  | EmptyString => [EmptyString]
  | String c s' =>
      if decide (c = slash) then EmptyString :: split s'
      else match split s' with
           | x :: xs => String c x :: xs
           | [] => [String c EmptyString]
           end
  end.

(** [s.rsplit('/', 1)] when it has two parts; [None] when [s] has no
    slash and the result has a single element. *)
Fixpoint rsplit1 (s : string) : option (string * string) :=
  match s with
  | EmptyString => None
  | String c s' =>
      match rsplit1 s' with
      | Some (b, n) => Some (String c b, n)
      | None => if decide (c = slash) then Some (EmptyString, s') else None
      end
  end.

(** [sorted(d)] for a dict with string keys. *)
Definition sorted_keys (d : gmap string Node) : list string :=
  merge_sort (λ a b : string, String.leb a b) (elements (dom d)).

(** ** The monad of facade operations *)

Inductive result (A : Type) :=
| Return (a : A)
| Raise (e : exn).
Arguments Return {A} a.
Arguments Raise {A} e.

Definition M (A : Type) : Type := World → result A * World.

Definition ret {A} (a : A) : M A := λ w, (Return a, w).

Definition bind {A B} (m : M A) (k : A → M B) : M B :=
  λ w, match m w with
       | (Return a, w') => k a w'
       | (Raise e, w') => (Raise e, w')
       end.

Definition raise {A} (e : exn) : M A := λ w, (Raise e, w).

(** [try: m except ...: handler]; the handler chooses the exceptions it
    catches. *)
Definition try_except {A} (m : M A) (handler : exn → option (M A)) : M A :=
  λ w, match m w with
       | (Return a, w') => (Return a, w')
       | (Raise e, w') =>
           match handler e with
           | Some k => k w'
           | None => (Raise e, w')
           end
       end.

#[global] Instance M_ret : MRet M := @ret.
#[global] Instance M_bind : MBind M := λ A B k m, bind m k.

Definition set_root (r : Node) (z : ZooKeeper) : ZooKeeper :=
  mkZooKeeper (connection_string z) r (sessions z).

Definition set_sessions (s : gmap Z (gset string)) (z : ZooKeeper)
    : ZooKeeper :=
  mkZooKeeper (connection_string z) (root z) s.

Definition get_zk : M ZooKeeper := λ w, (Return (zk w), w).

Definition put_zk (z : ZooKeeper) : M unit :=
  λ w, (Return tt, mkWorld z (trace w)).

Definition emit (e : event) : M unit :=
  λ w, (Return tt, mkWorld (zk w) (trace w ++ [e])).

(** Invoke callbacks one after the other; each finds the current state. *)
Definition invoke (calls : list call) : M unit :=
  λ w, (Return tt,
        mkWorld (zk w) (trace w ++ map (λ c, Called c (zk w)) calls)).

(** [obj.attr = v] and the like on the object at [self]. *)
Definition assign (self : ref) (f : Node → Node) : M unit :=
  z ← get_zk; put_zk (set_root (update_at self f (root z)) z).

(** A method call [self.m(...)] on a linked object.  In every method of
    [Node] the assignments to [self] that change something precede the first
    callback loop, so all its callbacks find the same state. *)
Definition method (self : ref) (m : Node → Node * list call) : M unit :=
  z ← get_zk;
  match lookup_pos self (root z) with
  | Some obj => assign self (λ _, (m obj).1) ;; invoke (m obj).2
  | None => ret tt
  end.

(** A method call on an object that is no longer linked: only its callback
    invocations are observable. *)
Definition detached (obj : Node) (m : Node → Node * list call) : M unit :=
  invoke (m obj).2.

(** [self.sessions[handle]]. *)
Definition session_paths (handle : Z) : M (gset string) :=
  z ← get_zk;
  match sessions z !! handle with
  | Some paths => ret paths
  | None => raise (KeyError (KInt handle))
  end.

Definition set_session (handle : Z) (paths : gset string) : M unit :=
  z ← get_zk; put_zk (set_sessions (<[handle := paths]> (sessions z)) z).

(** ** The facade *)

(** [assert_(cond, mess)]: prints, and returns. *)
Definition assert_ (cond : bool) (mess : string) : M unit :=
  if cond then ret tt else emit (Printed ["assertion failed: "; mess])%string.

Module ZooKeeper.

(** [ZooKeeper.__init__(self, connection_string, tree)]; the session table
    starts empty. *)
Definition __init__ (connection_string : string) (tree : Node) : ZooKeeper :=
  mkZooKeeper connection_string tree ∅.

(** The loop [while handle in self.sessions: handle += 1], run for at most
    [fuel] iterations. *)
Fixpoint next_handle (fuel : nat) (sessions : gmap Z (gset string))
    (handle : Z) : Z :=
  match fuel with
  | O => handle
  | S fuel' =>
      if decide (handle ∈ dom sessions)
      then next_handle fuel' sessions (handle + 1)
      else handle
  end.

(** [init] has no [return]: its value is [None], here [tt]. *)
Definition init (addr : string) (watch : option callback) : M unit :=
  z ← get_zk;
  assert_ (bool_decide (addr = connection_string z)) addr ;;
  let handle := 0 in
  let handle := next_handle (S (size (sessions z))) (sessions z) handle in
  set_session handle ∅ ;;
  match watch with
  | Some w => invoke [Call w handle SESSION_EVENT CONNECTED_STATE ""%string]
  | None => ret tt
  end.

Definition _check_handle (handle : Z) : M unit :=
  z ← get_zk;
  if decide (handle ∈ dom (sessions z)) then ret tt
  else raise (ZooKeeperException "handle out of range").

(** The body of the [for name in ...] loop of [_traverse]; [here] is the
    position of the object [node]. *)
Fixpoint traverse_loop (here : ref) (node : Node) (names : list string)
    : exn + (ref * Node) :=
  match names with
  | [] => inr (here, node)
  | name :: rest =>
      if decide (name = ""%string) then traverse_loop here node rest
      else match children node !! name with
           | Some c => traverse_loop (here ++ [name]) c rest
           | None => inl (NoNodeException "no node")
           end
  end.

(** Returns the node: its position, and the object as it is now. *)
Definition _traverse (path : string) : M (ref * Node) :=
  z ← get_zk;
  match traverse_loop [] (root z) (tail (split path)) with
  | inr r => ret r
  | inl e => raise e
  end.

(** [base, name = path.rsplit('/', 1)]. *)
Definition rsplit (path : string) : M (string * string) :=
  match rsplit1 path with
  | Some bn => ret bn
  | None => raise (ValueError "need more than 1 value to unpack")
  end.

Definition state (handle : Z) : M Z :=
  _check_handle handle ;;
  ret CONNECTED_STATE.

Definition create (handle : Z) (path : string) (data : string) (acl : ACL)
    (flags : Z) : M string :=
  _check_handle handle ;;
  '(base, name) ← rsplit path;
  '(node, obj) ← _traverse base;
  if decide (name ∈ dom (children obj)) then raise NodeExistsException
  else
    let newnode := node ++ [name] in
    assign node (add_child name (Node.__init__ data ∅)) ;;
    assign newnode (set_acls acl) ;;
    assign newnode (set_flags flags) ;;
    method node (Node.children_changed handle CONNECTED_STATE base) ;;
    (if decide (Z.land flags EPHEMERAL ≠ 0)
     then paths ← session_paths handle;
          set_session handle (paths ∪ {[path]})
     else ret tt) ;;
    ret path.

(** After [del bnode.children[name]] the object [node] is either [bnode]
    itself (the name after the last slash is empty, so both traversals
    stopped at the same object) or the child just unlinked. *)
Definition delete (handle : Z) (path : string) : M unit :=
  _check_handle handle ;;
  '(node, obj) ← _traverse path;
  '(base, name) ← rsplit path;
  '(bnode, bobj) ← _traverse base;
  if decide (name ∈ dom (children bobj)) then
    assign bnode (del_child name) ;;
    (if decide (node = bnode)
     then method node (Node.deleted handle CONNECTED_STATE path)
     else detached obj (Node.deleted handle CONNECTED_STATE path)) ;;
    method bnode (Node.children_changed handle CONNECTED_STATE base) ;;
    paths ← session_paths handle;
    if decide (path ∈ paths) then set_session handle (paths ∖ {[path]})
    else ret tt
  else raise (KeyError (KStr name)).

(** [for path in paths: self.delete(handle, path)]. *)
Fixpoint delete_each (handle : Z) (paths : list string) : M unit :=
  match paths with
  | [] => ret tt
  | path :: rest => delete handle path ;; delete_each handle rest
  end.

(** [list(s)] enumerates a Python set in an order that the language does
    not fix; [set_list] is that enumeration. *)
Definition close (set_list : gset string → list string) (handle : Z)
    : M unit :=
  _check_handle handle ;;
  paths ← session_paths handle;
  delete_each handle (set_list paths) ;;
  z ← get_zk;
  (if decide (handle ∈ dom (sessions z))
   then put_zk (set_sessions (base.delete handle (sessions z)) z)
   else raise (KeyError (KInt handle))) ;;
  z ← get_zk;
  put_zk (set_root (Node.clear_watchers handle (root z)) z).

Definition exists_ (handle : Z) (path : string) : M bool :=
  _check_handle handle ;;
  try_except (_traverse path ;; ret true)
    (λ e, match e with
          | NoNodeException _ => Some (ret false)
          | _ => None
          end).

Definition get_children (handle : Z) (path : string)
    (watch : option callback) : M (list string) :=
  _check_handle handle ;;
  '(node, obj) ← _traverse path;
  match watch with
  | Some w =>
      assign node (λ n, set_child_watchers (child_watchers n ++ [(handle, w)]) n)
  | None => ret tt
  end ;;
  ret (sorted_keys (children obj)).

(** The metadata dict has the single key [ephemeralOwner]. *)
Definition get (handle : Z) (path : string) (watch : option callback)
    : M (string * Z) :=
  _check_handle handle ;;
  '(node, obj) ← _traverse path;
  match watch with
  | Some w => assign node (λ n, set_watchers (watchers n ++ [(handle, w)]) n)
  | None => ret tt
  end ;;
  ret (data obj, if decide (Z.land (flags obj) EPHEMERAL ≠ 0) then 1 else 0).

Definition set (handle : Z) (path : string) (data : string) : M unit :=
  _check_handle handle ;;
  '(node, obj) ← _traverse path;
  assign node (set_data data) ;;
  method node (Node.changed handle CONNECTED_STATE path).

(** Returns [(dict(aversion=node.aversion), node.acl)]. *)
Definition get_acl (handle : Z) (path : string) : M (Z * ACL) :=
  _check_handle handle ;;
  '(node, obj) ← _traverse path;
  ret (aversion obj, acl obj).

Definition set_acl (handle : Z) (path : string) (aversion0 : Z) (acl0 : ACL)
    : M unit :=
  _check_handle handle ;;
  '(node, obj) ← _traverse path;
  if decide (aversion0 ≠ aversion obj)
  then raise (BadVersionException "bad version")
  else
    assign node (λ n, set_aversion (aversion n + 1) n) ;;
    assign node (set_acl_attr acl0).

End ZooKeeper.

(** ** The facade with callbacks that may raise *)

(** What a callback does when it is invoked with the arguments of [c]: it
    returns ([None]) or raises.  It may depend on the world at that moment:
    the emulator as the callback finds it and everything printed or invoked
    before. *)
Definition behaviour := World → call → option exn.

(** The operations of [ZooKeeper] that invoke callbacks, and the methods of
    [Node] as they are called from them, with the behaviour of the callbacks
    as a parameter.  No method of [Node] and no operation catches what a
    callback raises. *)
Module Callbacks.

Section behaviour.
Variable beh : behaviour.

(** [for h, w in watchers: w(h, ...)]: the loop ends at the first callback
    that raises, which has been invoked. *)
Fixpoint invoke (calls : list call) : M unit :=
  match calls with
  | [] => ret tt
  | c :: rest =>
      λ w, let w1 := mkWorld (zk w) (trace w ++ [Called c (zk w)]) in
           match beh w c with
           | Some e => (Raise e, w1)
           | None => invoke rest w1
           end
  end.

Definition method (self : ref) (m : Node → Node * list call) : M unit :=
  z ← get_zk;
  match lookup_pos self (root z) with
  | Some obj => assign self (λ _, (m obj).1) ;; invoke (m obj).2
  | None => ret tt
  end.

Definition detached (obj : Node) (m : Node → Node * list call) : M unit :=
  invoke (m obj).2.

Definition init (addr : string) (watch : option callback) : M unit :=
  z ← get_zk;
  assert_ (bool_decide (addr = connection_string z)) addr ;;
  let handle := 0 in
  let handle :=
    ZooKeeper.next_handle (S (size (sessions z))) (sessions z) handle in
  set_session handle ∅ ;;
  match watch with
  | Some w => invoke [Call w handle SESSION_EVENT CONNECTED_STATE ""%string]
  | None => ret tt
  end.

Definition create (handle : Z) (path : string) (data : string) (acl : ACL)
    (flags : Z) : M string :=
  ZooKeeper._check_handle handle ;;
  '(base, name) ← ZooKeeper.rsplit path;
  '(node, obj) ← ZooKeeper._traverse base;
  if decide (name ∈ dom (children obj)) then raise NodeExistsException
  else
    let newnode := node ++ [name] in
    assign node (add_child name (Node.__init__ data ∅)) ;;
    assign newnode (set_acls acl) ;;
    assign newnode (set_flags flags) ;;
    method node (Node.children_changed handle CONNECTED_STATE base) ;;
    (if decide (Z.land flags EPHEMERAL ≠ 0)
     then paths ← session_paths handle;
          set_session handle (paths ∪ {[path]})
     else ret tt) ;;
    ret path.

Definition delete (handle : Z) (path : string) : M unit :=
  ZooKeeper._check_handle handle ;;
  '(node, obj) ← ZooKeeper._traverse path;
  '(base, name) ← ZooKeeper.rsplit path;
  '(bnode, bobj) ← ZooKeeper._traverse base;
  if decide (name ∈ dom (children bobj)) then
    assign bnode (del_child name) ;;
    (if decide (node = bnode)
     then method node (Node.deleted handle CONNECTED_STATE path)
     else detached obj (Node.deleted handle CONNECTED_STATE path)) ;;
    method bnode (Node.children_changed handle CONNECTED_STATE base) ;;
    paths ← session_paths handle;
    if decide (path ∈ paths) then set_session handle (paths ∖ {[path]})
    else ret tt
  else raise (KeyError (KStr name)).

Fixpoint delete_each (handle : Z) (paths : list string) : M unit :=
  match paths with
  | [] => ret tt
  | path :: rest => delete handle path ;; delete_each handle rest
  end.

Definition close (set_list : gset string → list string) (handle : Z)
    : M unit :=
  ZooKeeper._check_handle handle ;;
  paths ← session_paths handle;
  delete_each handle (set_list paths) ;;
  z ← get_zk;
  (if decide (handle ∈ dom (sessions z))
   then put_zk (set_sessions (base.delete handle (sessions z)) z)
   else raise (KeyError (KInt handle))) ;;
  z ← get_zk;
  put_zk (set_root (Node.clear_watchers handle (root z)) z).

Definition set (handle : Z) (path : string) (data : string) : M unit :=
  ZooKeeper._check_handle handle ;;
  '(node, obj) ← ZooKeeper._traverse path;
  assign node (set_data data) ;;
  method node (Node.changed handle CONNECTED_STATE path).

End behaviour.

End Callbacks.


(** ** Traversal, in the words of the specification *)

(** The names that a traversal of [names] looks up: the non-empty ones. *)
Definition nonempty (names : list string) : list string :=
  filter (λ s : string, s ≠ ""%string) names.

(** The position that [_traverse path] reaches: [path.split('/')[1:]]
    without its empty segments. *)
Definition segs (path : string) : ref := nonempty (tail (split path)).

(** The specification's reading of traversal: split the path on slashes,
    skip every empty segment, descend [children] from the root, and fail
    with "no node" at an absent segment. *)
Definition traverse_spec (path : string) (root0 : Node) : exn + (ref * Node) :=
  match lookup_pos (nonempty (split path)) root0 with
  | Some n => inr (nonempty (split path), n)
  | None => inl (NoNodeException "no node")
  end.

(** ** The operations of the facade, enumerated *)

Inductive operation :=
| op_init (addr : string) (watch : option callback)
| op_close (handle : Z)
| op_state (handle : Z)
| op_create (handle : Z) (path data0 : string) (acl0 : ACL) (flags0 : Z)
| op_delete (handle : Z) (path : string)
| op_exists (handle : Z) (path : string)
| op_get_children (handle : Z) (path : string) (watch : option callback)
| op_get (handle : Z) (path : string) (watch : option callback)
| op_set (handle : Z) (path data0 : string)
| op_get_acl (handle : Z) (path : string)
| op_set_acl (handle : Z) (path : string) (aversion0 : Z) (acl0 : ACL).

(** What an operation returns. *)
Inductive value :=
| VNone
| VInt (z : Z)
| VBool (b : bool)
| VStr (s : string)
| VNames (names : list string)
| VData (data0 : string) (ephemeralOwner : Z)
| VAcl (aversion0 : Z) (acl0 : ACL).

Definition returning {A} (f : A → value) (m : M A) : M value :=
  a ← m; ret (f a).

Definition perform (set_list : gset string → list string) (o : operation)
    : M value :=
  match o with
  | op_init addr watch => returning (λ _, VNone) (ZooKeeper.init addr watch)
  | op_close handle => returning (λ _, VNone) (ZooKeeper.close set_list handle)
  | op_state handle => returning VInt (ZooKeeper.state handle)
  | op_create handle path data0 acl0 flags0 =>
      returning VStr (ZooKeeper.create handle path data0 acl0 flags0)
  | op_delete handle path =>
      returning (λ _, VNone) (ZooKeeper.delete handle path)
  | op_exists handle path => returning VBool (ZooKeeper.exists_ handle path)
  | op_get_children handle path watch =>
      returning VNames (ZooKeeper.get_children handle path watch)
  | op_get handle path watch =>
      returning (λ r, VData r.1 r.2) (ZooKeeper.get handle path watch)
  | op_set handle path data0 =>
      returning (λ _, VNone) (ZooKeeper.set handle path data0)
  | op_get_acl handle path =>
      returning (λ r, VAcl r.1 r.2) (ZooKeeper.get_acl handle path)
  | op_set_acl handle path aversion0 acl0 =>
      returning (λ _, VNone) (ZooKeeper.set_acl handle path aversion0 acl0)
  end.

Definition is_close (o : operation) : bool :=
  match o with
  | op_close _ => true
  | _ => false
  end.

(** An operation that changes nothing when it raises. *)
Definition fails_clean {A} (m : M A) : Prop :=
  ∀ w e w', m w = (Raise e, w') → w' = w.

(** ** The effect of the operations, spelled out *)

(** The session that [init] registers and the invocations it makes. *)
Definition init_handle (z : ZooKeeper) : Z :=
  ZooKeeper.next_handle (S (size (sessions z))) (sessions z) 0.

Definition init_zk (z : ZooKeeper) : ZooKeeper :=
  set_sessions (<[init_handle z := ∅]> (sessions z)) z.

Definition init_calls (z : ZooKeeper) (watch : option callback) : list event :=
  match watch with
  | Some cb =>
      [Called (Call cb (init_handle z) SESSION_EVENT CONNECTED_STATE "")
              (init_zk z)]
  | None => []
  end.

(** The node that [create] links, once its three assignments are done. *)
Definition created (data0 : string) (acl0 : ACL) (flags0 : Z) : Node :=
  mkNode data0 ∅ [] [] flags0 0 OPEN_ACL_UNSAFE (Some acl0).

(** The emulator after [create] has linked the node and notified the
    parent's child watchers, before the session table is touched. *)
Definition create_zk (base name data0 : string) (acl0 : ACL) (flags0 : Z)
    (z : ZooKeeper) : ZooKeeper :=
  set_root
    (update_at (segs base)
       (λ n, set_child_watchers [] (add_child name (created data0 acl0 flags0) n))
       (root z)) z.

(** [self.sessions[handle].add(path)] when the flags have the ephemeral
    bit. *)
Definition record_ephemeral (handle : Z) (path : string) (flags0 : Z)
    (z : ZooKeeper) : ZooKeeper :=
  if decide (Z.land flags0 EPHEMERAL ≠ 0)
  then set_sessions
         (<[handle := default ∅ (sessions z !! handle) ∪ {[path]}]> (sessions z)) z
  else z.

(** The emulator after [del bnode.children[name]]. *)
Definition unlinked (base name : string) (z : ZooKeeper) : ZooKeeper :=
  set_root (update_at (segs base) (del_child name) (root z)) z.

(** The emulator after [node.deleted(...)]: when both traversals of
    [delete] stopped at the same object, that object is still linked and
    loses its data watchers; otherwise the object is out of the tree. *)
Definition delete_zk1 (path base name : string) (z : ZooKeeper) : ZooKeeper :=
  if decide (segs path = segs base)
  then set_root (update_at (segs base) (set_watchers [])
                   (root (unlinked base name z)))
         (unlinked base name z)
  else unlinked base name z.

(** The emulator after [bnode.children_changed(...)]. *)
Definition delete_zk2 (path base name : string) (z : ZooKeeper) : ZooKeeper :=
  set_root (update_at (segs base) (set_child_watchers [])
              (root (delete_zk1 path base name z)))
    (delete_zk1 path base name z).

(** [if path in self.sessions[handle]: self.sessions[handle].remove(path)]. *)
Definition forget_ephemeral (handle : Z) (path : string) (z : ZooKeeper)
    : ZooKeeper :=
  if decide (path ∈ default ∅ (sessions z !! handle))
  then set_sessions
         (<[handle := default ∅ (sessions z !! handle) ∖ {[path]}]> (sessions z)) z
  else z.

(** The invocations that [node.deleted(handle, state, path)] makes. *)
Definition deleted_calls (path : string) (obj : Node) : list call :=
  Node.notify DELETED_EVENT CONNECTED_STATE path (watchers obj) ++
  Node.notify DELETED_EVENT CONNECTED_STATE path (child_watchers obj).

(** The dictionary entry that [delete(handle, path)] removes:
    [bnode.children[name]], as a position. *)
Definition link (path : string) : option ref :=
  match rsplit1 path with
  | Some (base, name) => Some (segs base ++ [name])
  | None => None
  end.

(** What a node holds apart from its children and its watchers. *)
Definition payload (n : Node) : string * Z * Z * ACL * option ACL :=
  (data n, flags n, aversion n, acl n, acls n).

(** A mutation of a node that removes the child [name] and leaves the other
    children and the payload alone. *)
Definition prunes (name : string) (g : Node → Node) : Prop :=
  ∀ m, children (g m) = delete name (children m) ∧ payload (g m) = payload m.

(** ** Observations *)

Definition raised {A} (r : result A * World) : bool :=
  match r.1 with
  | Raise _ => true
  | Return _ => false
  end.

(** The world reached by an operation, whether it returned or raised. *)
Definition after {A} (r : result A * World) : World := r.2.

(** The callback invocations of a trace, in order. *)
Definition event_call (e : event) : option call :=
  match e with
  | Called c _ => Some c
  | Printed _ => None
  end.

Definition calls (tr : list event) : list call := omap event_call tr.

(** Whether the callback of an event finds position [pos] linked. *)
Definition seen_linked (pos : ref) (e : event) : bool :=
  match e with
  | Called _ z => bool_decide (is_Some (lookup_pos pos (root z)))
  | Printed _ => true
  end.

(** ** Example states *)

(** The emulator that [setUp] builds for an empty import tree, before any
    session is opened. *)
Definition zk_empty : ZooKeeper :=
  mkZooKeeper "zookeeper.example.com:2181" (Node.__init__ "" ∅) ∅.

Definition w_empty : World := mkWorld zk_empty [].

Definition addr0 : string := "zookeeper.example.com:2181".

Definition acl_bob : ACL := [ {| perms := 1; scheme := "digest"; id := "bob" |} ].

(** One session, handle 0, and the empty tree. *)
Definition w_one : World := after (ZooKeeper.init addr0 None w_empty).

(** The same after session 0 has created [/a] with data [x] and the ACL
    [acl_bob]. *)
Definition w_a : World :=
  after (ZooKeeper.create 0 "/a" "x" acl_bob 0 w_one).

(** Session 0 has also registered callback 5 as a data watcher and
    callback 6 as a child watcher of [/a]. *)
Definition w_watched : World :=
  after ((ZooKeeper.get 0 "/a" (Some 5%nat) ;;
          ZooKeeper.get_children 0 "/a" (Some 6%nat)) w_a).

(** Session 0 has created the path [/] (a child of the root whose name is
    the empty string) and then registered callback 5 as a child watcher of
    the root. *)
Definition w_slash : World :=
  after ((ZooKeeper.create 0 "/" "x" acl_bob 0 ;;
          ZooKeeper.get_children 0 "/" (Some 5%nat)) w_one).

(** Two sessions.  Session 0 created the ephemeral node [/a]; session 1
    deleted it, which leaves the path in the set of session 0; session 0
    then created the same node again under the spelling [//a].  The set of
    session 0 holds both spellings of one node. *)
Definition w_alias : World :=
  after ((ZooKeeper.init addr0 None ;;
          ZooKeeper.create 0 "/a" "x" acl_bob EPHEMERAL ;;
          ZooKeeper.delete 1 "/a" ;;
          ZooKeeper.create 0 "//a" "y" acl_bob EPHEMERAL) w_one).

(** Session 0 has created the ephemeral node [/e] and, below it, the
    node [/e/n] without the ephemeral flag. *)
Definition w_nested : World :=
  after ((ZooKeeper.create 0 "/e" "x" acl_bob EPHEMERAL ;;
          ZooKeeper.create 0 "/e/n" "y" acl_bob 0) w_one).

(** Session 0 has created the ephemeral node [/e]; session 1 has created
    [/k] without the ephemeral flag and registered callback 5 as a data
    watcher of [/k]; session 0 has registered callback 6 on it. *)
Definition w_two : World :=
  after ((ZooKeeper.init addr0 None ;;
          ZooKeeper.create 0 "/e" "x" acl_bob EPHEMERAL ;;
          ZooKeeper.create 1 "/k" "y" acl_bob 0 ;;
          ZooKeeper.get 1 "/k" (Some 5%nat) ;;
          ZooKeeper.get 0 "/k" (Some 6%nat)) w_one).

(** ** Further vocabulary *)

(** Whether a path has a slash, that is whether [path.rsplit('/', 1)] has
    two parts. *)
Fixpoint has_slash (s : string) : bool :=
  match s with
  | EmptyString => false
  | String c s' => if decide (c = slash) then true else has_slash s'
  end.

(** The handle argument of an operation; [init] has none. *)
Definition op_handle (o : operation) : option Z :=
  match o with
  | op_init _ _ => None
  | op_close handle | op_state handle | op_create handle _ _ _ _
  | op_delete handle _ | op_exists handle _ | op_get_children handle _ _
  | op_get handle _ _ | op_set handle _ _ | op_get_acl handle _
  | op_set_acl handle _ _ _ => Some handle
  end.

(** The operations that only read: [state], [exists], [get_acl], and [get]
    and [get_children] when no watch is passed. *)
Definition read_only (o : operation) : bool :=
  match o with
  | op_state _ | op_exists _ _ | op_get_acl _ _
  | op_get_children _ _ None | op_get _ _ None => true
  | _ => false
  end.

(** The operations that link or unlink nodes. *)
Definition reshapes (o : operation) : bool :=
  match o with
  | op_create _ _ _ _ _ | op_delete _ _ | op_close _ => true
  | _ => false
  end.

(** The operations that add or remove a session. *)
Definition opens_or_closes (o : operation) : bool :=
  match o with
  | op_init _ _ | op_close _ => true
  | _ => false
  end.

(** An operation whose final world, returned or raised, is related to the
    initial one. *)
Definition preserves {A} (R : World → World → Prop) (m : M A) : Prop :=
  ∀ w, R w (m w).2.

(** A mutation of a node that leaves its dictionary of children alone. *)
Definition keeps_children (f : Node → Node) : Prop :=
  ∀ m, children (f m) = children m.

(** The same positions are linked in both worlds, and the session table and
    the connection string are the same. *)
Definition quiet (w w' : World) : Prop :=
  sessions (zk w') = sessions (zk w) ∧
  connection_string (zk w') = connection_string (zk w) ∧
  ∀ q, is_Some (lookup_pos q (root (zk w'))) ↔
       is_Some (lookup_pos q (root (zk w))).

(** The operations, with callbacks that behave as [beh]. *)
Definition perform_with (beh : behaviour)
    (set_list : gset string → list string) (o : operation) : M value :=
  match o with
  | op_init addr watch =>
      returning (λ _, VNone) (Callbacks.init beh addr watch)
  | op_close handle =>
      returning (λ _, VNone) (Callbacks.close beh set_list handle)
  | op_create handle path data0 acl0 flags0 =>
      returning VStr (Callbacks.create beh handle path data0 acl0 flags0)
  | op_delete handle path =>
      returning (λ _, VNone) (Callbacks.delete beh handle path)
  | op_set handle path data0 =>
      returning (λ _, VNone) (Callbacks.set beh handle path data0)
  | _ => perform set_list o
  end.

(** The callbacks invoked as in [cs] return normally, whenever invoked. *)
Definition return_normally (beh : behaviour) (cs : list call) : Prop :=
  ∀ w c, c ∈ cs → beh w c = None.

(** The world [w'] is the one in which a callback has just been invoked
    and has raised [e]. *)
Definition raised_by_callback (beh : behaviour) (e : exn) (w' : World)
    : Prop :=
  ∃ w0 c, beh w0 c = Some e ∧
          w' = mkWorld (zk w0) (trace w0 ++ [Called c (zk w0)]).

(** The operations in whose body a callback is invoked. *)
Definition invokes_callbacks (o : operation) : bool :=
  match o with
  | op_init _ _ | op_close _ | op_create _ _ _ _ _ | op_delete _ _
  | op_set _ _ _ => true
  | _ => false
  end.

(** An operation that, when it raises, has changed nothing or passes on
    what a callback has just raised. *)
Definition fails_in_callback (beh : behaviour) {A} (m : M A) : Prop :=
  ∀ w e w', m w = (Raise e, w') → w' = w ∨ raised_by_callback beh e w'.

(** Callback [n] raises, every other callback returns. *)
Definition raises_at (n : callback) : behaviour :=
  λ _ c, if decide (c_watch c = n) then Some (Exception "boom") else None.

(** Callback 6 raises. *)
Definition beh_six : behaviour := raises_at 6%nat.

(** Session 0 has registered callback 6 and then callback 5 as data
    watchers of [/a]. *)
Definition w_six : World :=
  after ((ZooKeeper.get 0 "/a" (Some 6%nat) ;;
          ZooKeeper.get 0 "/a" (Some 5%nat)) w_a).

(** The value of [ephemeralOwner] that [get] computes from the flags. *)
Definition ephemeral_owner (flags0 : Z) : Z :=
  if decide (Z.land flags0 EPHEMERAL ≠ 0) then 1 else 0.

(** Session 0 has created [/a] and then [/a/], a child of [/a] whose name
    is the empty string. *)
Definition w_a_slash : World :=
  after (ZooKeeper.create 0 "/a/" "z" acl_bob 0 w_a).

(** ** [wait_until] *)

(** [wait_until(func, timeout)] talks to two things outside: the callable
    [func], and the clock of [time.time()] and [time.sleep(.01)].  Both are
    oracles here: [func_result i] is what the call number [i] of [func]
    returns and [clock i] is what the reading number [i] of the clock
    returns (numbering from 0).  Clock values are kept abstract, with the
    addition and the comparison [>] of Python's floats as parameters.  The
    state counts the calls made so far. *)
Record poll_env (T : Type) := mk_poll_env {
  func_result : nat → bool;
  clock : nat → T;
}.
Arguments func_result {T} _ _.
Arguments clock {T} _ _.

Record poll_state := mk_poll_state {
  func_calls : nat;
  clock_reads : nat;
  sleeps : nat;
}.

Inductive wait_outcome :=
| WReturn
| WAssertionError (msg : string).

Section wait_until.
Context {T : Type}.
Variables (add : T → T → T) (gt : T → T → bool).

(** [func()]. *)
Definition call_func (env : poll_env T) (st : poll_state) : bool * poll_state :=
  (func_result env (func_calls st),
   mk_poll_state (S (func_calls st)) (clock_reads st) (sleeps st)).

(** [time.time()]. *)
Definition read_clock (env : poll_env T) (st : poll_state) : T * poll_state :=
  (clock env (clock_reads st),
   mk_poll_state (func_calls st) (S (clock_reads st)) (sleeps st)).

(** [time.sleep(.01)]. *)
Definition sleep (st : poll_state) : poll_state :=
  mk_poll_state (func_calls st) (clock_reads st) (S (sleeps st)).

(** The loop [while not func(): ...], for at most [fuel] tests of its
    condition; [None] when the fuel does not suffice. *)
Fixpoint wait_loop (fuel : nat) (env : poll_env T) (deadline : T)
    (st : poll_state) : option (wait_outcome * poll_state) :=
  match fuel with
  | O => None
  | S fuel' =>
      let (b, st) := call_func env st in
      if b then Some (WReturn, st)
      else
        let st := sleep st in
        let (t, st) := read_clock env st in
        if gt t deadline then Some (WAssertionError "timeout", st)
        else wait_loop fuel' env deadline st
  end.

Definition wait_until (fuel : nat) (env : poll_env T) (timeout : T)
    (st : poll_state) : option (wait_outcome * poll_state) :=
  let (b, st) := call_func env st in
  if b then Some (WReturn, st)
  else
    let (t, st) := read_clock env st in
    let deadline := add t timeout in
    wait_loop fuel env deadline st.

End wait_until.

(** Nothing called yet. *)
Definition poll_start : poll_state := mk_poll_state 0 0 0.

(** What one call of [func] does: it returns a value, of which
    [wait_until] uses the truth, or it raises. *)
Inductive func_outcome :=
| FReturns (truth : bool)
| FRaises (e : exn).

(** [wait_until] again, with the argument [func] as the source has it: a
    callable whose calls may raise, or the default [None], which cannot be
    called.  [wait_until] catches nothing. *)
Module Callable.

Section wait_until.
Context {T : Type}.
Variables (add : T → T → T) (gt : T → T → bool).
Variable func : option (nat → func_outcome).
Variable clock : nat → T.

(** [func()]. *)
Definition call_func (st : poll_state) : func_outcome * poll_state :=
  match func with
  | Some f =>
      (f (func_calls st),
       mk_poll_state (S (func_calls st)) (clock_reads st) (sleeps st))
  | None => (FRaises (TypeError "'NoneType' object is not callable"), st)
  end.

(** [time.time()]. *)
Definition read_clock (st : poll_state) : T * poll_state :=
  (clock (clock_reads st),
   mk_poll_state (func_calls st) (S (clock_reads st)) (sleeps st)).

Fixpoint wait_loop (fuel : nat) (deadline : T) (st : poll_state)
    : option (result unit * poll_state) :=
  match fuel with
  | O => None
  | S fuel' =>
      match call_func st with
      | (FRaises e, st) => Some (Raise e, st)
      | (FReturns true, st) => Some (Return tt, st)
      | (FReturns false, st) =>
          let st := sleep st in
          let (t, st) := read_clock st in
          if gt t deadline then Some (Raise (AssertionError "timeout"), st)
          else wait_loop fuel' deadline st
      end
  end.

Definition wait_until (fuel : nat) (timeout : T) (st : poll_state)
    : option (result unit * poll_state) :=
  match call_func st with
  | (FRaises e, st) => Some (Raise e, st)
  | (FReturns true, st) => Some (Return tt, st)
  | (FReturns false, st) =>
      let (t, st) := read_clock st in
      let deadline := add t timeout in
      wait_loop fuel deadline st
  end.

End wait_until.

End Callable.

(** The outcomes of [wait_until] as results. *)
Definition outcome_result (out : wait_outcome) : result unit :=
  match out with
  | WReturn => Return tt
  | WAssertionError msg => Raise (AssertionError msg)
  end.

(** A function whose calls all return: those of the oracle [env]. *)
Definition returning_func {T} (env : poll_env T) : option (nat → func_outcome) :=
  Some (λ i, FReturns (func_result env i)).

(** A function that returns false twice and raises at its third call. *)
Definition func_third : option (nat → func_outcome) :=
  Some (λ i, if bool_decide (i < 2)%nat then FReturns false
             else FRaises (Exception "boom")).

(** A condition that holds from its fourth test on, and a clock that
    advances by 10 at each reading. *)
Definition env_fourth : poll_env Z :=
  mk_poll_env Z (λ i, bool_decide (3 ≤ i)%nat) (λ i, 10 * Z.of_nat i).

(** A condition that never holds, with the same clock. *)
Definition env_never : poll_env Z :=
  mk_poll_env Z (λ _, false) (λ i, 10 * Z.of_nat i).

(** * Properties *)

Arguments ZooKeeper.next_handle : simpl never.

(** Unfolding of the monad and of its primitives. *)
Ltac zk_unfold :=
  unfold mbind, M_bind, bind, mret, M_ret, ret, raise, try_except,
    get_zk, put_zk, emit, invoke, assign, method, detached,
    session_paths, set_session in *.

(** ** Session allocation *)

Section next_handle.
Variable S0 : gmap Z (gset string).

Lemma range_in_dom_size (h : Z) :
  0 ≤ h → (∀ k, 0 ≤ k < h → k ∈ dom S0) → (Z.to_nat h ≤ size S0)%nat.
Proof.
  intros Hh Hk.
  rewrite <- (size_dom (D := gset Z)).
  rewrite <- (length_seqZ 0 h).
  rewrite <- (size_list_to_set (C := gset Z)) by apply NoDup_seqZ.
  apply subseteq_size. intros k Hin.
  apply elem_of_list_to_set, elem_of_seqZ in Hin. apply Hk. lia.
Qed.

Lemma next_handle_lowest (fuel : nat) (h : Z) :
  0 ≤ h →
  (∀ k, 0 ≤ k < h → k ∈ dom S0) →
  (size S0 < Z.to_nat h + fuel)%nat →
  let r := ZooKeeper.next_handle fuel S0 h in
  h ≤ r ∧ (r ∉ dom S0) ∧ (∀ k, 0 ≤ k < r → k ∈ dom S0).
Proof.
  revert h. induction fuel as [|fuel IH]; intros h Hh Hlow Hsz;
    unfold ZooKeeper.next_handle; fold ZooKeeper.next_handle.
  - pose proof (range_in_dom_size h Hh Hlow). lia.
  - destruct (decide (h ∈ dom S0)) as [Hin|Hout].
    + destruct (IH (h + 1)) as (Hle & Hfree & Hbelow).
      * lia.
      * intros k Hk. destruct (decide (k = h)) as [->|]; [done|].
        apply Hlow. lia.
      * replace (Z.to_nat (h + 1)) with (Datatypes.S (Z.to_nat h)) by lia. lia.
      * split; [lia|]. split; assumption.
    + split; [lia|]. split; assumption.
Qed.

End next_handle.

Lemma init_handle_lowest (z : ZooKeeper) :
  0 ≤ init_handle z ∧ (init_handle z ∉ dom (sessions z)) ∧
  (∀ k, 0 ≤ k < init_handle z → k ∈ dom (sessions z)).
Proof.
  unfold init_handle.
  apply (next_handle_lowest (sessions z) (S (size (sessions z))) 0).
  - lia.
  - intros k Hk. lia.
  - simpl. lia.
Qed.

(** What [init] does for any address: the only trace of a mismatch is the
    printed line. *)
Lemma init_run (addr : string) (watch : option callback) (w : World) :
  ZooKeeper.init addr watch w =
    (Return tt,
     mkWorld (init_zk (zk w))
       (trace w
        ++ (if bool_decide (addr = connection_string (zk w)) then []
            else [Printed ["assertion failed: "; addr]%string])
        ++ init_calls (zk w) watch)).
Proof.
  destruct w as [z tr].
  unfold ZooKeeper.init, assert_, init_calls, init_zk, init_handle.
  zk_unfold; simpl.
  destruct (bool_decide (addr = connection_string z)); destruct watch;
    simpl; rewrite ?app_nil_r, <- ?app_assoc; reflexivity.
Qed.







(** ** Strings and traversal *)

Lemma split_not_nil (s : string) : split s ≠ [].
Proof.
  destruct s as [|c s]; simpl; [discriminate|].
  destruct (decide (c = slash)); [discriminate|].
  destruct (split s); discriminate.
Qed.

(** [rsplit('/', 1)] cuts the last element off [split('/')]. *)
Lemma split_rsplit1 (path base name : string) :
  rsplit1 path = Some (base, name) → split path = split base ++ [name].
Proof.
  revert base name. induction path as [|c s IH]; intros base name; simpl.
  - discriminate.
  - destruct (rsplit1 s) as [[b n]|] eqn:Hr.
    + intros [= <- <-]. specialize (IH b n eq_refl). simpl.
      destruct (decide (c = slash)).
      * rewrite IH. reflexivity.
      * rewrite IH. destruct (split b) eqn:Hb; [|reflexivity].
        exfalso. exact (split_not_nil b Hb).
    + destruct (decide (c = slash)); [|discriminate].
      intros [= <- <-]. simpl.
      clear IH. f_equal.
      induction s as [|c' s' IH']; simpl in *; [reflexivity|].
      destruct (rsplit1 s') as [[b n]|]; [discriminate|].
      destruct (decide (c' = slash)); [discriminate|].
      rewrite (IH' eq_refl). reflexivity.
Qed.

Lemma rsplit1_None_split (path : string) :
  rsplit1 path = None → split path = [path].
Proof.
  induction path as [|c s IH]; simpl; [reflexivity|].
  destruct (rsplit1 s) as [[b n]|]; [discriminate|].
  destruct (decide (c = slash)); [discriminate|].
  intros _. rewrite (IH eq_refl). reflexivity.
Qed.

Lemma nonempty_app (l1 l2 : list string) :
  nonempty (l1 ++ l2) = nonempty l1 ++ nonempty l2.
Proof. apply filter_app. Qed.

(** The position of [path] is the position of [base] followed by [name],
    unless [name] is empty. *)
Lemma segs_rsplit1 (path base name : string) :
  rsplit1 path = Some (base, name) →
  segs path = segs base ++ nonempty [name].
Proof.
  intros Hr. unfold segs. rewrite (split_rsplit1 _ _ _ Hr).
  destruct (split base) as [|x xs] eqn:Hb.
  - exfalso. exact (split_not_nil base Hb).
  - simpl. apply nonempty_app.
Qed.

(** The two traversals of [delete] stop at the same object exactly when
    the name after the last slash is empty. *)
Lemma same_object_iff (path base name : string) :
  rsplit1 path = Some (base, name) →
  segs path = segs base ↔ name = ""%string.
Proof.
  intros Hr. rewrite (segs_rsplit1 _ _ _ Hr).
  change (nonempty [name]) with (filter (λ s : string, s ≠ ""%string) [name]).
  rewrite filter_cons, filter_nil.
  destruct (decide (name ≠ ""%string)) as [Hne|He].
  - split; [|done]. intros Heq. apply (f_equal length) in Heq.
    rewrite length_app in Heq. simpl in Heq. lia.
  - split; [|by rewrite app_nil_r]. intros _.
    by destruct (decide (name = ""%string)).
Qed.

Lemma lookup_pos_app (p q : ref) (n : Node) :
  lookup_pos (p ++ q) n = lookup_pos p n ≫= lookup_pos q.
Proof.
  revert n. induction p as [|x p IH]; intros n; simpl; [reflexivity|].
  destruct (children n !! x); [apply IH|reflexivity].
Qed.

(** A position is not linked exactly when the descent meets a node that
    lacks the next name. *)
Lemma lookup_pos_None (p : ref) (n : Node) :
  lookup_pos p n = None ↔
  ∃ pre name suf m, p = pre ++ name :: suf ∧ lookup_pos pre n = Some m ∧
                    children m !! name = None.
Proof.
  revert n. induction p as [|x p IH]; intros n; simpl.
  - split; [discriminate|]. intros (pre & name & suf & m & Heq & _).
    destruct pre; discriminate.
  - destruct (children n !! x) as [c|] eqn:Hc.
    + rewrite IH. split.
      * intros (pre & name & suf & m & -> & Hpre & Hm).
        exists (x :: pre), name, suf, m. simpl. rewrite Hc. done.
      * intros (pre & name & suf & m & Heq & Hpre & Hm).
        destruct pre as [|y pre]; simpl in *.
        -- injection Heq as -> ->. injection Hpre as ->. congruence.
        -- injection Heq as <- ->. rewrite Hc in Hpre.
           exists pre, name, suf, m. done.
    + split; [|done]. intros _. exists [], x, p, n. done.
Qed.

Lemma traverse_loop_eq (here : ref) (node : Node) (names : list string) :
  ZooKeeper.traverse_loop here node names =
    match lookup_pos (nonempty names) node with
    | Some n => inr (here ++ nonempty names, n)
    | None => inl (NoNodeException "no node")
    end.
Proof.
  revert here node. induction names as [|x names IH]; intros here node; simpl.
  - by rewrite app_nil_r.
  - unfold nonempty. rewrite filter_cons.
    destruct (decide (x = ""%string)) as [->|Hx].
    + rewrite decide_False by (intros H; by apply H). apply IH.
    + rewrite decide_True by assumption. simpl.
      destruct (children node !! x) as [c|]; [|reflexivity].
      rewrite IH. fold (nonempty names).
      destruct (lookup_pos (nonempty names) c); [|reflexivity].
      by rewrite <- app_assoc.
Qed.

(** [_traverse] reads the tree and changes nothing. *)
Lemma traverse_run (path : string) (w : World) :
  ZooKeeper._traverse path w =
    match lookup_pos (segs path) (root (zk w)) with
    | Some n => (Return (segs path, n), w)
    | None => (Raise (NoNodeException "no node"), w)
    end.
Proof.
  unfold ZooKeeper._traverse. zk_unfold. simpl.
  rewrite traverse_loop_eq. fold (segs path).
  destruct (lookup_pos (segs path) (root (zk w))); reflexivity.
Qed.

(** C9, as stated, fails: a path without a leading slash has a non-empty
    first segment, which is never looked up.  On the empty tree the path
    [a] resolves to the root, where the specification's reading fails. *)
Lemma traverse_first_segment_ignored :
  (ZooKeeper._traverse "a" w_empty).1 = Return ([], root zk_empty) ∧
  traverse_spec "a" (root zk_empty) = inl (NoNodeException "no node") ∧
  nonempty (split "a") = ["a"%string] ∧
  children (root zk_empty) !! "a"%string = None.
Proof. vm_compute. repeat split. Qed.

(** C9, amended.  [_traverse] splits the path on slashes and discards the
    first segment whatever it is (for a path that starts with a slash, the
    empty string before it).  It skips every empty segment among the others
    and descends [children] from the root along the non-empty ones; it
    raises "no node" exactly when it reaches a node that lacks the next
    non-empty segment, and returns the node reached otherwise.  The emulator
    is left as it was. *)
Theorem traverse_resolves (path : string) (w : World) :
  let names := nonempty (tail (split path)) in
  (∀ n, lookup_pos names (root (zk w)) = Some n →
        ZooKeeper._traverse path w = (Return (names, n), w)) ∧
  (lookup_pos names (root (zk w)) = None →
        ZooKeeper._traverse path w = (Raise (NoNodeException "no node"), w)) ∧
  (lookup_pos names (root (zk w)) = None ↔
     ∃ pre name suf m, names = pre ++ name :: suf ∧ name ≠ ""%string ∧
       lookup_pos pre (root (zk w)) = Some m ∧ children m !! name = None).
Proof.
  intros names. repeat split.
  - intros n Hn. rewrite traverse_run. unfold segs. fold names.
    by rewrite Hn.
  - intros Hn. rewrite traverse_run. unfold segs. fold names. by rewrite Hn.
  - intros Hn. apply lookup_pos_None in Hn.
    destruct Hn as (pre & name & suf & m & Heq & Hpre & Hm).
    exists pre, name, suf, m. repeat split; try assumption.
    assert (Hin : name ∈ names) by (rewrite Heq; set_solver).
    apply list_elem_of_filter in Hin. tauto.
  - intros (pre & name & suf & m & Heq & _ & Hpre & Hm).
    apply lookup_pos_None. by exists pre, name, suf, m.
Qed.

(** ** Running the primitives *)

Lemma bind_run {A B} (m : M A) (k : A → M B) (w : World) :
  (m ≫= k) w =
    match m w with
    | (Return a, w') => k a w'
    | (Raise e, w') => (Raise e, w')
    end.
Proof. reflexivity. Qed.

Lemma check_handle_live (handle : Z) (w : World) :
  handle ∈ dom (sessions (zk w)) →
  ZooKeeper._check_handle handle w = (Return tt, w).
Proof.
  intros H. unfold ZooKeeper._check_handle. zk_unfold. simpl.
  by rewrite decide_True.
Qed.

Lemma check_handle_dead (handle : Z) (w : World) :
  handle ∉ dom (sessions (zk w)) →
  ZooKeeper._check_handle handle w =
    (Raise (ZooKeeperException "handle out of range"), w).
Proof.
  intros H. unfold ZooKeeper._check_handle. zk_unfold. simpl.
  by rewrite decide_False.
Qed.

Lemma traverse_found (path : string) (w : World) (node : ref) (obj : Node) :
  ZooKeeper._traverse path w = (Return (node, obj), w) ↔
  node = segs path ∧ lookup_pos (segs path) (root (zk w)) = Some obj.
Proof.
  rewrite traverse_run.
  destruct (lookup_pos (segs path) (root (zk w))) as [n|]; split.
  - intros [= <- <-]. done.
  - intros [-> [= ->]]. done.
  - discriminate.
  - intros [_ ?]. discriminate.
Qed.

Lemma traverse_state (path : string) (w : World) : (ZooKeeper._traverse path w).2 = w.
Proof.
  rewrite traverse_run.
  by destruct (lookup_pos (segs path) (root (zk w))).
Qed.

Lemma assign_run (self : ref) (f : Node → Node) (w : World) :
  assign self f w =
    (Return tt,
     mkWorld (set_root (update_at self f (root (zk w))) (zk w)) (trace w)).
Proof. reflexivity. Qed.

(** ** The tree under in-place updates *)

Lemma lookup_update_at (p : ref) (f : Node → Node) (n : Node) :
  lookup_pos p (update_at p f n) = f <$> lookup_pos p n.
Proof.
  revert n. induction p as [|x p IH]; intros n; simpl; [reflexivity|].
  rewrite lookup_alter_eq.
  destruct (children n !! x) as [c|]; simpl; [apply IH|reflexivity].
Qed.

Lemma update_at_compose (p : ref) (f g : Node → Node) (n : Node) :
  update_at p g (update_at p f n) = update_at p (g ∘ f) n.
Proof.
  revert n. induction p as [|x p IH]; intros n; simpl; [reflexivity|].
  unfold set_children; simpl. f_equal.
  rewrite alter_alter_eq. apply alter_ext. intros c _. apply IH.
Qed.

Lemma update_at_ext (p : ref) (f g : Node → Node) (n : Node) :
  (∀ m, lookup_pos p n = Some m → f m = g m) →
  update_at p f n = update_at p g n.
Proof.
  revert n. induction p as [|x p IH]; intros n Hfg; simpl.
  - by apply Hfg.
  - f_equal. apply alter_ext. intros c Hc. apply IH.
    intros m Hm. apply Hfg. simpl. by rewrite Hc.
Qed.

(** ** ACL versions *)

(** C5.  On a live handle and an existing path, [set_acl] with another
    version than the node's [aversion] raises [BadVersionException] and
    leaves the emulator as it was; with the node's [aversion] it returns,
    and the node then carries the new ACL and [aversion + 1], which
    [get_acl] reports. *)
Theorem set_acl_versioned (w : World) (handle : Z) (path : string)
    (v : Z) (new : ACL) (node : ref) (obj : Node) :
  handle ∈ dom (sessions (zk w)) →
  ZooKeeper._traverse path w = (Return (node, obj), w) →
  (v ≠ aversion obj →
   ZooKeeper.set_acl handle path v new w =
     (Raise (BadVersionException "bad version"), w)) ∧
  (v = aversion obj →
   ∃ w', ZooKeeper.set_acl handle path v new w = (Return tt, w') ∧
         lookup_pos node (root (zk w')) =
           Some (set_acl_attr new (set_aversion (aversion obj + 1) obj)) ∧
         ZooKeeper.get_acl handle path w' =
           (Return (aversion obj + 1, new), w') ∧
         sessions (zk w') = sessions (zk w) ∧ trace w' = trace w).
Proof.
  intros Hlive Htr. pose proof Htr as Hfound.
  apply traverse_found in Hfound as [-> Hobj].
  unfold ZooKeeper.set_acl, ZooKeeper.get_acl.
  rewrite bind_run, check_handle_live by assumption.
  rewrite bind_run, Htr. split.
  - intros Hv. by rewrite decide_True.
  - intros ->. rewrite decide_False by (intros H; by apply H).
    rewrite bind_run, assign_run, assign_run. simpl.
    rewrite update_at_compose.
    eexists. split; [reflexivity|]. simpl.
    assert (Hnew : lookup_pos (segs path)
              (update_at (segs path)
                 (set_acl_attr new ∘ (λ n, set_aversion (aversion n + 1) n))
                 (root (zk w))) =
              Some (set_acl_attr new (set_aversion (aversion obj + 1) obj))).
    { rewrite lookup_update_at, Hobj. reflexivity. }
    split; [exact Hnew|]. split; [|done].
    rewrite bind_run, check_handle_live by assumption.
    rewrite bind_run, traverse_run. simpl. rewrite Hnew. reflexivity.
Qed.

(** On [/a] of [w_a], whose version is 0, with the stale version 5. *)
Lemma set_acl_versioned_witness :
  0 ∈ dom (sessions (zk w_a)) ∧
  ZooKeeper._traverse "/a" w_a =
    (Return (["a"%string], created "x" acl_bob 0), w_a) ∧
  (5 ≠ aversion (created "x" acl_bob 0) →
   ZooKeeper.set_acl 0 "/a" 5 acl_bob w_a =
     (Raise (BadVersionException "bad version"), w_a)) ∧
  (5 = aversion (created "x" acl_bob 0) →
   ∃ w', ZooKeeper.set_acl 0 "/a" 5 acl_bob w_a = (Return tt, w') ∧
         lookup_pos ["a"%string] (root (zk w')) =
           Some (set_acl_attr acl_bob
                   (set_aversion (aversion (created "x" acl_bob 0) + 1)
                      (created "x" acl_bob 0))) ∧
         ZooKeeper.get_acl 0 "/a" w' =
           (Return (aversion (created "x" acl_bob 0) + 1, acl_bob), w') ∧
         sessions (zk w') = sessions (zk w_a) ∧ trace w' = trace w_a).
Proof.
  assert (Hlive : 0 ∈ dom (sessions (zk w_a))).
  { apply elem_of_dom. vm_compute. eauto. }
  assert (Htr : ZooKeeper._traverse "/a" w_a =
            (Return (["a"%string], created "x" acl_bob 0), w_a))
    by (vm_compute; reflexivity).
  split; [exact Hlive|]. split; [exact Htr|].
  exact (set_acl_versioned w_a 0 "/a" 5 acl_bob ["a"%string]
           (created "x" acl_bob 0) Hlive Htr).
Defined.

(** ** Creation *)

Lemma update_at_app (p q : ref) (f : Node → Node) (n : Node) :
  update_at (p ++ q) f n = update_at p (update_at q f) n.
Proof.
  revert n. induction p as [|x p IH]; intros n; simpl; [reflexivity|].
  f_equal. apply alter_ext. intros c _. apply IH.
Qed.

Lemma method_run (self : ref) (m : Node → Node * list call) (obj : Node)
    (w : World) :
  lookup_pos self (root (zk w)) = Some obj →
  method self m w =
    (Return tt,
     let z' := set_root (update_at self (λ _, (m obj).1) (root (zk w))) (zk w) in
     mkWorld z' (trace w ++ map (λ c, Called c z') (m obj).2)).
Proof.
  intros Hobj. unfold method. rewrite bind_run. simpl. rewrite Hobj.
  reflexivity.
Qed.

Lemma session_paths_live (handle : Z) (w : World) :
  handle ∈ dom (sessions (zk w)) →
  session_paths handle w =
    (Return (default ∅ (sessions (zk w) !! handle)), w).
Proof.
  intros [paths Hp]%elem_of_dom. unfold session_paths. zk_unfold. simpl.
  by rewrite Hp.
Qed.

(** Every way [create] can go. *)
Lemma create_run (handle : Z) (path data0 : string) (acl0 : ACL) (flags0 : Z)
    (w : World) :
  ZooKeeper.create handle path data0 acl0 flags0 w =
    if decide (handle ∈ dom (sessions (zk w))) then
      match rsplit1 path with
      | None => (Raise (ValueError "need more than 1 value to unpack"), w)
      | Some (base, name) =>
          match lookup_pos (segs base) (root (zk w)) with
          | None => (Raise (NoNodeException "no node"), w)
          | Some obj =>
              if decide (name ∈ dom (children obj))
              then (Raise NodeExistsException, w)
              else
                let z1 := create_zk base name data0 acl0 flags0 (zk w) in
                (Return path,
                 mkWorld (record_ephemeral handle path flags0 z1)
                   (trace w ++
                    map (λ c, Called c z1)
                      (Node.notify CHILD_EVENT CONNECTED_STATE base
                         (child_watchers obj))))
          end
      end
    else (Raise (ZooKeeperException "handle out of range"), w).
Proof.
  unfold ZooKeeper.create.
  destruct (decide (handle ∈ dom (sessions (zk w)))) as [Hlive|Hdead].
  2: { by rewrite bind_run, check_handle_dead. }
  rewrite bind_run, check_handle_live by assumption.
  rewrite bind_run. unfold ZooKeeper.rsplit.
  destruct (rsplit1 path) as [[base name]|]; [|reflexivity].
  change (ret (base, name) w) with (Return (base, name), w).
  cbv beta iota. rewrite bind_run, traverse_run.
  destruct (lookup_pos (segs base) (root (zk w))) as [obj|] eqn:Hobj;
    [|reflexivity].
  cbv beta iota.
  destruct (decide (name ∈ dom (children obj))); [reflexivity|].
  rewrite bind_run, assign_run. cbv beta iota.
  rewrite bind_run, assign_run. cbv beta iota.
  rewrite bind_run, assign_run. cbv beta iota.
  simpl.
  rewrite !update_at_app, !update_at_compose.
  set (F := (update_at [name] (set_flags flags0) ∘ update_at [name] (set_acls acl0)
             ∘ add_child name (Node.__init__ data0 ∅))).
  assert (HF : ∀ m, F m = add_child name (created data0 acl0 flags0) m).
  { intros m. unfold F, add_child, set_children; simpl. f_equal.
    rewrite alter_alter_eq, alter_insert_eq. reflexivity. }
  rewrite bind_run.
  erewrite method_run; cycle 1.
  { simpl. rewrite lookup_update_at, Hobj. reflexivity. }
  simpl. rewrite update_at_compose.
  assert (Hroot : update_at (segs base)
            ((λ _, set_child_watchers [] (F obj)) ∘ F) (root (zk w)) =
          root (create_zk base name data0 acl0 flags0 (zk w))).
  { unfold create_zk; simpl. apply update_at_ext. intros m Hm.
    assert (m = obj) as -> by congruence. simpl. by rewrite HF. }
  rewrite Hroot.
  clear Hroot HF. clearbody F.
  unfold record_ephemeral, create_zk, set_root.
  cbn [connection_string sessions root].
  destruct (decide (Z.land flags0 EPHEMERAL ≠ 0)).
  - rewrite bind_run, bind_run, session_paths_live by assumption.
    reflexivity.
  - reflexivity.
Qed.

Lemma create_links (base name data0 : string) (acl0 : ACL) (flags0 : Z)
    (z : ZooKeeper) (obj : Node) :
  lookup_pos (segs base) (root z) = Some obj →
  lookup_pos (segs base ++ [name])
    (root (create_zk base name data0 acl0 flags0 z)) =
    Some (created data0 acl0 flags0).
Proof.
  intros Hobj. unfold create_zk; simpl.
  rewrite lookup_pos_app, lookup_update_at, Hobj. simpl.
  by rewrite lookup_insert_eq.
Qed.

Lemma record_ephemeral_root (handle : Z) (path : string) (flags0 : Z)
    (z : ZooKeeper) :
  root (record_ephemeral handle path flags0 z) = root z.
Proof. unfold record_ephemeral. by destruct (decide _). Qed.

Lemma record_ephemeral_live (handle : Z) (path : string) (flags0 : Z)
    (z : ZooKeeper) (h : Z) :
  h ∈ dom (sessions z) →
  h ∈ dom (sessions (record_ephemeral handle path flags0 z)).
Proof.
  unfold record_ephemeral. destruct (decide _); [|done]. simpl.
  rewrite dom_insert_L. set_solver.
Qed.

(** A successful [create], taken apart. *)
Lemma create_returns (handle : Z) (path data0 : string) (acl0 : ACL)
    (flags0 : Z) (w w1 : World) (r : string) :
  ZooKeeper.create handle path data0 acl0 flags0 w = (Return r, w1) →
  ∃ base name obj,
    handle ∈ dom (sessions (zk w)) ∧
    rsplit1 path = Some (base, name) ∧
    lookup_pos (segs base) (root (zk w)) = Some obj ∧
    (name ∉ dom (children obj)) ∧
    r = path ∧
    w1 = mkWorld
           (record_ephemeral handle path flags0
              (create_zk base name data0 acl0 flags0 (zk w)))
           (trace w ++
            map (λ c, Called c (create_zk base name data0 acl0 flags0 (zk w)))
              (Node.notify CHILD_EVENT CONNECTED_STATE base
                 (child_watchers obj))).
Proof.
  rewrite create_run.
  destruct (decide (handle ∈ dom (sessions (zk w)))); [|discriminate].
  destruct (rsplit1 path) as [[base name]|]; [|discriminate].
  destruct (lookup_pos (segs base) (root (zk w))) as [obj|] eqn:Hobj;
    [|discriminate].
  destruct (decide (name ∈ dom (children obj))); [discriminate|].
  intros [= <- <-]. exists base, name, obj. done.
Qed.

(** Where a created node is found again: at the position of its path, as
    long as the name after the last slash is not empty. *)
Lemma create_found (handle : Z) (path data0 : string) (acl0 : ACL)
    (flags0 : Z) (w w1 : World) (r base name : string) :
  ZooKeeper.create handle path data0 acl0 flags0 w = (Return r, w1) →
  rsplit1 path = Some (base, name) →
  name ≠ ""%string →
  handle ∈ dom (sessions (zk w1)) ∧
  ZooKeeper._traverse path w1 =
    (Return (segs path, created data0 acl0 flags0), w1).
Proof.
  intros Hc Hr Hname.
  apply create_returns in Hc
    as (base' & name' & obj & Hlive & Hr' & Hobj & Hfree & -> & ->).
  rewrite Hr in Hr'. injection Hr' as <- <-. split.
  - simpl. by apply record_ephemeral_live.
  - rewrite traverse_run. simpl. rewrite record_ephemeral_root.
    rewrite (segs_rsplit1 _ _ _ Hr). unfold nonempty.
    rewrite filter_cons_True by assumption. rewrite filter_nil.
    by rewrite (create_links _ _ _ _ _ _ obj).
Qed.

(** C7.  After a successful [create] of a path whose last component is
    not empty, [get] on the same handle and path returns the data given to
    [create] and [ephemeralOwner] 1 if the flags had the ephemeral bit, 0
    otherwise; it changes nothing. *)
Theorem create_get_roundtrip (handle : Z) (path data0 : string) (acl0 : ACL)
    (flags0 : Z) (w w1 : World) (r base name : string) :
  ZooKeeper.create handle path data0 acl0 flags0 w = (Return r, w1) →
  rsplit1 path = Some (base, name) →
  name ≠ ""%string →
  ZooKeeper.get handle path None w1 =
    (Return (data0, if decide (Z.land flags0 EPHEMERAL ≠ 0) then 1 else 0), w1).
Proof.
  intros Hc Hr Hname.
  destruct (create_found _ _ _ _ _ _ _ _ _ _ Hc Hr Hname) as [Hlive Htr].
  unfold ZooKeeper.get.
  rewrite bind_run, check_handle_live by assumption. cbv beta iota.
  rewrite bind_run, Htr. reflexivity.
Qed.

(** The scenario of the specification: [create(0, "/a", "x", acl)] and
    then [get(0, "/a")]. *)
Lemma create_get_roundtrip_witness :
  ZooKeeper.create 0 "/a" "x" acl_bob 0 w_one = (Return "/a"%string, w_a) ∧
  rsplit1 "/a" = Some (""%string, "a"%string) ∧
  "a"%string ≠ ""%string ∧
  ZooKeeper.get 0 "/a" None w_a =
    (Return ("x"%string, if decide (Z.land 0 EPHEMERAL ≠ 0) then 1 else 0), w_a).
Proof.
  assert (Hc : ZooKeeper.create 0 "/a" "x" acl_bob 0 w_one
               = (Return "/a"%string, w_a)) by (vm_compute; reflexivity).
  split; [exact Hc|]. split; [reflexivity|]. split; [discriminate|].
  apply (create_get_roundtrip 0 "/a" "x" acl_bob 0 w_one w_a "/a" "" "a").
  - exact Hc.
  - reflexivity.
  - discriminate.
Defined.

(** Why the last component must not be empty: [create(0, '/a/', ...)]
    links a child of [/a] whose name is the empty string, and [get] on
    [/a/] skips that name and reads [/a]. *)
Example create_trailing_slash :
  ZooKeeper.create 0 "/a/" "z" acl_bob 0 w_a =
    (Return "/a/"%string, after (ZooKeeper.create 0 "/a/" "z" acl_bob 0 w_a)) ∧
  (ZooKeeper.get 0 "/a/" None
     (after (ZooKeeper.create 0 "/a/" "z" acl_bob 0 w_a))).1
    = Return ("x"%string, 0).
Proof. split; vm_compute; reflexivity. Qed.

(** After a successful [create], [get_acl] reports version 0 and the class
    default [OPEN_ACL_UNSAFE], whatever ACL was passed: [create] stores its
    argument under the attribute [acls], which nothing reads. *)
Lemma create_get_acl_default (handle : Z) (path data0 : string) (acl0 : ACL)
    (flags0 : Z) (w w1 : World) (r base name : string) :
  ZooKeeper.create handle path data0 acl0 flags0 w = (Return r, w1) →
  rsplit1 path = Some (base, name) →
  name ≠ ""%string →
  ZooKeeper.get_acl handle path w1 = (Return (0, OPEN_ACL_UNSAFE), w1).
Proof.
  intros Hc Hr Hname.
  destruct (create_found _ _ _ _ _ _ _ _ _ _ Hc Hr Hname) as [Hlive Htr].
  unfold ZooKeeper.get_acl.
  rewrite bind_run, check_handle_live by assumption. cbv beta iota.
  rewrite bind_run, Htr. reflexivity.
Qed.

(** C4 at a failing input: session 0 creates [/a] with the ACL [acl_bob];
    the node keeps it under [acls], its [acl] is still the class default,
    and [get_acl] returns the default and not [acl_bob]. *)
Theorem create_acl_not_returned :
  ZooKeeper.create 0 "/a" "x" acl_bob 0 w_one = (Return "/a"%string, w_a) ∧
  ZooKeeper.get_acl 0 "/a" w_a = (Return (0, OPEN_ACL_UNSAFE), w_a) ∧
  acls <$> lookup_pos ["a"%string] (root (zk w_a)) = Some (Some acl_bob) ∧
  acl <$> lookup_pos ["a"%string] (root (zk w_a)) = Some OPEN_ACL_UNSAFE ∧
  acl_bob ≠ OPEN_ACL_UNSAFE.
Proof.
  split; [vm_compute; reflexivity|].
  split; [vm_compute; reflexivity|].
  split; [vm_compute; reflexivity|].
  split; [vm_compute; reflexivity|].
  discriminate.
Qed.

(** ** Deletion *)

Lemma method_run_at (self : ref) (m : Node → Node * list call) (obj : Node)
    (w : World) :
  lookup_pos self (root (zk w)) = Some obj →
  method self m w =
    (Return tt,
     let z' := set_root (update_at self (λ n, (m n).1) (root (zk w))) (zk w) in
     mkWorld z' (trace w ++ map (λ c, Called c z') (m obj).2)).
Proof.
  intros Hobj. rewrite (method_run _ _ obj) by assumption.
  assert (Heq : update_at self (λ _, (m obj).1) (root (zk w)) =
                update_at self (λ n, (m n).1) (root (zk w))).
  { apply update_at_ext. intros n Hn. congruence. }
  simpl. rewrite Heq. reflexivity.
Qed.

(** Every way [delete] can go. *)
Lemma delete_run (handle : Z) (path : string) (w : World) :
  ZooKeeper.delete handle path w =
    if decide (handle ∈ dom (sessions (zk w))) then
      match lookup_pos (segs path) (root (zk w)) with
      | None => (Raise (NoNodeException "no node"), w)
      | Some obj =>
          match rsplit1 path with
          | None => (Raise (ValueError "need more than 1 value to unpack"), w)
          | Some (base, name) =>
              match lookup_pos (segs base) (root (zk w)) with
              | None => (Raise (NoNodeException "no node"), w)
              | Some bobj =>
                  if decide (name ∈ dom (children bobj)) then
                    let z1 := delete_zk1 path base name (zk w) in
                    let z2 := delete_zk2 path base name (zk w) in
                    (Return tt,
                     mkWorld (forget_ephemeral handle path z2)
                       (trace w ++
                        map (λ c, Called c z1) (deleted_calls path obj) ++
                        map (λ c, Called c z2)
                          (Node.notify CHILD_EVENT CONNECTED_STATE base
                             (child_watchers bobj))))
                  else (Raise (KeyError (KStr name)), w)
              end
          end
      end
    else (Raise (ZooKeeperException "handle out of range"), w).
Proof.
  unfold ZooKeeper.delete.
  destruct (decide (handle ∈ dom (sessions (zk w)))) as [Hlive|Hdead].
  2: { by rewrite bind_run, check_handle_dead. }
  rewrite bind_run, check_handle_live by assumption. cbv beta iota.
  rewrite bind_run, traverse_run.
  destruct (lookup_pos (segs path) (root (zk w))) as [obj|] eqn:Hobj;
    [|reflexivity].
  cbv beta iota. rewrite bind_run. unfold ZooKeeper.rsplit.
  destruct (rsplit1 path) as [[base name]|] eqn:Hr; [|reflexivity].
  change (ret (base, name) w) with (Return (base, name), w).
  cbv beta iota. rewrite bind_run, traverse_run.
  destruct (lookup_pos (segs base) (root (zk w))) as [bobj|] eqn:Hbobj;
    [|reflexivity].
  cbv beta iota.
  destruct (decide (name ∈ dom (children bobj))); [|reflexivity].
  rewrite bind_run, assign_run. cbv beta iota.
  fold (unlinked base name (zk w)).
  assert (Hb1 : lookup_pos (segs base) (root (unlinked base name (zk w))) =
                Some (del_child name bobj)).
  { unfold unlinked; simpl. by rewrite lookup_update_at, Hbobj. }
  rewrite bind_run. unfold delete_zk2, delete_zk1.
  destruct (decide (segs path = segs base)) as [Halias|Hother].
  - assert (obj = bobj) as -> by congruence.
    rewrite Halias.
    rewrite (method_run_at _ _ (del_child name bobj)) by exact Hb1.
    cbv beta iota zeta.
    change (λ n0 : Node, (Node.deleted handle CONNECTED_STATE path n0).1)
      with (set_watchers []).
    change ((Node.deleted handle CONNECTED_STATE path (del_child name bobj)).2)
      with (deleted_calls path bobj).
    cbn [zk trace].
    set (z1 := set_root _ (unlinked base name (zk w))).
    assert (Hb2 : lookup_pos (segs base) (root z1) =
                  Some (set_watchers [] (del_child name bobj))).
    { unfold z1. cbn [root set_root]. by rewrite lookup_update_at, Hb1. }
    rewrite bind_run.
    rewrite (method_run_at _ _ (set_watchers [] (del_child name bobj)))
      by exact Hb2.
    cbv beta iota zeta. cbn [zk trace].
    change (λ n0 : Node,
              (Node.children_changed handle CONNECTED_STATE base n0).1)
      with (set_child_watchers []).
    change ((Node.children_changed handle CONNECTED_STATE base
               (set_watchers [] (del_child name bobj))).2)
      with (Node.notify CHILD_EVENT CONNECTED_STATE base (child_watchers bobj)).
    set (z2 := set_root _ z1).
    rewrite bind_run, session_paths_live by exact Hlive.
    cbv beta iota. unfold forget_ephemeral. cbn [zk].
    rewrite <- app_assoc.
    destruct (decide (path ∈ default ∅ (sessions z2 !! handle)));
      reflexivity.
  - unfold detached, invoke. rewrite bind_run. cbv beta iota. cbn [zk trace].
    change ((Node.deleted handle CONNECTED_STATE path obj).2)
      with (deleted_calls path obj).
    rewrite (method_run_at _ _ (del_child name bobj)) by exact Hb1.
    cbv beta iota zeta. cbn [zk trace].
    change (λ n0 : Node,
              (Node.children_changed handle CONNECTED_STATE base n0).1)
      with (set_child_watchers []).
    change ((Node.children_changed handle CONNECTED_STATE base
               (del_child name bobj)).2)
      with (Node.notify CHILD_EVENT CONNECTED_STATE base (child_watchers bobj)).
    set (z2 := set_root _ (unlinked base name (zk w))).
    rewrite bind_run, session_paths_live by exact Hlive.
    cbv beta iota. unfold forget_ephemeral. cbn [zk].
    rewrite <- app_assoc.
    destruct (decide (path ∈ default ∅ (sessions z2 !! handle)));
      reflexivity.
Qed.

Lemma link_absent_update (B : ref) (name : string) (g : Node → Node)
    (r : Node) :
  (∀ m, children (g m) !! name = None) →
  lookup_pos (B ++ [name]) (update_at B g r) = None.
Proof.
  intros Hg. rewrite lookup_pos_app, lookup_update_at.
  destruct (lookup_pos B r) as [m|]; simpl; [|reflexivity].
  by rewrite Hg.
Qed.

Lemma delete_zk1_absent (path base name : string) (z : ZooKeeper) :
  lookup_pos (segs base ++ [name]) (root (delete_zk1 path base name z)) = None.
Proof.
  unfold delete_zk1, unlinked.
  destruct (decide (segs path = segs base)); cbn [root set_root].
  - rewrite update_at_compose. apply link_absent_update.
    intros m. simpl. apply lookup_delete_eq.
  - apply link_absent_update. intros m. simpl. apply lookup_delete_eq.
Qed.

Lemma delete_zk2_absent (path base name : string) (z : ZooKeeper) :
  lookup_pos (segs base ++ [name]) (root (delete_zk2 path base name z)) = None.
Proof.
  unfold delete_zk2, delete_zk1, unlinked.
  destruct (decide (segs path = segs base)); cbn [root set_root].
  - rewrite !update_at_compose. apply link_absent_update.
    intros m. simpl. apply lookup_delete_eq.
  - rewrite !update_at_compose. apply link_absent_update.
    intros m. simpl. apply lookup_delete_eq.
Qed.

Lemma forget_ephemeral_root (handle : Z) (path : string) (z : ZooKeeper) :
  root (forget_ephemeral handle path z) = root z.
Proof. unfold forget_ephemeral. by destruct (decide _). Qed.

(** A successful [delete], taken apart. *)
Lemma delete_returns (handle : Z) (path : string) (w w' : World) :
  ZooKeeper.delete handle path w = (Return tt, w') →
  ∃ base name obj bobj,
    handle ∈ dom (sessions (zk w)) ∧
    lookup_pos (segs path) (root (zk w)) = Some obj ∧
    rsplit1 path = Some (base, name) ∧
    lookup_pos (segs base) (root (zk w)) = Some bobj ∧
    name ∈ dom (children bobj) ∧
    w' = mkWorld
           (forget_ephemeral handle path (delete_zk2 path base name (zk w)))
           (trace w ++
            map (λ c, Called c (delete_zk1 path base name (zk w)))
              (deleted_calls path obj) ++
            map (λ c, Called c (delete_zk2 path base name (zk w)))
              (Node.notify CHILD_EVENT CONNECTED_STATE base
                 (child_watchers bobj))).
Proof.
  rewrite delete_run.
  destruct (decide (handle ∈ dom (sessions (zk w)))); [|discriminate].
  destruct (lookup_pos (segs path) (root (zk w))) as [obj|]; [|discriminate].
  destruct (rsplit1 path) as [[base name]|]; [|discriminate].
  destruct (lookup_pos (segs base) (root (zk w))) as [bobj|] eqn:Hbobj;
    [|discriminate].
  destruct (decide (name ∈ dom (children bobj))); [|discriminate].
  cbv zeta. intros [= <-]. exists base, name, obj, bobj. done.
Qed.

(** C3, as stated, fails: when the deleted-callbacks of [/a] are invoked,
    [/a] is no longer linked. *)
Lemma deleted_callbacks_find_node_unlinked :
  raised (ZooKeeper.delete 0 "/a" w_watched) = false ∧
  is_Some (lookup_pos ["a"%string] (root (zk w_watched))) ∧
  trace w_watched = [] ∧
  calls (trace (after (ZooKeeper.delete 0 "/a" w_watched))) =
    [Call 5%nat 0 DELETED_EVENT CONNECTED_STATE "/a";
     Call 6%nat 0 DELETED_EVENT CONNECTED_STATE "/a"] ∧
  seen_linked ["a"%string] <$> trace (after (ZooKeeper.delete 0 "/a" w_watched))
    = [false; false].
Proof.
  split; [vm_compute; reflexivity|].
  split; [vm_compute; eauto|].
  split; [vm_compute; reflexivity|].
  split; vm_compute; reflexivity.
Qed.

(** The object at the parent's position stays linked through both
    notification steps of [delete]. *)
Lemma delete_zk1_parent (path base name : string) (z : ZooKeeper) :
  is_Some (lookup_pos (segs base) (root z)) →
  is_Some (lookup_pos (segs base) (root (delete_zk1 path base name z))).
Proof.
  intros [b Hb]. unfold delete_zk1, unlinked.
  destruct (decide (segs path = segs base)); cbn [root set_root];
    rewrite ?lookup_update_at, Hb; simpl; eauto.
Qed.

Lemma delete_zk2_parent (path base name : string) (z : ZooKeeper) :
  is_Some (lookup_pos (segs base) (root z)) →
  is_Some (lookup_pos (segs base) (root (delete_zk2 path base name z))).
Proof.
  intros Hb. apply (delete_zk1_parent path base name) in Hb as [b Hb].
  unfold delete_zk2. cbn [root set_root].
  rewrite lookup_update_at, Hb. simpl. eauto.
Qed.

(** C3, amended.  A successful [delete] first removes the entry [name] from
    the children of the parent ([del bnode.children[name]]); then the data
    watchers and, after them, the child watchers of the object the path
    resolves to are invoked with the deleted event kind; only afterwards the
    parent's child watchers are invoked with the child event kind.  When the
    name after the last slash is not empty, the object the path resolves to
    is the removed child, which is out of the tree whenever a callback runs
    and afterwards.  When the path ends in a slash, the path resolves to the
    parent itself: the watchers invoked with the deleted event kind are the
    parent's, and the parent is in the tree whenever a callback runs and
    afterwards; what has left the tree is its child named by the empty
    string. *)
Theorem delete_notifies (handle : Z) (path base name : string)
    (w w' : World) (node bnode : ref) (obj bobj : Node) :
  ZooKeeper.delete handle path w = (Return tt, w') →
  ZooKeeper._traverse path w = (Return (node, obj), w) →
  rsplit1 path = Some (base, name) →
  ZooKeeper._traverse base w = (Return (bnode, bobj), w) →
  is_Some (lookup_pos (bnode ++ [name]) (root (zk w))) ∧
  ∃ z1 z2,
    trace w' =
      trace w ++
      map (λ c, Called c z1)
        (Node.notify DELETED_EVENT CONNECTED_STATE path (watchers obj) ++
         Node.notify DELETED_EVENT CONNECTED_STATE path (child_watchers obj)) ++
      map (λ c, Called c z2)
        (Node.notify CHILD_EVENT CONNECTED_STATE base (child_watchers bobj)) ∧
    lookup_pos (bnode ++ [name]) (root z1) = None ∧
    lookup_pos (bnode ++ [name]) (root z2) = None ∧
    lookup_pos (bnode ++ [name]) (root (zk w')) = None ∧
    (name ≠ ""%string →
       node = bnode ++ [name] ∧
       lookup_pos node (root z1) = None ∧
       lookup_pos node (root z2) = None ∧
       lookup_pos node (root (zk w')) = None) ∧
    (name = ""%string →
       node = bnode ∧ obj = bobj ∧
       is_Some (lookup_pos node (root z1)) ∧
       is_Some (lookup_pos node (root z2)) ∧
       is_Some (lookup_pos node (root (zk w')))).
Proof.
  intros Hd Hp Hr Hb.
  apply traverse_found in Hp as [-> Hobj].
  apply traverse_found in Hb as [-> Hbobj].
  apply delete_returns in Hd
    as (base' & name' & obj' & bobj' & Hlive & Hobj' & Hr' & Hbobj' & Hin & ->).
  rewrite Hr in Hr'. injection Hr' as <- <-.
  assert (obj' = obj) as -> by congruence.
  assert (bobj' = bobj) as -> by congruence.
  split.
  - rewrite lookup_pos_app, Hbobj. simpl.
    apply elem_of_dom in Hin as [c Hc]. rewrite Hc. eauto.
  - exists (delete_zk1 path base name (zk w)),
           (delete_zk2 path base name (zk w)).
    cbn [zk]. rewrite forget_ephemeral_root.
    split; [reflexivity|].
    split; [apply delete_zk1_absent|].
    split; [apply delete_zk2_absent|].
    split; [apply delete_zk2_absent|].
    split.
    + intros Hname.
      assert (Hsegs : segs path = segs base ++ [name]).
      { rewrite (segs_rsplit1 _ _ _ Hr).
        change (nonempty [name])
          with (filter (λ s : string, s ≠ ""%string) [name]).
        rewrite filter_cons, filter_nil. by rewrite decide_True. }
      rewrite Hsegs.
      split; [reflexivity|].
      split; [apply delete_zk1_absent|].
      split; apply delete_zk2_absent.
    + intros Hname.
      assert (Hsegs : segs path = segs base)
        by (by apply (same_object_iff path base name)).
      rewrite Hsegs.
      split; [reflexivity|]. split; [congruence|].
      assert (Hlinked : is_Some (lookup_pos (segs base) (root (zk w))))
        by eauto.
      split; [by apply delete_zk1_parent|].
      split; by apply delete_zk2_parent.
Qed.

(** Deleting [/a] with one data watch and one child watch on it. *)
Lemma delete_notifies_witness :
  ZooKeeper.delete 0 "/a" w_watched =
    (Return tt, after (ZooKeeper.delete 0 "/a" w_watched)) ∧
  ZooKeeper._traverse "/a" w_watched =
    (Return (["a"%string],
             set_child_watchers [(0, 6%nat)]
               (set_watchers [(0, 5%nat)] (created "x" acl_bob 0))),
     w_watched) ∧
  rsplit1 "/a" = Some (""%string, "a"%string) ∧
  ZooKeeper._traverse "" w_watched =
    (Return ([], root (zk w_watched)), w_watched) ∧
  is_Some (lookup_pos ([] ++ ["a"%string]) (root (zk w_watched))) ∧
  ∃ z1 z2,
    trace (after (ZooKeeper.delete 0 "/a" w_watched)) =
      trace w_watched ++
      map (λ c, Called c z1)
        (Node.notify DELETED_EVENT CONNECTED_STATE "/a" [(0, 5%nat)] ++
         Node.notify DELETED_EVENT CONNECTED_STATE "/a" [(0, 6%nat)]) ++
      map (λ c, Called c z2)
        (Node.notify CHILD_EVENT CONNECTED_STATE ""
           (child_watchers (root (zk w_watched)))) ∧
    lookup_pos ([] ++ ["a"%string]) (root z1) = None ∧
    lookup_pos ([] ++ ["a"%string]) (root z2) = None ∧
    lookup_pos ([] ++ ["a"%string])
      (root (zk (after (ZooKeeper.delete 0 "/a" w_watched)))) = None ∧
    ("a"%string ≠ ""%string →
       ["a"%string] = [] ++ ["a"%string] ∧
       lookup_pos ["a"%string] (root z1) = None ∧
       lookup_pos ["a"%string] (root z2) = None ∧
       lookup_pos ["a"%string]
         (root (zk (after (ZooKeeper.delete 0 "/a" w_watched)))) = None) ∧
    ("a"%string = ""%string →
       ["a"%string] = [] ∧
       set_child_watchers [(0, 6%nat)]
         (set_watchers [(0, 5%nat)] (created "x" acl_bob 0))
         = root (zk w_watched) ∧
       is_Some (lookup_pos ["a"%string] (root z1)) ∧
       is_Some (lookup_pos ["a"%string] (root z2)) ∧
       is_Some (lookup_pos ["a"%string]
                  (root (zk (after (ZooKeeper.delete 0 "/a" w_watched)))))).
Proof.
  assert (Hd : ZooKeeper.delete 0 "/a" w_watched =
            (Return tt, after (ZooKeeper.delete 0 "/a" w_watched)))
    by (vm_compute; reflexivity).
  assert (Hp : ZooKeeper._traverse "/a" w_watched =
            (Return (["a"%string],
                     set_child_watchers [(0, 6%nat)]
                       (set_watchers [(0, 5%nat)] (created "x" acl_bob 0))),
             w_watched)) by (vm_compute; reflexivity).
  assert (Hb : ZooKeeper._traverse "" w_watched =
            (Return ([], root (zk w_watched)), w_watched))
    by (vm_compute; reflexivity).
  split; [exact Hd|]. split; [exact Hp|]. split; [reflexivity|].
  split; [exact Hb|].
  exact (delete_notifies 0 "/a" "" "a" w_watched _ _ _ _ _
           Hd Hp eq_refl Hb).
Defined.

(** The path [/] on a tree whose root has a child named by the empty
    string: [delete] succeeds, the callback invoked with the deleted event
    kind is the root's child watcher, and the root is in the tree when it
    runs. *)
Example delete_slash_notifies_parent :
  raised (ZooKeeper.delete 0 "/" w_slash) = false ∧
  (ZooKeeper._traverse "/" w_slash).1 = Return ([], root (zk w_slash)) ∧
  child_watchers (root (zk w_slash)) = [(0, 5%nat)] ∧
  calls (trace (after (ZooKeeper.delete 0 "/" w_slash))) =
    calls (trace w_slash) ++
    [Call 5%nat 0 DELETED_EVENT CONNECTED_STATE "/";
     Call 5%nat 0 CHILD_EVENT CONNECTED_STATE ""] ∧
  seen_linked [] <$> trace (after (ZooKeeper.delete 0 "/" w_slash)) =
    (seen_linked [] <$> trace w_slash) ++ [true; true] ∧
  is_Some (lookup_pos [""%string] (root (zk w_slash))) ∧
  lookup_pos [""%string] (root (zk (after (ZooKeeper.delete 0 "/" w_slash))))
    = None.
Proof.
  split; [vm_compute; reflexivity|].
  split; [vm_compute; reflexivity|].
  split; [vm_compute; reflexivity|].
  split; [vm_compute; reflexivity|].
  split; [vm_compute; reflexivity|].
  split; [vm_compute; eauto|].
  vm_compute; reflexivity.
Qed.

(** ** One-shot delivery *)

(** [Node.changed] and [Node.children_changed] empty the set they
    deliver, and invoke each registration of it once. *)
Lemma changed_drains (handle state : Z) (path : string) (self : Node) :
  watchers (Node.changed handle state path self).1 = [] ∧
  (Node.changed handle state path self).2 =
    Node.notify CHANGED_EVENT state path (watchers self).
Proof. split; reflexivity. Qed.

Lemma children_changed_drains (handle state : Z) (path : string)
    (self : Node) :
  child_watchers (Node.children_changed handle state path self).1 = [] ∧
  (Node.children_changed handle state path self).2 =
    Node.notify CHILD_EVENT state path (child_watchers self).
Proof. split; reflexivity. Qed.

(** The scenario of the specification: a data watch on [/a] is invoked
    once by the first [set], with the changed event kind, and not by the
    second. *)
Example set_fires_data_watch_once :
  calls (trace (after (ZooKeeper.set 0 "/a" "y" w_watched))) =
    [Call 5%nat 0 CHANGED_EVENT CONNECTED_STATE "/a"] ∧
  calls (trace (after ((ZooKeeper.set 0 "/a" "y" ;;
                        ZooKeeper.set 0 "/a" "z") w_watched))) =
    [Call 5%nat 0 CHANGED_EVENT CONNECTED_STATE "/a"].
Proof. split; vm_compute; reflexivity. Qed.

(** [Node.deleted] leaves [child_watchers] as it found it. *)
Lemma deleted_keeps_child_watchers (handle state : Z) (path : string)
    (self : Node) :
  child_watchers (Node.deleted handle state path self).1 = child_watchers self ∧
  watchers (Node.deleted handle state path self).1 = [].
Proof. split; reflexivity. Qed.

(** C2 at a failing input: callback 5 is registered once, as a child
    watcher of the root; [delete(0, '/')] then invokes it twice, first from
    [Node.deleted], which does not empty [child_watchers], and again from
    [Node.children_changed] on the same node. *)
Theorem child_watcher_fires_twice :
  child_watchers (root (zk w_slash)) = [(0, 5%nat)] ∧
  calls (trace w_slash) = [] ∧
  raised (ZooKeeper.delete 0 "/" w_slash) = false ∧
  calls (trace (after (ZooKeeper.delete 0 "/" w_slash))) =
    [Call 5%nat 0 DELETED_EVENT CONNECTED_STATE "/";
     Call 5%nat 0 CHILD_EVENT CONNECTED_STATE ""] ∧
  child_watchers
    (Node.deleted 0 CONNECTED_STATE "/" (root (zk w_slash))).1 = [(0, 5%nat)].
Proof.
  split; [vm_compute; reflexivity|].
  split; [vm_compute; reflexivity|].
  split; [vm_compute; reflexivity|].
  split; vm_compute; reflexivity.
Qed.

(** ** Failure and partial effects *)

Lemma returning_fails_clean {A} (f : A → value) (m : M A) :
  fails_clean m → fails_clean (returning f m).
Proof.
  intros Hm w e w'. unfold returning. rewrite bind_run.
  destruct (m w) as [[a|e0] w0] eqn:Hmw.
  - discriminate.
  - intros [= <- <-]. by apply (Hm w e0).
Qed.

Lemma init_fails_clean (addr : string) (watch : option callback) :
  fails_clean (ZooKeeper.init addr watch).
Proof. intros w e w'. rewrite init_run. discriminate. Qed.

Lemma state_fails_clean (handle : Z) : fails_clean (ZooKeeper.state handle).
Proof.
  intros w e w'. unfold ZooKeeper.state.
  destruct (decide (handle ∈ dom (sessions (zk w)))).
  - rewrite bind_run, check_handle_live by assumption. discriminate.
  - rewrite bind_run, check_handle_dead by assumption. by intros [= <- <-].
Qed.

Lemma create_fails_clean (handle : Z) (path data0 : string) (acl0 : ACL)
    (flags0 : Z) :
  fails_clean (ZooKeeper.create handle path data0 acl0 flags0).
Proof.
  intros w e w'. rewrite create_run.
  repeat match goal with
         | |- context [decide ?P] => destruct (decide P)
         | |- context [match ?x with _ => _ end] => destruct x
         end; cbv zeta; first [discriminate | by intros [= <- <-]].
Qed.

Lemma delete_fails_clean (handle : Z) (path : string) :
  fails_clean (ZooKeeper.delete handle path).
Proof.
  intros w e w'. rewrite delete_run.
  repeat match goal with
         | |- context [decide ?P] => destruct (decide P)
         | |- context [match ?x with _ => _ end] => destruct x
         end; cbv zeta; first [discriminate | by intros [= <- <-]].
Qed.

(** The common opening [self._check_handle(handle); node =
    self._traverse(path)]: it raises without any effect, or goes on with
    the node found. *)
Lemma open_fails_clean {A} (handle : Z) (path : string)
    (k : ref * Node → M A) :
  (∀ r, fails_clean (k r)) →
  fails_clean (ZooKeeper._check_handle handle ;; r ← ZooKeeper._traverse path; k r).
Proof.
  intros Hk w e w'.
  destruct (decide (handle ∈ dom (sessions (zk w)))).
  - rewrite bind_run, check_handle_live by assumption. cbv beta iota.
    rewrite bind_run, traverse_run.
    destruct (lookup_pos (segs path) (root (zk w))) as [obj|].
    + apply Hk.
    + by intros [= <- <-].
  - rewrite bind_run, check_handle_dead by assumption. by intros [= <- <-].
Qed.

Lemma exists_fails_clean (handle : Z) (path : string) :
  fails_clean (ZooKeeper.exists_ handle path).
Proof.
  intros w e w'. unfold ZooKeeper.exists_.
  destruct (decide (handle ∈ dom (sessions (zk w)))).
  - rewrite bind_run, check_handle_live by assumption. cbv beta iota.
    unfold try_except. rewrite bind_run, traverse_run.
    destruct (lookup_pos (segs path) (root (zk w))); discriminate.
  - rewrite bind_run, check_handle_dead by assumption. by intros [= <- <-].
Qed.

Lemma get_children_fails_clean (handle : Z) (path : string)
    (watch : option callback) :
  fails_clean (ZooKeeper.get_children handle path watch).
Proof.
  apply open_fails_clean. intros [node obj] w e w'.
  destruct watch; discriminate.
Qed.

Lemma get_fails_clean (handle : Z) (path : string) (watch : option callback) :
  fails_clean (ZooKeeper.get handle path watch).
Proof.
  apply open_fails_clean. intros [node obj] w e w'.
  destruct watch; discriminate.
Qed.

Lemma set_fails_clean (handle : Z) (path data0 : string) :
  fails_clean (ZooKeeper.set handle path data0).
Proof.
  apply open_fails_clean. intros [node obj] w e w'.
  rewrite bind_run, assign_run. cbv beta iota.
  unfold method. rewrite bind_run. cbn [get_zk zk].
  destruct (lookup_pos node _); discriminate.
Qed.

Lemma get_acl_fails_clean (handle : Z) (path : string) :
  fails_clean (ZooKeeper.get_acl handle path).
Proof.
  apply open_fails_clean. intros [node obj] w e w'. discriminate.
Qed.

Lemma set_acl_fails_clean (handle : Z) (path : string) (aversion0 : Z)
    (acl0 : ACL) :
  fails_clean (ZooKeeper.set_acl handle path aversion0 acl0).
Proof.
  apply open_fails_clean. intros [node obj] w e w'.
  destruct (decide (aversion0 ≠ aversion obj)).
  - by intros [= <- <-].
  - discriminate.
Qed.

(** C6, as stated, fails for [close]: on [w_alias] the set of session 0
    holds two spellings of one node, so in either order of enumeration the
    first deletion removes the node and the second raises "no node"; the
    node is gone, one path has left the set, and the session is still
    registered. *)
Lemma close_fails_midway :
  (perform elements (op_close 0) w_alias).1 = Raise (NoNodeException "no node") ∧
  (perform (reverse ∘ elements) (op_close 0) w_alias).1
    = Raise (NoNodeException "no node") ∧
  is_Some (lookup_pos ["a"%string] (root (zk w_alias))) ∧
  lookup_pos ["a"%string]
    (root (zk (after (perform elements (op_close 0) w_alias)))) = None ∧
  lookup_pos ["a"%string]
    (root (zk (after (perform (reverse ∘ elements) (op_close 0) w_alias))))
    = None ∧
  size (default ∅ (sessions (zk w_alias) !! 0)) = 2%nat ∧
  size (default ∅
          (sessions (zk (after (perform elements (op_close 0) w_alias))) !! 0))
    = 1%nat.
Proof.
  split; [vm_compute; reflexivity|].
  split; [vm_compute; reflexivity|].
  split; [vm_compute; eauto|].
  split; [vm_compute; reflexivity|].
  split; [vm_compute; reflexivity|].
  split; vm_compute; reflexivity.
Qed.

(** With callbacks that return normally, every operation of the facade
    other than [close] is atomic with respect to failure: when it raises,
    the tree, the session table, every watcher set and the trace of
    notifications are exactly as before the operation. *)
Lemma failure_is_atomic (set_list : gset string → list string)
    (o : operation) (w w' : World) (e : exn) :
  is_close o = false →
  perform set_list o w = (Raise e, w') →
  w' = w.
Proof.
  intros Hclose.
  assert (Hclean : fails_clean (perform set_list o)).
  { destruct o; try discriminate Hclose; simpl; apply returning_fails_clean.
    - apply init_fails_clean.
    - apply state_fails_clean.
    - apply create_fails_clean.
    - apply delete_fails_clean.
    - apply exists_fails_clean.
    - apply get_children_fails_clean.
    - apply get_fails_clean.
    - apply set_fails_clean.
    - apply get_acl_fails_clean.
    - apply set_acl_fails_clean. }
  apply Hclean.
Qed.

(** ** Callbacks that raise *)

Section callbacks.
Variable beh : behaviour.

(** As long as the callbacks return, the loop over them is the one of
    [invoke]. *)
Lemma invoke_agrees (cs : list call) (w : World) :
  return_normally beh cs →
  Callbacks.invoke beh cs w = invoke cs w.
Proof.
  revert w. induction cs as [|c cs IH]; intros w Hcs.
  - unfold invoke. simpl. rewrite app_nil_r. by destruct w.
  - simpl. rewrite (Hcs w c) by apply list_elem_of_here.
    rewrite IH by (intros w0 c0 Hc0; apply Hcs; by apply list_elem_of_further).
    unfold invoke. cbn [zk trace]. by rewrite <- app_assoc.
Qed.

(** The loop over the callbacks leaves the emulator alone; when it raises,
    a callback has just raised. *)
Lemma invoke_outcome (cs : list call) (w : World) :
  (∃ w', Callbacks.invoke beh cs w = (Return tt, w') ∧ zk w' = zk w) ∨
  (∃ e w', Callbacks.invoke beh cs w = (Raise e, w') ∧
           raised_by_callback beh e w' ∧ zk w' = zk w).
Proof.
  revert w. induction cs as [|c cs IH]; intros w.
  - left. exists w. done.
  - simpl. destruct (beh w c) as [e|] eqn:Hc.
    + right. eexists e, _. split; [reflexivity|]. split; [|reflexivity].
      exists w, c. done.
    + destruct (IH (mkWorld (zk w) (trace w ++ [Called c (zk w)])))
        as [(w' & Hw' & Hz)|(e & w' & Hw' & Hcb & Hz)].
      * left. exists w'. done.
      * right. exists e, w'. done.
Qed.

Lemma method_agrees (self : ref) (m : Node → Node * list call) (w : World) :
  (∀ obj, lookup_pos self (root (zk w)) = Some obj →
          return_normally beh (m obj).2) →
  Callbacks.method beh self m w = method self m w.
Proof.
  intros Hm. unfold Callbacks.method, method.
  rewrite !bind_run. cbn [get_zk zk].
  destruct (lookup_pos self (root (zk w))) as [obj|]; [|reflexivity].
  rewrite !bind_run, assign_run. cbv beta iota.
  apply invoke_agrees. by apply Hm.
Qed.

Lemma method_outcome (self : ref) (m : Node → Node * list call) (w : World) :
  (∃ w', Callbacks.method beh self m w = (Return tt, w') ∧
         sessions (zk w') = sessions (zk w)) ∨
  (∃ e w', Callbacks.method beh self m w = (Raise e, w') ∧
           raised_by_callback beh e w').
Proof.
  unfold Callbacks.method. rewrite bind_run. cbn [get_zk zk].
  destruct (lookup_pos self (root (zk w))) as [obj|].
  - rewrite bind_run, assign_run. cbv beta iota.
    match goal with
    | |- context [Callbacks.invoke beh ?cs ?w1] =>
        destruct (invoke_outcome cs w1)
          as [(w' & Hw' & Hz)|(e & w' & Hw' & Hcb & Hz)]
    end.
    + left. exists w'. split; [exact Hw'|]. by rewrite Hz.
    + right. exists e, w'. done.
  - left. exists w. done.
Qed.

Lemma fails_clean_in_callback {A} (m : M A) :
  fails_clean m → fails_in_callback beh m.
Proof. intros Hm w e w' Hr. left. by apply (Hm w e). Qed.

Lemma returning_fails_in_callback {A} (f : A → value) (m : M A) :
  fails_in_callback beh m → fails_in_callback beh (returning f m).
Proof.
  intros Hm w e w'. unfold returning. rewrite bind_run.
  destruct (m w) as [[a|e0] w0] eqn:Hmw.
  - discriminate.
  - intros [= <- <-]. by apply (Hm w e0).
Qed.

Lemma init_fails_in_callback (addr : string) (watch : option callback) :
  fails_in_callback beh (Callbacks.init beh addr watch).
Proof.
  intros w e w'. unfold Callbacks.init.
  rewrite bind_run. cbn [get_zk zk]. rewrite bind_run.
  destruct (assert_ (bool_decide (addr = connection_string (zk w))) addr w)
    as [[[]|e0] w1] eqn:Ha.
  2: { unfold assert_ in Ha. destruct (bool_decide _); discriminate. }
  cbv beta iota zeta. rewrite bind_run.
  unfold set_session at 1. rewrite bind_run. cbn [get_zk put_zk zk].
  cbv beta iota.
  destruct watch as [cb|]; [|discriminate].
  match goal with
  | |- context [Callbacks.invoke beh ?cs ?w1] =>
      destruct (invoke_outcome cs w1)
        as [(w2 & Hw2 & Hz)|(e2 & w2 & Hw2 & Hcb & Hz)]
  end; rewrite Hw2.
  - discriminate.
  - intros [= <- <-]. by right.
Qed.

(** [init] registers the session before it invokes the watch callback:
    whatever the callback does, the emulator and the trace end as when it
    returns, and [init] raises only what the callback raises. *)
Lemma init_registers_before_callback (addr : string)
    (watch : option callback) (w : World) :
  (Callbacks.init beh addr watch w).2 = (ZooKeeper.init addr watch w).2 ∧
  ∀ e, (Callbacks.init beh addr watch w).1 = Raise e →
       ∃ cb w0, watch = Some cb ∧
                beh w0 (Call cb (init_handle (zk w)) SESSION_EVENT
                          CONNECTED_STATE "") = Some e.
Proof.
  unfold Callbacks.init, ZooKeeper.init.
  rewrite !bind_run. cbn [get_zk zk]. rewrite !bind_run.
  destruct (assert_ (bool_decide (addr = connection_string (zk w))) addr w)
    as [[[]|e0] w1] eqn:Ha.
  2: { unfold assert_ in Ha. destruct (bool_decide _); discriminate. }
  cbv beta iota zeta. rewrite !bind_run.
  unfold set_session at 1 2. rewrite !bind_run. cbn [get_zk put_zk zk].
  cbv beta iota.
  destruct watch as [cb|]; [|split; [reflexivity|discriminate]].
  unfold invoke. simpl.
  match goal with
  | |- context [beh ?w0 ?c] => destruct (beh w0 c) as [e1|] eqn:Hb
  end; simpl.
  - split; [reflexivity|]. intros e [= <-]. eauto.
  - split; [reflexivity|discriminate].
Qed.

Lemma set_fails_in_callback (handle : Z) (path data0 : string) :
  fails_in_callback beh (Callbacks.set beh handle path data0).
Proof.
  intros w e w'. unfold Callbacks.set.
  destruct (decide (handle ∈ dom (sessions (zk w)))).
  2: { rewrite bind_run, check_handle_dead by assumption.
       intros [= <- <-]. by left. }
  rewrite bind_run, check_handle_live by assumption. cbv beta iota.
  rewrite bind_run, traverse_run.
  destruct (lookup_pos (segs path) (root (zk w))) as [obj|].
  2: { intros [= <- <-]. by left. }
  cbv beta iota. rewrite bind_run, assign_run. cbv beta iota.
  match goal with
  | |- context [Callbacks.method beh ?p ?m ?w1] =>
      destruct (method_outcome p m w1)
        as [(w2 & Hw2 & Hs)|(e2 & w2 & Hw2 & Hcb)]
  end; rewrite Hw2.
  - discriminate.
  - intros [= <- <-]. by right.
Qed.

Lemma create_fails_in_callback (handle : Z) (path data0 : string)
    (acl0 : ACL) (flags0 : Z) :
  fails_in_callback beh (Callbacks.create beh handle path data0 acl0 flags0).
Proof.
  intros w e w'. unfold Callbacks.create.
  destruct (decide (handle ∈ dom (sessions (zk w)))) as [Hlive|Hdead].
  2: { rewrite bind_run, check_handle_dead by assumption.
       intros [= <- <-]. by left. }
  rewrite bind_run, check_handle_live by assumption. cbv beta iota.
  rewrite bind_run. unfold ZooKeeper.rsplit.
  destruct (rsplit1 path) as [[base name]|].
  2: { intros [= <- <-]. by left. }
  change (ret (base, name) w) with (Return (base, name), w).
  cbv beta iota. rewrite bind_run, traverse_run.
  destruct (lookup_pos (segs base) (root (zk w))) as [obj|].
  2: { intros [= <- <-]. by left. }
  cbv beta iota.
  destruct (decide (name ∈ dom (children obj))).
  { intros [= <- <-]. by left. }
  rewrite bind_run, assign_run. cbv beta iota.
  rewrite bind_run, assign_run. cbv beta iota.
  rewrite bind_run, assign_run. cbv beta iota.
  rewrite bind_run.
  match goal with
  | |- context [Callbacks.method beh ?p ?m ?w1] =>
      destruct (method_outcome p m w1)
        as [(w2 & Hw2 & Hs)|(e2 & w2 & Hw2 & Hcb)]
  end; rewrite Hw2.
  2: { intros [= <- <-]. by right. }
  cbv beta iota. cbn [zk sessions set_root] in Hs.
  assert (Hlive2 : handle ∈ dom (sessions (zk w2))) by (by rewrite Hs).
  rewrite bind_run.
  destruct (decide (Z.land flags0 EPHEMERAL ≠ 0)).
  - rewrite bind_run, session_paths_live by exact Hlive2. discriminate.
  - discriminate.
Qed.

Lemma delete_fails_in_callback (handle : Z) (path : string) :
  fails_in_callback beh (Callbacks.delete beh handle path).
Proof.
  intros w e w'. unfold Callbacks.delete.
  destruct (decide (handle ∈ dom (sessions (zk w)))) as [Hlive|Hdead].
  2: { rewrite bind_run, check_handle_dead by assumption.
       intros [= <- <-]. by left. }
  rewrite bind_run, check_handle_live by assumption. cbv beta iota.
  rewrite bind_run, traverse_run.
  destruct (lookup_pos (segs path) (root (zk w))) as [obj|].
  2: { intros [= <- <-]. by left. }
  cbv beta iota. rewrite bind_run. unfold ZooKeeper.rsplit.
  destruct (rsplit1 path) as [[base name]|].
  2: { intros [= <- <-]. by left. }
  change (ret (base, name) w) with (Return (base, name), w).
  cbv beta iota. rewrite bind_run, traverse_run.
  destruct (lookup_pos (segs base) (root (zk w))) as [bobj|].
  2: { intros [= <- <-]. by left. }
  cbv beta iota.
  destruct (decide (name ∈ dom (children bobj))).
  2: { intros [= <- <-]. by left. }
  rewrite bind_run, assign_run. cbv beta iota. rewrite bind_run.
  match goal with
  | |- context [mkWorld ?z (trace w)] => set (w1 := mkWorld z (trace w))
  end.
  assert (Hs1 : sessions (zk w1) = sessions (zk w)) by reflexivity.
  assert (Hstep :
    (∃ w2, (if decide (segs path = segs base)
            then Callbacks.method beh (segs path)
                   (Node.deleted handle CONNECTED_STATE path)
            else Callbacks.detached beh obj
                   (Node.deleted handle CONNECTED_STATE path)) w1
             = (Return tt, w2) ∧ sessions (zk w2) = sessions (zk w)) ∨
    (∃ e2 w2, (if decide (segs path = segs base)
               then Callbacks.method beh (segs path)
                      (Node.deleted handle CONNECTED_STATE path)
               else Callbacks.detached beh obj
                      (Node.deleted handle CONNECTED_STATE path)) w1
                = (Raise e2, w2) ∧ raised_by_callback beh e2 w2)).
  { destruct (decide (segs path = segs base)).
    - destruct (method_outcome (segs path)
                  (Node.deleted handle CONNECTED_STATE path) w1)
        as [(w2 & Hw2 & Hs)|(e2 & w2 & Hw2 & Hcb)].
      + left. exists w2. split; [exact Hw2|]. by rewrite Hs.
      + right. exists e2, w2. done.
    - unfold Callbacks.detached.
      destruct (invoke_outcome
                  (Node.deleted handle CONNECTED_STATE path obj).2 w1)
        as [(w2 & Hw2 & Hz)|(e2 & w2 & Hw2 & Hcb & Hz)].
      + left. exists w2. split; [exact Hw2|]. by rewrite Hz.
      + right. exists e2, w2. done. }
  destruct Hstep as [(w2 & Hw2 & Hs2)|(e2 & w2 & Hw2 & Hcb)]; rewrite Hw2.
  2: { intros [= <- <-]. by right. }
  cbv beta iota. rewrite bind_run.
  destruct (method_outcome (segs base)
              (Node.children_changed handle CONNECTED_STATE base) w2)
    as [(w3 & Hw3 & Hs3)|(e3 & w3 & Hw3 & Hcb)]; rewrite Hw3.
  2: { intros [= <- <-]. by right. }
  cbv beta iota.
  assert (Hlive3 : handle ∈ dom (sessions (zk w3)))
    by (by rewrite Hs3, Hs2).
  rewrite bind_run, session_paths_live by exact Hlive3. cbv beta iota.
  destruct (decide (path ∈ default ∅ (sessions (zk w3) !! handle)));
    intros Hr; discriminate Hr.
Qed.

End callbacks.

(** The second way of failing is not atomic.  When the first data watcher
    of a node raises, [set] raises the same: by then the data is replaced
    and the watcher set is empty, and the other watchers are not invoked. *)
Lemma set_raises_after_mutating (beh : behaviour) (handle : Z)
    (path data0 : string) (w : World) (obj : Node) (h : Z) (cb : callback)
    (rest : list (Z * callback)) (e : exn) :
  handle ∈ dom (sessions (zk w)) →
  lookup_pos (segs path) (root (zk w)) = Some obj →
  watchers obj = (h, cb) :: rest →
  (∀ w0, beh w0 (Call cb h CHANGED_EVENT CONNECTED_STATE path) = Some e) →
  ∃ w',
    Callbacks.set beh handle path data0 w = (Raise e, w') ∧
    lookup_pos (segs path) (root (zk w')) =
      Some (set_watchers [] (set_data data0 obj)) ∧
    trace w' =
      trace w ++ [Called (Call cb h CHANGED_EVENT CONNECTED_STATE path) (zk w')].
Proof.
  intros Hlive Hobj Hws Hraise. unfold Callbacks.set.
  rewrite bind_run, check_handle_live by assumption. cbv beta iota.
  rewrite bind_run, traverse_run, Hobj. cbv beta iota.
  rewrite bind_run, assign_run. cbv beta iota.
  unfold Callbacks.method. rewrite bind_run. cbn [get_zk zk root set_root].
  rewrite lookup_update_at, Hobj. cbn [fmap option_fmap option_map].
  rewrite bind_run, assign_run. cbv beta iota.
  cbn [Node.changed fst snd]. simpl. rewrite Hws. simpl. rewrite Hraise.
  eexists. split; [reflexivity|]. cbn [zk trace root set_root].
  split; [|reflexivity].
  by rewrite update_at_compose, lookup_update_at, Hobj.
Qed.

(** C6, amended.  When an operation of the facade other than [close]
    raises, one of two things has happened.  Either the operation has
    changed nothing: the tree, the session table, every watcher set and the
    trace of printed lines and notifications are exactly as before it.  Or
    the operation is one of [init], [create], [delete] and [set], and the
    exception is the one that a callback invoked by the operation has just
    raised; these operations invoke callbacks after they have changed the
    emulator and catch nothing. *)
Theorem raise_is_clean_or_from_callback (beh : behaviour)
    (set_list : gset string → list string) (o : operation) (w w' : World)
    (e : exn) :
  is_close o = false →
  perform_with beh set_list o w = (Raise e, w') →
  w' = w ∨ (invokes_callbacks o = true ∧ raised_by_callback beh e w').
Proof.
  intros Hclose Hrun.
  destruct (invokes_callbacks o) eqn:Hinv.
  - assert (Hf : fails_in_callback beh (perform_with beh set_list o)).
    { destruct o; try discriminate Hclose; try discriminate Hinv; simpl;
        apply returning_fails_in_callback.
      - apply init_fails_in_callback.
      - apply create_fails_in_callback.
      - apply delete_fails_in_callback.
      - apply set_fails_in_callback. }
    destruct (Hf w e w' Hrun); [by left|by right].
  - left.
    assert (Hp : perform_with beh set_list o = perform set_list o)
      by (destruct o; try discriminate Hinv; reflexivity).
    rewrite Hp in Hrun.
    by apply (failure_is_atomic set_list o w w' e).
Qed.

(** Replacing the data of [/a] on which callbacks 6 and 5 are registered,
    when callback 6 raises. *)
Lemma raise_is_clean_or_from_callback_witness :
  is_close (op_set 0 "/a" "y") = false ∧
  perform_with beh_six elements (op_set 0 "/a" "y") w_six =
    (Raise (Exception "boom"),
     after (perform_with beh_six elements (op_set 0 "/a" "y") w_six)) ∧
  (after (perform_with beh_six elements (op_set 0 "/a" "y") w_six) = w_six ∨
   (invokes_callbacks (op_set 0 "/a" "y") = true ∧
    raised_by_callback beh_six (Exception "boom")
      (after (perform_with beh_six elements (op_set 0 "/a" "y") w_six)))).
Proof.
  assert (Hp : perform_with beh_six elements (op_set 0 "/a" "y") w_six =
               (Raise (Exception "boom"),
                after (perform_with beh_six elements (op_set 0 "/a" "y")
                         w_six)))
    by (vm_compute; reflexivity).
  split; [reflexivity|]. split; [exact Hp|].
  exact (raise_is_clean_or_from_callback beh_six elements
           (op_set 0 "/a" "y") w_six _ (Exception "boom") eq_refl Hp).
Defined.

(** The second alternative leaves effects behind.  On [/a] with the data
    watchers 6 and 5, [set] raises what callback 6 raises: by then the data
    is replaced and the watcher set is empty, and callback 5 is never
    invoked. *)
Example set_raises_after_mutation :
  (data <$> lookup_pos ["a"%string] (root (zk w_six))) = Some "x"%string ∧
  (watchers <$> lookup_pos ["a"%string] (root (zk w_six)))
    = Some [(0, 6%nat); (0, 5%nat)] ∧
  (Callbacks.set beh_six 0 "/a" "y" w_six).1 = Raise (Exception "boom") ∧
  (data <$> lookup_pos ["a"%string]
              (root (zk (after (Callbacks.set beh_six 0 "/a" "y" w_six)))))
    = Some "y"%string ∧
  (watchers <$> lookup_pos ["a"%string]
                  (root (zk (after (Callbacks.set beh_six 0 "/a" "y" w_six)))))
    = Some [] ∧
  calls (trace (after (Callbacks.set beh_six 0 "/a" "y" w_six))) =
    calls (trace w_six) ++ [Call 6%nat 0 CHANGED_EVENT CONNECTED_STATE "/a"].
Proof.
  split; [vm_compute; reflexivity|].
  split; [vm_compute; reflexivity|].
  split; [vm_compute; reflexivity|].
  split; [vm_compute; reflexivity|].
  split; vm_compute; reflexivity.
Qed.

(** ** Closing a session *)

Section pruning.
Variables (name : string) (g : Node → Node).
Hypothesis g_prunes : prunes name g.

(** Pruning only removes: what is linked afterwards was linked before, with
    the same payload. *)
Lemma lookup_pruned_inv (B q : ref) (r n' : Node) :
  lookup_pos q (update_at B g r) = Some n' →
  ∃ n, lookup_pos q r = Some n ∧ payload n' = payload n.
Proof.
  revert r q. induction B as [|x B IH]; intros r q.
  - destruct q as [|k q]; simpl.
    + intros [= <-]. exists r. split; [done|]. apply g_prunes.
    + destruct (g_prunes r) as [-> _]. rewrite lookup_delete.
      destruct (decide (name = k)); [discriminate|].
      destruct (children r !! k); [eauto|discriminate].
  - destruct q as [|k q]; simpl.
    + intros [= <-]. exists r. done.
    + rewrite lookup_alter. destruct (decide (x = k)) as [->|].
      * destruct (children r !! k) as [c|]; simpl; [apply IH|discriminate].
      * destruct (children r !! k); [eauto|discriminate].
Qed.

(** What is not at or below the removed entry stays, with its payload. *)
Lemma lookup_pruned (B q : ref) (r n : Node) :
  lookup_pos q r = Some n →
  ¬ (B ++ [name]) `prefix_of` q →
  ∃ n', lookup_pos q (update_at B g r) = Some n' ∧ payload n' = payload n.
Proof.
  revert r q. induction B as [|x B IH]; intros r q.
  - destruct q as [|k q]; simpl.
    + intros [= ->] _. exists (g n). split; [done|]. apply g_prunes.
    + intros Hq Hpre. destruct (g_prunes r) as [-> _].
      rewrite lookup_delete_ne.
      * destruct (children r !! k); [eauto|discriminate].
      * intros ->. apply Hpre. apply prefix_cons, prefix_nil.
  - destruct q as [|k q]; simpl.
    + intros [= <-] _. eexists. split; [reflexivity|]. done.
    + intros Hq Hpre. rewrite lookup_alter.
      destruct (decide (x = k)) as [->|].
      * destruct (children r !! k) as [c|]; simpl; [|discriminate].
        apply IH; [assumption|]. intros Hp. apply Hpre. by apply prefix_cons.
      * destruct (children r !! k); [eauto|discriminate].
Qed.

Lemma lookup_pruned_absent (B : ref) (r : Node) :
  lookup_pos (B ++ [name]) (update_at B g r) = None.
Proof.
  apply link_absent_update. intros m. destruct (g_prunes m) as [-> _].
  apply lookup_delete_eq.
Qed.

End pruning.

(** The tree after a [delete] is the tree before, pruned at [base]. *)
Lemma delete_zk2_prunes (path base name : string) (z : ZooKeeper) :
  ∃ g, prunes name g ∧
       root (delete_zk2 path base name z) = update_at (segs base) g (root z).
Proof.
  unfold delete_zk2, delete_zk1, unlinked.
  destruct (decide (segs path = segs base)); cbn [root set_root];
    rewrite !update_at_compose; eexists; (split; [|reflexivity]);
    intros m; split; reflexivity.
Qed.

Lemma forget_ephemeral_sessions (handle : Z) (path : string) (z : ZooKeeper) :
  handle ∈ dom (sessions z) →
  handle ∈ dom (sessions (forget_ephemeral handle path z)) ∧
  delete handle (sessions (forget_ephemeral handle path z)) =
    delete handle (sessions z).
Proof.
  intros Hlive. unfold forget_ephemeral.
  destruct (decide _); [|done]. simpl. split.
  - rewrite dom_insert_L. set_solver.
  - apply delete_insert_eq.
Qed.

(** One successful [delete], seen from the tree and the session table. *)
Lemma delete_effect (handle : Z) (path : string) (w w' : World) :
  ZooKeeper.delete handle path w = (Return tt, w') →
  (∃ lk, link path = Some lk ∧ lookup_pos lk (root (zk w')) = None) ∧
  (∀ q n', lookup_pos q (root (zk w')) = Some n' →
           ∃ n, lookup_pos q (root (zk w)) = Some n ∧ payload n' = payload n) ∧
  (∀ q n lk, lookup_pos q (root (zk w)) = Some n →
             link path = Some lk → ¬ lk `prefix_of` q →
             ∃ n', lookup_pos q (root (zk w')) = Some n' ∧
                   payload n' = payload n) ∧
  handle ∈ dom (sessions (zk w')) ∧
  delete handle (sessions (zk w')) = delete handle (sessions (zk w)).
Proof.
  intros Hd.
  apply delete_returns in Hd
    as (base & name & obj & bobj & Hlive & Hobj & Hr & Hbobj & Hin & ->).
  cbn [zk]. rewrite forget_ephemeral_root.
  destruct (delete_zk2_prunes path base name (zk w)) as (g & Hg & ->).
  unfold link. rewrite Hr.
  split; [|split; [|split]].
  - eexists. split; [reflexivity|]. by apply lookup_pruned_absent.
  - intros q n'. by apply lookup_pruned_inv with (name := name).
  - intros q n lk Hq [= <-] Hpre. by apply lookup_pruned with (name := name).
  - assert (Hl2 : handle ∈ dom (sessions (delete_zk2 path base name (zk w)))).
    { unfold delete_zk2, delete_zk1, unlinked.
      by destruct (decide (segs path = segs base)). }
    destruct (forget_ephemeral_sessions handle path _ Hl2) as [H1 H2].
    split; [exact H1|]. rewrite H2.
    unfold delete_zk2, delete_zk1, unlinked.
    by destruct (decide (segs path = segs base)).
Qed.

(** The loop of [close], when every deletion succeeds. *)
Lemma delete_each_effect (handle : Z) (paths : list string) (w w1 : World) :
  ZooKeeper.delete_each handle paths w = (Return tt, w1) →
  handle ∈ dom (sessions (zk w)) →
  (∀ p, p ∈ paths →
        ∃ lk, link p = Some lk ∧ lookup_pos lk (root (zk w1)) = None) ∧
  (∀ q n', lookup_pos q (root (zk w1)) = Some n' →
           ∃ n, lookup_pos q (root (zk w)) = Some n ∧ payload n' = payload n) ∧
  (∀ q n, lookup_pos q (root (zk w)) = Some n →
          (∀ p lk, p ∈ paths → link p = Some lk → ¬ lk `prefix_of` q) →
          ∃ n', lookup_pos q (root (zk w1)) = Some n' ∧
                payload n' = payload n) ∧
  handle ∈ dom (sessions (zk w1)) ∧
  delete handle (sessions (zk w1)) = delete handle (sessions (zk w)).
Proof.
  revert w. induction paths as [|p paths IH]; intros w; simpl.
  - intros [= <-] Hlive. split; [|split; [|split]].
    + intros p Hp. by apply elem_of_nil in Hp.
    + eauto.
    + eauto.
    + done.
  - rewrite bind_run.
    destruct (ZooKeeper.delete handle p w) as [[[]|e] w2] eqn:Hd;
      [|discriminate].
    intros Hrest Hlive.
    destruct (delete_effect _ _ _ _ Hd)
      as (Habs & Hinv & Hkeep & Hlive2 & Hsess).
    destruct (IH w2 Hrest Hlive2)
      as (Habs' & Hinv' & Hkeep' & Hlive1 & Hsess').
    split; [|split; [|split; [|split]]].
    + intros p' [->|Hp']%elem_of_cons; [|by apply Habs'].
      destruct Habs as (lk & Hlk & Hnone). exists lk. split; [done|].
      destruct (lookup_pos lk (root (zk w1))) as [n'|] eqn:Hl; [|done].
      destruct (Hinv' _ _ Hl) as (n & Hn & _). congruence.
    + intros q n' Hq. destruct (Hinv' _ _ Hq) as (n2 & Hn2 & Hp2).
      destruct (Hinv _ _ Hn2) as (n & Hn & Hp0). exists n.
      split; [done|]. congruence.
    + intros q n Hq Hfree.
      destruct (link p) as [lk|] eqn:Hlk.
      2: { destruct Habs as (lk & Hlk' & _). congruence. }
      destruct (Hkeep q n lk Hq eq_refl) as (n2 & Hn2 & Hp2).
      { apply (Hfree p); [apply elem_of_cons; by left|done]. }
      destruct (Hkeep' q n2 Hn2) as (n' & Hn' & Hp').
      { intros p' lk' Hp'. apply Hfree. apply elem_of_cons. by right. }
      exists n'. split; [done|]. congruence.
    + done.
    + congruence.
Qed.

Lemma lookup_clear_watchers (handle : Z) (q : ref) (r : Node) :
  lookup_pos q (Node.clear_watchers handle r) =
    Node.clear_watchers handle <$> lookup_pos q r.
Proof.
  revert r. induction q as [|k q IH]; intros r.
  - destruct r; reflexivity.
  - destruct r as [d ch ws cws fl av a as']. simpl. rewrite lookup_fmap.
    destruct (ch !! k) as [c|]; simpl; [apply IH|reflexivity].
Qed.

Lemma clear_watchers_payload (handle : Z) (n : Node) :
  payload (Node.clear_watchers handle n) = payload n.
Proof. by destruct n. Qed.

Lemma clear_watchers_none (handle : Z) (n : Node) (hw : Z * callback) :
  hw ∈ watchers (Node.clear_watchers handle n) ++
       child_watchers (Node.clear_watchers handle n) →
  hw.1 ≠ handle.
Proof.
  destruct n as [d ch ws cws fl av a as']. simpl. unfold Node.keep.
  intros [H|H]%elem_of_app; apply list_elem_of_filter in H; tauto.
Qed.

(** A successful [close], taken apart: the loop of deletions has gone
    through, then the session and the watchers of the handle are removed. *)
Lemma close_returns (set_list : gset string → list string) (handle : Z)
    (w w' : World) :
  ZooKeeper.close set_list handle w = (Return tt, w') →
  handle ∈ dom (sessions (zk w)) ∧
  ∃ w1,
    ZooKeeper.delete_each handle
      (set_list (default ∅ (sessions (zk w) !! handle))) w = (Return tt, w1) ∧
    w' = mkWorld
           (set_root (Node.clear_watchers handle (root (zk w1)))
              (set_sessions (delete handle (sessions (zk w1))) (zk w1)))
           (trace w1).
Proof.
  unfold ZooKeeper.close.
  destruct (decide (handle ∈ dom (sessions (zk w)))) as [Hlive|Hdead].
  2: { rewrite bind_run, check_handle_dead by assumption. discriminate. }
  rewrite bind_run, check_handle_live by assumption. cbv beta iota.
  rewrite bind_run, session_paths_live by assumption. cbv beta iota.
  rewrite bind_run.
  destruct (ZooKeeper.delete_each handle _ w) as [[[]|e] w1] eqn:Hloop;
    [|discriminate].
  destruct (delete_each_effect _ _ _ _ Hloop Hlive) as (_ & _ & _ & Hlive1 & _).
  zk_unfold. cbn [zk trace]. rewrite decide_True by assumption.
  intros [= <-]. split; [assumption|]. exists w1. done.
Qed.

(** The scenario of the specification: an ephemeral node is gone once
    its session is closed, as another session sees; the node that the other
    session created stays, with the watch of the other session only. *)
Example close_removes_ephemeral :
  (ZooKeeper.exists_ 1 "/e" w_two).1 = Return true ∧
  (ZooKeeper.exists_ 1 "/e" (after (ZooKeeper.close elements 0 w_two))).1
    = Return false ∧
  watchers <$> lookup_pos ["k"%string]
                 (root (zk (after (ZooKeeper.close elements 0 w_two))))
    = Some [(1, 5%nat)].
Proof. split; [|split]; vm_compute; reflexivity. Qed.

(** C8, as stated, fails: [/e/n] was created by session 0 without the
    ephemeral flag, and closing session 0 removes it together with the
    ephemeral [/e] above it. *)
Lemma close_removes_plain_node :
  raised (ZooKeeper.close elements 0 w_nested) = false ∧
  default ∅ (sessions (zk w_nested) !! 0) = {[ "/e"%string ]} ∧
  flags <$> lookup_pos ["e"; "n"]%string (root (zk w_nested)) = Some 0 ∧
  lookup_pos ["e"; "n"]%string
    (root (zk (after (ZooKeeper.close elements 0 w_nested)))) = None.
Proof.
  split; [vm_compute; reflexivity|].
  split; [vm_compute; reflexivity|].
  split; vm_compute; reflexivity.
Qed.

(** C8, amended.  When [close] on a live handle returns normally:
    it has run [delete(handle, p)] for every path [p] of the session's
    ephemeral set, each with the notifications of a [delete], and the
    entry [bnode.children[name]] that such a deletion removes is absent
    afterwards; every node that is not at or below one of these entries is
    still in the tree with its data, flags, version and ACL attributes
    (a node below an ephemeral node goes with it, ephemeral or not); the
    session is removed from the table and the other sessions are as before;
    and no node of the tree has a registration bearing the handle among its
    watchers or child watchers. *)
Theorem close_session (set_list : gset string → list string) (handle : Z)
    (w w' : World) :
  (∀ X, set_list X ≡ₚ elements X) →
  handle ∈ dom (sessions (zk w)) →
  ZooKeeper.close set_list handle w = (Return tt, w') →
  let paths := default ∅ (sessions (zk w) !! handle) in
  (∃ w1, ZooKeeper.delete_each handle (set_list paths) w = (Return tt, w1) ∧
         trace w' = trace w1 ∧
         root (zk w') = Node.clear_watchers handle (root (zk w1))) ∧
  (∀ p, p ∈ paths →
        ∃ lk, link p = Some lk ∧ lookup_pos lk (root (zk w')) = None) ∧
  (∀ q n, lookup_pos q (root (zk w)) = Some n →
          (∀ p lk, p ∈ paths → link p = Some lk → ¬ lk `prefix_of` q) →
          ∃ n', lookup_pos q (root (zk w')) = Some n' ∧
                payload n' = payload n) ∧
  sessions (zk w') = delete handle (sessions (zk w)) ∧
  (∀ q n hw, lookup_pos q (root (zk w')) = Some n →
             hw ∈ watchers n ++ child_watchers n → hw.1 ≠ handle).
Proof.
  intros Hlist Hlive Hclose paths.
  apply close_returns in Hclose as (_ & w1 & Hloop & ->).
  fold paths in Hloop.
  destruct (delete_each_effect _ _ _ _ Hloop Hlive)
    as (Habs & Hinv & Hkeep & Hlive1 & Hsess).
  assert (Hmem : ∀ p, p ∈ set_list paths ↔ p ∈ paths).
  { intros p. rewrite (Hlist paths). apply elem_of_elements. }
  cbn [zk trace root sessions set_root set_sessions].
  split; [|split; [|split; [|split]]].
  - exists w1. done.
  - intros p Hp. destruct (Habs p) as (lk & Hlk & Hnone); [by apply Hmem|].
    exists lk. split; [done|]. by rewrite lookup_clear_watchers, Hnone.
  - intros q n Hq Hfree.
    destruct (Hkeep q n Hq) as (n1 & Hn1 & Hp1).
    { intros p lk Hp. apply Hfree. by apply Hmem. }
    exists (Node.clear_watchers handle n1).
    rewrite lookup_clear_watchers, Hn1. split; [done|].
    by rewrite clear_watchers_payload.
  - exact Hsess.
  - intros q n hw Hq Hhw. rewrite lookup_clear_watchers in Hq.
    destruct (lookup_pos q (root (zk w1))) as [n1|]; [|discriminate].
    injection Hq as <-. by apply (clear_watchers_none handle n1).
Qed.

(** Closing session 0 of [w_two], in the order [elements]. *)
Lemma close_session_witness :
  (∀ X : gset string, elements X ≡ₚ elements X) ∧
  0 ∈ dom (sessions (zk w_two)) ∧
  ZooKeeper.close elements 0 w_two =
    (Return tt, after (ZooKeeper.close elements 0 w_two)) ∧
  let w' := after (ZooKeeper.close elements 0 w_two) in
  let paths := default ∅ (sessions (zk w_two) !! 0) in
  (∃ w1, ZooKeeper.delete_each 0 (elements paths) w_two = (Return tt, w1) ∧
         trace w' = trace w1 ∧
         root (zk w') = Node.clear_watchers 0 (root (zk w1))) ∧
  (∀ p, p ∈ paths →
        ∃ lk, link p = Some lk ∧ lookup_pos lk (root (zk w')) = None) ∧
  (∀ q n, lookup_pos q (root (zk w_two)) = Some n →
          (∀ p lk, p ∈ paths → link p = Some lk → ¬ lk `prefix_of` q) →
          ∃ n', lookup_pos q (root (zk w')) = Some n' ∧
                payload n' = payload n) ∧
  sessions (zk w') = delete 0 (sessions (zk w_two)) ∧
  (∀ q n hw, lookup_pos q (root (zk w')) = Some n →
             hw ∈ watchers n ++ child_watchers n → hw.1 ≠ 0).
Proof.
  assert (Hlist : ∀ X : gset string, elements X ≡ₚ elements X)
    by (intros X; reflexivity).
  assert (Hlive : 0 ∈ dom (sessions (zk w_two))).
  { apply elem_of_dom. vm_compute. eauto. }
  assert (Hclose : ZooKeeper.close elements 0 w_two =
            (Return tt, after (ZooKeeper.close elements 0 w_two)))
    by (vm_compute; reflexivity).
  split; [exact Hlist|]. split; [exact Hlive|]. split; [exact Hclose|].
  exact (close_session elements 0 w_two _ Hlist Hlive Hclose).
Defined.

(** * Further properties of the emulator *)

(** ** Handles *)

(** X1.  Every operation that takes a handle raises
    [ZooKeeperException('handle out of range')] when the handle is not a key
    of the session table, before it looks at its other arguments, and
    changes nothing. *)
Theorem dead_handle_rejected (set_list : gset string → list string)
    (o : operation) (handle : Z) (w : World) :
  op_handle o = Some handle →
  handle ∉ dom (sessions (zk w)) →
  perform set_list o w =
    (Raise (ZooKeeperException "handle out of range"), w).
Proof.
  intros Ho Hdead.
  destruct o; simpl in Ho; try discriminate Ho; injection Ho as ->;
    unfold perform, returning;
    rewrite bind_run;
    [ unfold ZooKeeper.close | unfold ZooKeeper.state
    | unfold ZooKeeper.create | unfold ZooKeeper.delete
    | unfold ZooKeeper.exists_ | unfold ZooKeeper.get_children
    | unfold ZooKeeper.get | unfold ZooKeeper.set
    | unfold ZooKeeper.get_acl | unfold ZooKeeper.set_acl ];
    by rewrite bind_run, check_handle_dead.
Qed.

(** Handle 7 on the emulator whose only session is 0. *)
Lemma dead_handle_rejected_witness :
  op_handle (op_set 7 "/a" "y") = Some 7 ∧
  (7 ∉ dom (sessions (zk w_a))) ∧
  perform elements (op_set 7 "/a" "y") w_a =
    (Raise (ZooKeeperException "handle out of range"), w_a).
Proof.
  assert (Hdead : 7 ∉ dom (sessions (zk w_a))).
  { apply not_elem_of_dom. vm_compute. reflexivity. }
  split; [reflexivity|]. split; [exact Hdead|].
  exact (dead_handle_rejected elements (op_set 7 "/a" "y") 7 w_a eq_refl Hdead).
Defined.

(** ** Paths *)

Lemma rsplit1_has_slash (s : string) :
  rsplit1 s = None ↔ has_slash s = false.
Proof.
  induction s as [|c s IH]; simpl; [done|].
  destruct (rsplit1 s) as [[b n]|].
  - destruct (decide (c = slash)); [done|]. split; [done|].
    intros H. apply IH in H. discriminate.
  - destruct (decide (c = slash)); [done|]. split; [|done].
    intros _. by apply IH.
Qed.

Lemma split_app_slash (a b : string) :
  split (a +:+ "/" +:+ b) = split a ++ split b.
Proof.
  induction a as [|c a IH]; simpl.
  - reflexivity.
  - rewrite IH. destruct (decide (c = slash)); [reflexivity|].
    destruct (split a) as [|x xs] eqn:Ha; [|reflexivity].
    exfalso. exact (split_not_nil a Ha).
Qed.

Lemma segs_app_slash (a b : string) :
  segs (a +:+ "/" +:+ b) = segs a ++ nonempty (split b).
Proof.
  unfold segs. rewrite split_app_slash.
  destruct (split a) as [|x xs] eqn:Ha.
  - exfalso. exact (split_not_nil a Ha).
  - simpl. apply nonempty_app.
Qed.

(** X2.  Slashes in excess do not matter to [_traverse]: a path with a
    trailing slash, or with a slash doubled anywhere, reaches the node of
    the path without it, with the same result and the same effect (none). *)
Theorem traverse_ignores_extra_slashes (a b : string) (w : World) :
  ZooKeeper._traverse (a +:+ "/") w = ZooKeeper._traverse a w ∧
  ZooKeeper._traverse (a +:+ "/" +:+ "/" +:+ b) w =
    ZooKeeper._traverse (a +:+ "/" +:+ b) w.
Proof.
  rewrite !traverse_run.
  assert (H1 : segs (a +:+ "/") = segs a).
  { change (a +:+ "/") with (a +:+ "/" +:+ ""). rewrite segs_app_slash.
    simpl. by rewrite app_nil_r. }
  assert (H2 : segs (a +:+ "/" +:+ "/" +:+ b) = segs (a +:+ "/" +:+ b)).
  { rewrite !segs_app_slash. reflexivity. }
  rewrite H1, H2. done.
Qed.

(** X3.  A path without any slash is taken for the root by [_traverse],
    whatever it spells.  [create] and [delete] cannot unpack its [rsplit]
    and raise [ValueError]; nothing is changed. *)
Theorem path_without_slash (handle : Z) (path data0 : string) (acl0 : ACL)
    (flags0 : Z) (w : World) :
  has_slash path = false →
  handle ∈ dom (sessions (zk w)) →
  ZooKeeper._traverse path w = (Return ([], root (zk w)), w) ∧
  ZooKeeper.create handle path data0 acl0 flags0 w =
    (Raise (ValueError "need more than 1 value to unpack"), w) ∧
  ZooKeeper.delete handle path w =
    (Raise (ValueError "need more than 1 value to unpack"), w).
Proof.
  intros Hs Hlive. apply rsplit1_has_slash in Hs.
  assert (Hsegs : segs path = []).
  { unfold segs. by rewrite (rsplit1_None_split _ Hs). }
  split; [|split].
  - rewrite traverse_run, Hsegs. reflexivity.
  - rewrite create_run, decide_True, Hs by assumption. reflexivity.
  - rewrite delete_run, decide_True, Hsegs, Hs by assumption. reflexivity.
Qed.

(** The path [a] on the emulator that has the node [/a]. *)
Lemma path_without_slash_witness :
  has_slash "a" = false ∧
  0 ∈ dom (sessions (zk w_a)) ∧
  ZooKeeper._traverse "a" w_a = (Return ([], root (zk w_a)), w_a) ∧
  ZooKeeper.create 0 "a" "y" acl_bob 0 w_a =
    (Raise (ValueError "need more than 1 value to unpack"), w_a) ∧
  ZooKeeper.delete 0 "a" w_a =
    (Raise (ValueError "need more than 1 value to unpack"), w_a).
Proof.
  assert (Hlive : 0 ∈ dom (sessions (zk w_a))).
  { apply elem_of_dom. vm_compute. eauto. }
  split; [reflexivity|]. split; [exact Hlive|].
  exact (path_without_slash 0 "a" "y" acl_bob 0 w_a eq_refl Hlive).
Defined.

(** X4.  On a live handle [exists] returns [True] when [_traverse] finds
    the path and [False] when it raises; it never raises itself and never
    changes anything. *)
Theorem exists_reports (handle : Z) (path : string) (w : World) :
  handle ∈ dom (sessions (zk w)) →
  ZooKeeper.exists_ handle path w =
    (Return (negb (raised (ZooKeeper._traverse path w))), w).
Proof.
  intros Hlive. unfold ZooKeeper.exists_.
  rewrite bind_run, check_handle_live by assumption. cbv beta iota.
  unfold try_except. rewrite bind_run, traverse_run.
  destruct (lookup_pos (segs path) (root (zk w))); reflexivity.
Qed.

(** A path that is there and one that is not. *)
Lemma exists_reports_witness :
  0 ∈ dom (sessions (zk w_a)) ∧
  ZooKeeper.exists_ 0 "/a" w_a =
    (Return (negb (raised (ZooKeeper._traverse "/a" w_a))), w_a) ∧
  ZooKeeper.exists_ 0 "/b" w_a = (Return false, w_a).
Proof.
  assert (Hlive : 0 ∈ dom (sessions (zk w_a))).
  { apply elem_of_dom. vm_compute. eauto. }
  split; [exact Hlive|]. split.
  - exact (exists_reports 0 "/a" w_a Hlive).
  - vm_compute. reflexivity.
Defined.

(** ** Creation and deletion: refusals *)

(** X5.  On a live handle, [create] raises [NodeExistsException] when the
    parent already has a child of that name and [NoNodeException] when the
    parent is not there; in both cases nothing is changed and no watcher is
    invoked. *)
Theorem create_refusals (handle : Z) (path base name data0 : string)
    (acl0 : ACL) (flags0 : Z) (w : World) :
  handle ∈ dom (sessions (zk w)) →
  rsplit1 path = Some (base, name) →
  (∀ node obj, ZooKeeper._traverse base w = (Return (node, obj), w) →
               name ∈ dom (children obj) →
               ZooKeeper.create handle path data0 acl0 flags0 w =
                 (Raise NodeExistsException, w)) ∧
  (raised (ZooKeeper._traverse base w) = true →
   ZooKeeper.create handle path data0 acl0 flags0 w =
     (Raise (NoNodeException "no node"), w)).
Proof.
  intros Hlive Hr. split.
  - intros node obj [-> Hobj]%traverse_found Hin.
    rewrite create_run, decide_True, Hr, Hobj by assumption.
    by rewrite decide_True.
  - rewrite traverse_run, create_run, decide_True, Hr by assumption.
    destruct (lookup_pos (segs base) (root (zk w))); [discriminate|done].
Qed.

(** Creating [/a] again, and creating [/b/c] without [/b]. *)
Lemma create_refusals_witness :
  0 ∈ dom (sessions (zk w_a)) ∧
  rsplit1 "/a" = Some (""%string, "a"%string) ∧
  ZooKeeper.create 0 "/a" "y" acl_bob 0 w_a = (Raise NodeExistsException, w_a) ∧
  ZooKeeper.create 0 "/b/c" "y" acl_bob 0 w_a =
    (Raise (NoNodeException "no node"), w_a).
Proof.
  assert (Hlive : 0 ∈ dom (sessions (zk w_a))).
  { apply elem_of_dom. vm_compute. eauto. }
  split; [exact Hlive|]. split; [reflexivity|]. split.
  - apply (proj1 (create_refusals 0 "/a" "" "a" "y" acl_bob 0 w_a
                    Hlive eq_refl) [] (root (zk w_a))).
    + vm_compute. reflexivity.
    + apply elem_of_dom. vm_compute. eauto.
  - apply (proj2 (create_refusals 0 "/b/c" "/b" "c" "y" acl_bob 0 w_a
                    Hlive eq_refl)).
    vm_compute. reflexivity.
Defined.

(** X6.  [delete] of a path that ends in a slash addresses the child
    whose name is the empty string of the node that the path reaches.  When
    that node has no such child, [del bnode.children['']] raises
    [KeyError], the node itself is not deleted and nothing is changed. *)
Theorem delete_trailing_slash (handle : Z) (path base : string) (w : World)
    (node : ref) (obj : Node) :
  handle ∈ dom (sessions (zk w)) →
  rsplit1 path = Some (base, ""%string) →
  ZooKeeper._traverse path w = (Return (node, obj), w) →
  ""%string ∉ dom (children obj) →
  ZooKeeper.delete handle path w = (Raise (KeyError (KStr "")), w).
Proof.
  intros Hlive Hr [-> Hobj]%traverse_found Hfree.
  assert (Hsame : segs path = segs base) by (by apply (same_object_iff _ _ _ Hr)).
  rewrite delete_run, decide_True, Hobj, Hr by assumption.
  rewrite <- Hsame, Hobj. by rewrite decide_False.
Qed.

(** Deleting [/a/] where [/a] has no children. *)
Lemma delete_trailing_slash_witness :
  0 ∈ dom (sessions (zk w_a)) ∧
  rsplit1 "/a/" = Some ("/a"%string, ""%string) ∧
  ZooKeeper._traverse "/a/" w_a =
    (Return (["a"%string], created "x" acl_bob 0), w_a) ∧
  (""%string ∉ dom (children (created "x" acl_bob 0))) ∧
  ZooKeeper.delete 0 "/a/" w_a = (Raise (KeyError (KStr "")), w_a).
Proof.
  assert (Hlive : 0 ∈ dom (sessions (zk w_a))).
  { apply elem_of_dom. vm_compute. eauto. }
  assert (Htr : ZooKeeper._traverse "/a/" w_a =
            (Return (["a"%string], created "x" acl_bob 0), w_a))
    by (vm_compute; reflexivity).
  assert (Hfree : ""%string ∉ dom (children (created "x" acl_bob 0))).
  { apply not_elem_of_dom. reflexivity. }
  split; [exact Hlive|]. split; [reflexivity|]. split; [exact Htr|].
  split; [exact Hfree|].
  exact (delete_trailing_slash 0 "/a/" "/a" w_a _ _ Hlive eq_refl Htr Hfree).
Defined.

(** ** Reading and writing a node *)

Lemma calls_app (t1 t2 : list event) : calls (t1 ++ t2) = calls t1 ++ calls t2.
Proof. apply omap_app. Qed.

Lemma calls_called (z : ZooKeeper) (cs : list call) :
  calls (map (λ c, Called c z) cs) = cs.
Proof.
  unfold calls. induction cs as [|c cs IH]; [reflexivity|].
  simpl. f_equal. exact IH.
Qed.

Lemma world_eta (w : World) : mkWorld (zk w) (trace w) = w.
Proof. by destruct w. Qed.

Lemma get_run (handle : Z) (path : string) (watch : option callback)
    (w : World) (obj : Node) :
  handle ∈ dom (sessions (zk w)) →
  lookup_pos (segs path) (root (zk w)) = Some obj →
  ZooKeeper.get handle path watch w =
    (Return (data obj, ephemeral_owner (flags obj)),
     match watch with
     | Some cb =>
         mkWorld
           (set_root
              (update_at (segs path)
                 (λ n, set_watchers (watchers n ++ [(handle, cb)]) n)
                 (root (zk w))) (zk w))
           (trace w)
     | None => w
     end).
Proof.
  intros Hlive Hobj. unfold ZooKeeper.get.
  rewrite bind_run, check_handle_live by assumption. cbv beta iota.
  rewrite bind_run, traverse_run, Hobj. cbv beta iota.
  destruct watch; reflexivity.
Qed.

Lemma get_children_run (handle : Z) (path : string) (watch : option callback)
    (w : World) (obj : Node) :
  handle ∈ dom (sessions (zk w)) →
  lookup_pos (segs path) (root (zk w)) = Some obj →
  ZooKeeper.get_children handle path watch w =
    (Return (sorted_keys (children obj)),
     match watch with
     | Some cb =>
         mkWorld
           (set_root
              (update_at (segs path)
                 (λ n, set_child_watchers (child_watchers n ++ [(handle, cb)]) n)
                 (root (zk w))) (zk w))
           (trace w)
     | None => w
     end).
Proof.
  intros Hlive Hobj. unfold ZooKeeper.get_children.
  rewrite bind_run, check_handle_live by assumption. cbv beta iota.
  rewrite bind_run, traverse_run, Hobj. cbv beta iota.
  destruct watch; reflexivity.
Qed.

Lemma set_run (handle : Z) (path data0 : string) (w : World) (obj : Node) :
  handle ∈ dom (sessions (zk w)) →
  lookup_pos (segs path) (root (zk w)) = Some obj →
  ZooKeeper.set handle path data0 w =
    (Return tt,
     let z' := set_root
                 (update_at (segs path)
                    (λ n, set_watchers [] (set_data data0 n)) (root (zk w)))
                 (zk w) in
     mkWorld z'
       (trace w ++
        map (λ c, Called c z')
          (Node.notify CHANGED_EVENT CONNECTED_STATE path (watchers obj)))).
Proof.
  intros Hlive Hobj. unfold ZooKeeper.set.
  rewrite bind_run, check_handle_live by assumption. cbv beta iota.
  rewrite bind_run, traverse_run, Hobj. cbv beta iota.
  rewrite bind_run, assign_run. cbv beta iota.
  rewrite (method_run_at _ _ (set_data data0 obj)).
  2: { cbn [zk root set_root]. by rewrite lookup_update_at, Hobj. }
  cbv zeta. cbn [zk trace root set_root connection_string sessions].
  rewrite update_at_compose. reflexivity.
Qed.

Lemma set_acl_run (handle : Z) (path : string) (v : Z) (new : ACL)
    (w : World) (obj : Node) :
  handle ∈ dom (sessions (zk w)) →
  lookup_pos (segs path) (root (zk w)) = Some obj →
  ZooKeeper.set_acl handle path v new w =
    if decide (v ≠ aversion obj)
    then (Raise (BadVersionException "bad version"), w)
    else (Return tt,
          mkWorld
            (set_root
               (update_at (segs path)
                  (λ n, set_acl_attr new (set_aversion (aversion n + 1) n))
                  (root (zk w))) (zk w))
            (trace w)).
Proof.
  intros Hlive Hobj. unfold ZooKeeper.set_acl.
  rewrite bind_run, check_handle_live by assumption. cbv beta iota.
  rewrite bind_run, traverse_run, Hobj. cbv beta iota.
  destruct (decide (v ≠ aversion obj)); [reflexivity|].
  rewrite bind_run, assign_run, assign_run.
  cbn [zk trace root set_root connection_string sessions].
  rewrite update_at_compose. reflexivity.
Qed.

(** [set] and [create] with callbacks that return normally. *)
Lemma set_agrees (beh : behaviour) (handle : Z) (path data0 : string)
    (w : World) :
  (∀ obj, lookup_pos (segs path) (root (zk w)) = Some obj →
          return_normally beh
            (Node.notify CHANGED_EVENT CONNECTED_STATE path (watchers obj))) →
  Callbacks.set beh handle path data0 w = ZooKeeper.set handle path data0 w.
Proof.
  intros Hq. unfold Callbacks.set, ZooKeeper.set.
  destruct (decide (handle ∈ dom (sessions (zk w)))) as [Hlive|Hdead].
  2: { by rewrite !bind_run, check_handle_dead. }
  rewrite !bind_run, check_handle_live by assumption. cbv beta iota.
  rewrite !bind_run, traverse_run.
  destruct (lookup_pos (segs path) (root (zk w))) as [obj|] eqn:Hobj;
    [|reflexivity].
  cbv beta iota. rewrite !bind_run, assign_run. cbv beta iota.
  apply method_agrees. intros obj'. cbn [zk root set_root].
  rewrite lookup_update_at, Hobj. intros [= <-]. exact (Hq obj eq_refl).
Qed.

Lemma set_run_with (beh : behaviour) (handle : Z) (path data0 : string)
    (w : World) (obj : Node) :
  handle ∈ dom (sessions (zk w)) →
  lookup_pos (segs path) (root (zk w)) = Some obj →
  return_normally beh
    (Node.notify CHANGED_EVENT CONNECTED_STATE path (watchers obj)) →
  Callbacks.set beh handle path data0 w =
    (Return tt,
     let z' := set_root
                 (update_at (segs path)
                    (λ n, set_watchers [] (set_data data0 n)) (root (zk w)))
                 (zk w) in
     mkWorld z'
       (trace w ++
        map (λ c, Called c z')
          (Node.notify CHANGED_EVENT CONNECTED_STATE path (watchers obj)))).
Proof.
  intros Hlive Hobj Hq. rewrite set_agrees; [by apply set_run|].
  intros obj0 Hobj0. assert (obj0 = obj) as -> by congruence. exact Hq.
Qed.

Lemma create_agrees (beh : behaviour) (handle : Z) (path data0 : string)
    (acl0 : ACL) (flags0 : Z) (w : World) :
  (∀ base name obj,
     rsplit1 path = Some (base, name) →
     lookup_pos (segs base) (root (zk w)) = Some obj →
     return_normally beh
       (Node.notify CHILD_EVENT CONNECTED_STATE base (child_watchers obj))) →
  Callbacks.create beh handle path data0 acl0 flags0 w =
    ZooKeeper.create handle path data0 acl0 flags0 w.
Proof.
  intros Hq. unfold Callbacks.create, ZooKeeper.create.
  destruct (decide (handle ∈ dom (sessions (zk w)))) as [Hlive|Hdead].
  2: { by rewrite !bind_run, check_handle_dead. }
  rewrite !bind_run, check_handle_live by assumption. cbv beta iota.
  rewrite !bind_run. unfold ZooKeeper.rsplit.
  destruct (rsplit1 path) as [[base name]|] eqn:Hr; [|reflexivity].
  change (ret (base, name) w) with (Return (base, name), w).
  cbv beta iota. rewrite !bind_run, traverse_run.
  destruct (lookup_pos (segs base) (root (zk w))) as [obj|] eqn:Hobj;
    [|reflexivity].
  cbv beta iota.
  destruct (decide (name ∈ dom (children obj))); [reflexivity|].
  rewrite !bind_run, assign_run. cbv beta iota.
  rewrite !bind_run, assign_run. cbv beta iota.
  rewrite !bind_run, assign_run. cbv beta iota.
  rewrite !bind_run.
  rewrite method_agrees; [reflexivity|].
  intros obj'. cbn [zk root set_root].
  rewrite !update_at_app, !update_at_compose, lookup_update_at, Hobj.
  intros [= <-]. exact (Hq base name obj eq_refl Hobj).
Qed.

(** The callbacks other than [n] return under [raises_at n]. *)
Lemma raises_at_returns (n : callback) (cs : list call) :
  forallb (λ c, negb (Nat.eqb (c_watch c) n)) cs = true →
  return_normally (raises_at n) cs.
Proof.
  intros Hall w c Hc. unfold raises_at.
  destruct (decide (c_watch c = n)) as [Heq|]; [|reflexivity].
  rewrite forallb_forall in Hall.
  assert (Hin : In c cs) by (by apply list_elem_of_In).
  apply Hall in Hin. apply negb_true_iff, Nat.eqb_neq in Hin. contradiction.
Qed.

#[local] Instance string_leb_total : Total (λ a b : string, String.leb a b).
Proof.
  intros a b. destruct (String.leb_total a b) as [H|H]; rewrite H; [left|right];
    exact I.
Qed.



(** X8.  On a live handle and an existing path, and provided that the
    data watchers of the node return normally when invoked, [set] returns
    and replaces the data, which [get] then returns with the unchanged
    [ephemeralOwner]; it invokes every data watcher of the node once, in
    order of registration, with the changed event kind and the path as
    given, and leaves the node without data watchers; its children, child
    watchers, flags and ACL attributes and the session table are as
    before. *)
Theorem set_get_roundtrip (beh : behaviour) (handle : Z)
    (path data0 : string) (w : World) (node : ref) (obj : Node) :
  handle ∈ dom (sessions (zk w)) →
  ZooKeeper._traverse path w = (Return (node, obj), w) →
  return_normally beh
    (Node.notify CHANGED_EVENT CONNECTED_STATE path (watchers obj)) →
  ∃ w',
    Callbacks.set beh handle path data0 w = (Return tt, w') ∧
    ZooKeeper.get handle path None w' =
      (Return (data0, ephemeral_owner (flags obj)), w') ∧
    lookup_pos node (root (zk w')) = Some (set_watchers [] (set_data data0 obj)) ∧
    trace w' =
      trace w ++
      map (λ c, Called c (zk w'))
        (Node.notify CHANGED_EVENT CONNECTED_STATE path (watchers obj)) ∧
    sessions (zk w') = sessions (zk w).
Proof.
  intros Hlive [-> Hobj]%traverse_found Hq.
  rewrite (set_run_with _ _ _ _ _ obj) by assumption. cbv zeta.
  eexists. split; [reflexivity|].
  assert (Hnew : lookup_pos (segs path)
            (update_at (segs path) (λ n, set_watchers [] (set_data data0 n))
               (root (zk w))) = Some (set_watchers [] (set_data data0 obj))).
  { by rewrite lookup_update_at, Hobj. }
  split; [|split; [exact Hnew|split; reflexivity]].
  by rewrite (get_run _ _ _ _ (set_watchers [] (set_data data0 obj))).
Qed.

(** Setting [/a] of [w_watched], which has the data watcher 5, when
    callback 6 is one that raises. *)
Lemma set_get_roundtrip_witness :
  0 ∈ dom (sessions (zk w_watched)) ∧
  ZooKeeper._traverse "/a" w_watched =
    (Return (["a"%string],
             set_child_watchers [(0, 6%nat)]
               (set_watchers [(0, 5%nat)] (created "x" acl_bob 0))),
     w_watched) ∧
  return_normally beh_six
    (Node.notify CHANGED_EVENT CONNECTED_STATE "/a" [(0, 5%nat)]) ∧
  ∃ w',
    Callbacks.set beh_six 0 "/a" "y" w_watched = (Return tt, w') ∧
    ZooKeeper.get 0 "/a" None w' = (Return ("y"%string, ephemeral_owner 0), w') ∧
    lookup_pos ["a"%string] (root (zk w')) =
      Some (set_watchers []
              (set_data "y"
                 (set_child_watchers [(0, 6%nat)]
                    (set_watchers [(0, 5%nat)] (created "x" acl_bob 0))))) ∧
    trace w' =
      trace w_watched ++
      map (λ c, Called c (zk w'))
        (Node.notify CHANGED_EVENT CONNECTED_STATE "/a" [(0, 5%nat)]) ∧
    sessions (zk w') = sessions (zk w_watched).
Proof.
  assert (Hlive : 0 ∈ dom (sessions (zk w_watched))).
  { apply elem_of_dom. vm_compute. eauto. }
  assert (Htr : ZooKeeper._traverse "/a" w_watched =
            (Return (["a"%string],
                     set_child_watchers [(0, 6%nat)]
                       (set_watchers [(0, 5%nat)] (created "x" acl_bob 0))),
             w_watched)) by (vm_compute; reflexivity).
  assert (Hq : return_normally beh_six
                 (Node.notify CHANGED_EVENT CONNECTED_STATE "/a" [(0, 5%nat)]))
    by (apply raises_at_returns; reflexivity).
  split; [exact Hlive|]. split; [exact Htr|]. split; [exact Hq|].
  exact (set_get_roundtrip beh_six 0 "/a" "y" w_watched _ _ Hlive Htr Hq).
Defined.

(** ** Watches *)

(** X9.  A data watch is delivered once, and with the handle that
    registered it.  After [get(h1, path, cb)], and provided that [cb] and
    the data watchers registered before it return normally when invoked,
    the next [set] on the path, by whatever session, returns and invokes the
    data watchers registered before and then [cb], each as
    [w(h, CHANGED_EVENT, CONNECTED_STATE, path)] with its own registering
    handle [h]; a further [set] returns and invokes nothing, whatever the
    callbacks would do. *)
Theorem data_watch_one_shot (beh : behaviour) (h1 h2 h3 : Z)
    (path d d' : string) (cb : callback) (w : World) (node : ref)
    (obj : Node) :
  h1 ∈ dom (sessions (zk w)) →
  h2 ∈ dom (sessions (zk w)) →
  h3 ∈ dom (sessions (zk w)) →
  ZooKeeper._traverse path w = (Return (node, obj), w) →
  return_normally beh
    (Node.notify CHANGED_EVENT CONNECTED_STATE path
       (watchers obj ++ [(h1, cb)])) →
  ∃ w1 w2 w3,
    ZooKeeper.get h1 path (Some cb) w =
      (Return (data obj, ephemeral_owner (flags obj)), w1) ∧
    Callbacks.set beh h2 path d w1 = (Return tt, w2) ∧
    Callbacks.set beh h3 path d' w2 = (Return tt, w3) ∧
    calls (trace w2) =
      calls (trace w) ++
      Node.notify CHANGED_EVENT CONNECTED_STATE path
        (watchers obj ++ [(h1, cb)]) ∧
    calls (trace w3) = calls (trace w2).
Proof.
  intros H1 H2 H3 [-> Hobj]%traverse_found Hq.
  pose proof (get_run h1 path (Some cb) w obj H1 Hobj) as Hg.
  match type of Hg with _ = (_, ?x) => set (w1 := x) in * end.
  assert (Hobj1 : lookup_pos (segs path) (root (zk w1)) =
            Some (set_watchers (watchers obj ++ [(h1, cb)]) obj)).
  { unfold w1. cbn [zk root set_root]. by rewrite lookup_update_at, Hobj. }
  pose proof (set_run_with beh h2 path d w1 _ H2 Hobj1 Hq) as Hs.
  cbv zeta in Hs.
  match type of Hs with _ = (_, ?x) => set (w2 := x) in * end.
  assert (Hobj2 : lookup_pos (segs path) (root (zk w2)) =
            Some (set_watchers []
                    (set_data d (set_watchers (watchers obj ++ [(h1, cb)]) obj)))).
  { unfold w2. cbn [zk root set_root]. by rewrite lookup_update_at, Hobj1. }
  assert (Hnone : return_normally beh
            (Node.notify CHANGED_EVENT CONNECTED_STATE path
               (watchers (set_watchers []
                  (set_data d
                     (set_watchers (watchers obj ++ [(h1, cb)]) obj)))))).
  { intros w0 c Hc. by apply elem_of_nil in Hc. }
  pose proof (set_run_with beh h3 path d' w2 _ H3 Hobj2 Hnone) as Hs'.
  cbv zeta in Hs'.
  match type of Hs' with _ = (_, ?x) => set (w3 := x) in * end.
  exists w1, w2, w3. repeat split; try assumption.
  - unfold w2. cbn [trace]. rewrite calls_app, calls_called. reflexivity.
  - unfold w3. cbn [trace]. rewrite calls_app, calls_called.
    apply app_nil_r.
Qed.

(** Sessions 0 and 1 of [w_two] on [/k], which has the data watchers 5
    and 6, when callback 7 is one that raises. *)
Lemma data_watch_one_shot_witness :
  1 ∈ dom (sessions (zk w_two)) ∧
  0 ∈ dom (sessions (zk w_two)) ∧
  ZooKeeper._traverse "/k" w_two =
    (Return (["k"%string],
             set_watchers [(1, 5%nat); (0, 6%nat)] (created "y" acl_bob 0)),
     w_two) ∧
  return_normally (raises_at 7%nat)
    (Node.notify CHANGED_EVENT CONNECTED_STATE "/k"
       ([(1, 5%nat); (0, 6%nat)] ++ [(1, 9%nat)])) ∧
  ∃ w1 w2 w3,
    ZooKeeper.get 1 "/k" (Some 9%nat) w_two =
      (Return ("y"%string, ephemeral_owner 0), w1) ∧
    Callbacks.set (raises_at 7%nat) 0 "/k" "v" w1 = (Return tt, w2) ∧
    Callbacks.set (raises_at 7%nat) 0 "/k" "w" w2 = (Return tt, w3) ∧
    calls (trace w2) =
      calls (trace w_two) ++
      Node.notify CHANGED_EVENT CONNECTED_STATE "/k"
        ([(1, 5%nat); (0, 6%nat)] ++ [(1, 9%nat)]) ∧
    calls (trace w3) = calls (trace w2).
Proof.
  assert (H1 : 1 ∈ dom (sessions (zk w_two))).
  { apply elem_of_dom. vm_compute. eauto. }
  assert (H0 : 0 ∈ dom (sessions (zk w_two))).
  { apply elem_of_dom. vm_compute. eauto. }
  assert (Htr : ZooKeeper._traverse "/k" w_two =
            (Return (["k"%string],
                     set_watchers [(1, 5%nat); (0, 6%nat)]
                       (created "y" acl_bob 0)),
             w_two)) by (vm_compute; reflexivity).
  assert (Hq : return_normally (raises_at 7%nat)
                 (Node.notify CHANGED_EVENT CONNECTED_STATE "/k"
                    ([(1, 5%nat); (0, 6%nat)] ++ [(1, 9%nat)])))
    by (apply raises_at_returns; reflexivity).
  split; [exact H1|]. split; [exact H0|]. split; [exact Htr|].
  split; [exact Hq|].
  exact (data_watch_one_shot (raises_at 7%nat) 1 0 0 "/k" "v" "w" 9%nat w_two
           _ _ H1 H0 H0 Htr Hq).
Defined.

(** X10.  A child watch registered with [get_children] on a node is
    delivered by the next [create] of a child under that node, by whatever
    session.  Provided that the new watcher and the child watchers
    registered before it return normally when invoked, [create] returns the
    path and the child watchers registered before and then the new one are
    invoked as [w(h, CHILD_EVENT, CONNECTED_STATE, base)], where [h] is the
    registering handle and [base] is the text before the last slash of the
    path being created (the empty string for a child of the root).  The
    node is left without child watchers. *)
Theorem child_watch_on_create (beh : behaviour) (h1 h2 : Z)
    (parent path base name d : string) (a : ACL) (f : Z) (cb : callback)
    (w : World) (node : ref) (obj : Node) :
  h1 ∈ dom (sessions (zk w)) →
  h2 ∈ dom (sessions (zk w)) →
  ZooKeeper._traverse parent w = (Return (node, obj), w) →
  rsplit1 path = Some (base, name) →
  ZooKeeper._traverse base w = (Return (node, obj), w) →
  name ∉ dom (children obj) →
  return_normally beh
    (Node.notify CHILD_EVENT CONNECTED_STATE base
       (child_watchers obj ++ [(h1, cb)])) →
  ∃ w1 w2,
    ZooKeeper.get_children h1 parent (Some cb) w =
      (Return (sorted_keys (children obj)), w1) ∧
    Callbacks.create beh h2 path d a f w1 = (Return path, w2) ∧
    calls (trace w2) =
      calls (trace w) ++
      Node.notify CHILD_EVENT CONNECTED_STATE base
        (child_watchers obj ++ [(h1, cb)]) ∧
    child_watchers <$> lookup_pos node (root (zk w2)) = Some [] ∧
    lookup_pos (node ++ [name]) (root (zk w2)) = Some (created d a f).
Proof.
  intros H1 H2 [-> Hobj]%traverse_found Hr [Hseg Hbobj]%traverse_found Hfree
    Hq.
  pose proof (get_children_run h1 parent (Some cb) w obj H1 Hobj) as Hg.
  match type of Hg with _ = (_, ?x) => set (w1 := x) in * end.
  assert (Hobj1 : lookup_pos (segs base) (root (zk w1)) =
            Some (set_child_watchers (child_watchers obj ++ [(h1, cb)]) obj)).
  { unfold w1. cbn [zk root set_root].
    by rewrite <- Hseg, lookup_update_at, Hobj. }
  pose proof (create_run h2 path d a f w1) as Hc.
  rewrite <- (create_agrees beh) in Hc.
  2: { intros base' name' obj' Hr' Hobj'.
       rewrite Hr in Hr'. injection Hr' as <- <-.
       rewrite Hobj1 in Hobj'. injection Hobj' as <-. exact Hq. }
  rewrite decide_True, Hr, Hobj1 in Hc by exact H2.
  rewrite decide_False in Hc by exact Hfree. cbv zeta in Hc.
  match type of Hc with _ = (_, ?x) => set (w2 := x) in * end.
  exists w1, w2. split; [exact Hg|]. split; [exact Hc|].
  split; [|split].
  - unfold w2. cbn [trace]. rewrite calls_app, calls_called. reflexivity.
  - unfold w2. cbn [zk]. rewrite record_ephemeral_root, Hseg.
    unfold create_zk. cbn [root set_root].
    by rewrite lookup_update_at, Hobj1.
  - unfold w2. cbn [zk]. rewrite record_ephemeral_root, Hseg.
    by rewrite (create_links _ _ _ _ _ _ _ Hobj1).
Qed.

(** Session 1 watches the children of the root of [w_two]; session 0
    creates [/m]; callback 6 is one that raises. *)
Lemma child_watch_on_create_witness :
  1 ∈ dom (sessions (zk w_two)) ∧
  0 ∈ dom (sessions (zk w_two)) ∧
  ZooKeeper._traverse "/" w_two = (Return ([], root (zk w_two)), w_two) ∧
  rsplit1 "/m" = Some (""%string, "m"%string) ∧
  ZooKeeper._traverse "" w_two = (Return ([], root (zk w_two)), w_two) ∧
  ("m"%string ∉ dom (children (root (zk w_two)))) ∧
  return_normally beh_six
    (Node.notify CHILD_EVENT CONNECTED_STATE ""
       (child_watchers (root (zk w_two)) ++ [(1, 9%nat)])) ∧
  ∃ w1 w2,
    ZooKeeper.get_children 1 "/" (Some 9%nat) w_two =
      (Return (sorted_keys (children (root (zk w_two)))), w1) ∧
    Callbacks.create beh_six 0 "/m" "d" acl_bob 0 w1 = (Return "/m"%string, w2) ∧
    calls (trace w2) =
      calls (trace w_two) ++
      Node.notify CHILD_EVENT CONNECTED_STATE ""
        (child_watchers (root (zk w_two)) ++ [(1, 9%nat)]) ∧
    child_watchers <$> lookup_pos [] (root (zk w2)) = Some [] ∧
    lookup_pos ([] ++ ["m"%string]) (root (zk w2)) = Some (created "d" acl_bob 0).
Proof.
  assert (H1 : 1 ∈ dom (sessions (zk w_two))).
  { apply elem_of_dom. vm_compute. eauto. }
  assert (H0 : 0 ∈ dom (sessions (zk w_two))).
  { apply elem_of_dom. vm_compute. eauto. }
  assert (Htr : ZooKeeper._traverse "/" w_two =
                (Return ([], root (zk w_two)), w_two))
    by (vm_compute; reflexivity).
  assert (Hb : ZooKeeper._traverse "" w_two =
               (Return ([], root (zk w_two)), w_two))
    by (vm_compute; reflexivity).
  assert (Hfree : "m"%string ∉ dom (children (root (zk w_two)))).
  { apply not_elem_of_dom. vm_compute. reflexivity. }
  assert (Hq : return_normally beh_six
                 (Node.notify CHILD_EVENT CONNECTED_STATE ""
                    (child_watchers (root (zk w_two)) ++ [(1, 9%nat)])))
    by (apply raises_at_returns; vm_compute; reflexivity).
  split; [exact H1|]. split; [exact H0|]. split; [exact Htr|].
  split; [reflexivity|]. split; [exact Hb|]. split; [exact Hfree|].
  split; [exact Hq|].
  exact (child_watch_on_create beh_six 1 0 "/" "/m" "" "m" "d" acl_bob 0
           9%nat w_two _ _ H1 H0 Htr eq_refl Hb Hfree Hq).
Defined.

(** ** ACL versions, again *)

(** X11.  A version is good for one update.  After a [set_acl] that
    succeeded with the node's version, a second [set_acl] with that same
    version, by any live handle, raises [BadVersionException] and leaves the
    ACL of the first update in place. *)
Theorem set_acl_version_consumed (h1 h2 : Z) (path : string) (a1 a2 : ACL)
    (w : World) (node : ref) (obj : Node) :
  h1 ∈ dom (sessions (zk w)) →
  h2 ∈ dom (sessions (zk w)) →
  ZooKeeper._traverse path w = (Return (node, obj), w) →
  ∃ w',
    ZooKeeper.set_acl h1 path (aversion obj) a1 w = (Return tt, w') ∧
    ZooKeeper.set_acl h2 path (aversion obj) a2 w' =
      (Raise (BadVersionException "bad version"), w') ∧
    ZooKeeper.get_acl h2 path w' = (Return (aversion obj + 1, a1), w').
Proof.
  intros H1 H2 [-> Hobj]%traverse_found.
  pose proof (set_acl_run h1 path (aversion obj) a1 w obj H1 Hobj) as Hs.
  rewrite decide_False in Hs by (intros H; by apply H).
  match type of Hs with _ = (_, ?x) => set (w' := x) in * end.
  assert (Hobj' : lookup_pos (segs path) (root (zk w')) =
            Some (set_acl_attr a1 (set_aversion (aversion obj + 1) obj))).
  { unfold w'. cbn [zk root set_root]. by rewrite lookup_update_at, Hobj. }
  exists w'. split; [exact Hs|]. split.
  - rewrite (set_acl_run h2 path _ a2 w' _ H2 Hobj').
    rewrite decide_True; [reflexivity|]. simpl. lia.
  - unfold ZooKeeper.get_acl.
    rewrite bind_run, check_handle_live by exact H2. cbv beta iota.
    rewrite bind_run, traverse_run, Hobj'. reflexivity.
Qed.

(** Two sessions update the ACL of [/k], both with version 0. *)
Lemma set_acl_version_consumed_witness :
  0 ∈ dom (sessions (zk w_two)) ∧
  1 ∈ dom (sessions (zk w_two)) ∧
  ZooKeeper._traverse "/k" w_two =
    (Return (["k"%string],
             set_watchers [(1, 5%nat); (0, 6%nat)] (created "y" acl_bob 0)),
     w_two) ∧
  ∃ w',
    ZooKeeper.set_acl 0 "/k" 0 acl_bob w_two = (Return tt, w') ∧
    ZooKeeper.set_acl 1 "/k" 0 OPEN_ACL_UNSAFE w' =
      (Raise (BadVersionException "bad version"), w') ∧
    ZooKeeper.get_acl 1 "/k" w' = (Return (0 + 1, acl_bob), w').
Proof.
  assert (H1 : 1 ∈ dom (sessions (zk w_two))).
  { apply elem_of_dom. vm_compute. eauto. }
  assert (H0 : 0 ∈ dom (sessions (zk w_two))).
  { apply elem_of_dom. vm_compute. eauto. }
  assert (Htr : ZooKeeper._traverse "/k" w_two =
            (Return (["k"%string],
                     set_watchers [(1, 5%nat); (0, 6%nat)]
                       (created "y" acl_bob 0)),
             w_two)) by (vm_compute; reflexivity).
  split; [exact H0|]. split; [exact H1|]. split; [exact Htr|].
  exact (set_acl_version_consumed 0 1 "/k" acl_bob OPEN_ACL_UNSAFE w_two
           _ _ H0 H1 Htr).
Defined.

(** ** What creation and deletion do to the rest of the tree *)

Section growing.
Variables (name : string) (c : Node) (g : Node → Node).
Hypothesis g_links :
  ∀ m, children (g m) = <[name := c]> (children m) ∧ payload (g m) = payload m.
Hypothesis c_leaf : children c = ∅.

(** Linking a child under a free name keeps what was linked. *)
Lemma lookup_grown (B q : ref) (r n obj : Node) :
  lookup_pos B r = Some obj →
  name ∉ dom (children obj) →
  lookup_pos q r = Some n →
  ∃ n', lookup_pos q (update_at B g r) = Some n' ∧ payload n' = payload n.
Proof.
  revert r q. induction B as [|x B IH]; intros r q.
  - intros [= ->] Hfree. destruct q as [|k q]; simpl.
    + intros [= ->]. exists (g n). split; [done|]. apply g_links.
    + destruct (g_links obj) as [-> _].
      destruct (children obj !! k) as [c0|] eqn:Hk; [|discriminate].
      rewrite lookup_insert_ne.
      * rewrite Hk. eauto.
      * intros ->. apply Hfree. apply elem_of_dom. eauto.
  - simpl. destruct (children r !! x) as [c0|] eqn:Hx; [|discriminate].
    intros HB Hfree. destruct q as [|k q]; simpl.
    + intros [= ->]. eexists. split; [reflexivity|done].
    + rewrite lookup_alter. destruct (decide (x = k)) as [<-|].
      * rewrite Hx. simpl. by apply IH.
      * destruct (children r !! k); [eauto|discriminate].
Qed.

(** And it links nothing but the child. *)
Lemma lookup_grown_inv (B q : ref) (r n' : Node) :
  lookup_pos q (update_at B g r) = Some n' →
  q = B ++ [name] ∨ ∃ n, lookup_pos q r = Some n ∧ payload n' = payload n.
Proof.
  revert r q. induction B as [|x B IH]; intros r q.
  - destruct q as [|k q]; simpl.
    + intros [= <-]. right. exists r. split; [done|]. apply g_links.
    + destruct (g_links r) as [-> _]. rewrite lookup_insert.
      destruct (decide (name = k)) as [<-|].
      * destruct q as [|k' q]; [by left|]. simpl.
        rewrite c_leaf, lookup_empty. discriminate.
      * destruct (children r !! k); [eauto|discriminate].
  - destruct q as [|k q]; simpl.
    + intros [= <-]. right. exists r. done.
    + rewrite lookup_alter. destruct (decide (x = k)) as [<-|].
      * destruct (children r !! x) as [c0|]; simpl; [|discriminate].
        intros Hq. destruct (IH _ _ Hq) as [->|?]; [by left|by right].
      * destruct (children r !! k); [eauto|discriminate].
Qed.

End growing.

(** X12.  A successful [create] adds one node and touches no other: the
    entry [node.children[name]] was absent and now holds a node with the
    given data and flags, version 0 and no children or watchers; every node
    that was in the tree is still there with its data, flags, version and ACL
    attributes; nothing else has appeared.  The path, as spelled, joins the
    ephemeral set of the creating handle when the flags have the ephemeral
    bit; otherwise the session table is unchanged. *)
Theorem create_adds_one_node (handle : Z) (path d : string) (a : ACL) (f : Z)
    (w w' : World) (r : string) :
  ZooKeeper.create handle path d a f w = (Return r, w') →
  ∃ pos,
    link path = Some pos ∧
    lookup_pos pos (root (zk w)) = None ∧
    lookup_pos pos (root (zk w')) = Some (created d a f) ∧
    (∀ q n, lookup_pos q (root (zk w)) = Some n →
            ∃ n', lookup_pos q (root (zk w')) = Some n' ∧
                  payload n' = payload n) ∧
    (∀ q n', lookup_pos q (root (zk w')) = Some n' →
             q = pos ∨
             ∃ n, lookup_pos q (root (zk w)) = Some n ∧ payload n' = payload n) ∧
    sessions (zk w') =
      if decide (Z.land f EPHEMERAL ≠ 0)
      then <[handle := default ∅ (sessions (zk w) !! handle) ∪ {[path]}]>
             (sessions (zk w))
      else sessions (zk w).
Proof.
  intros Hc.
  apply create_returns in Hc
    as (base & name & obj & Hlive & Hr & Hobj & Hfree & -> & ->).
  exists (segs base ++ [name]). unfold link. rewrite Hr.
  cbn [zk]. rewrite record_ephemeral_root.
  assert (Hg : ∀ m, children (set_child_watchers []
                       (add_child name (created d a f) m)) =
                    <[name := created d a f]> (children m) ∧
                    payload (set_child_watchers []
                       (add_child name (created d a f) m)) = payload m)
    by (intros m; split; reflexivity).
  split; [reflexivity|]. split; [|split; [|split; [|split]]].
  - rewrite lookup_pos_app, Hobj. simpl.
    apply not_elem_of_dom in Hfree. by rewrite Hfree.
  - by apply (create_links _ _ _ _ _ _ obj).
  - intros q n Hq. unfold create_zk. cbn [root set_root].
    by apply (lookup_grown name (created d a f) _ Hg _ _ _ _ obj).
  - intros q n' Hq. unfold create_zk in Hq. cbn [root set_root] in Hq.
    by apply (lookup_grown_inv name (created d a f) _ Hg eq_refl) in Hq.
  - unfold record_ephemeral. by destruct (decide (Z.land f EPHEMERAL ≠ 0)).
Qed.

(** Session 0 of [w_two] creates the ephemeral node [/k/e]. *)
Lemma create_adds_one_node_witness :
  ZooKeeper.create 0 "/k/e" "d" acl_bob EPHEMERAL w_two =
    (Return "/k/e"%string,
     after (ZooKeeper.create 0 "/k/e" "d" acl_bob EPHEMERAL w_two)) ∧
  let w' := after (ZooKeeper.create 0 "/k/e" "d" acl_bob EPHEMERAL w_two) in
  ∃ pos,
    link "/k/e" = Some pos ∧
    lookup_pos pos (root (zk w_two)) = None ∧
    lookup_pos pos (root (zk w')) = Some (created "d" acl_bob EPHEMERAL) ∧
    (∀ q n, lookup_pos q (root (zk w_two)) = Some n →
            ∃ n', lookup_pos q (root (zk w')) = Some n' ∧
                  payload n' = payload n) ∧
    (∀ q n', lookup_pos q (root (zk w')) = Some n' →
             q = pos ∨
             ∃ n, lookup_pos q (root (zk w_two)) = Some n ∧
                  payload n' = payload n) ∧
    sessions (zk w') =
      if decide (Z.land EPHEMERAL EPHEMERAL ≠ 0)
      then <[0 := default ∅ (sessions (zk w_two) !! 0) ∪ {["/k/e"%string]}]>
             (sessions (zk w_two))
      else sessions (zk w_two).
Proof.
  assert (Hc : ZooKeeper.create 0 "/k/e" "d" acl_bob EPHEMERAL w_two =
            (Return "/k/e"%string,
             after (ZooKeeper.create 0 "/k/e" "d" acl_bob EPHEMERAL w_two)))
    by (vm_compute; reflexivity).
  split; [exact Hc|].
  exact (create_adds_one_node 0 "/k/e" "d" acl_bob EPHEMERAL w_two _ _ Hc).
Defined.

Lemma delete_zk2_sessions (path base name : string) (z : ZooKeeper) :
  sessions (delete_zk2 path base name z) = sessions z.
Proof.
  unfold delete_zk2, delete_zk1, unlinked.
  by destruct (decide (segs path = segs base)).
Qed.

(** X13.  A successful [delete] removes the entry [bnode.children[name]]
    with everything below it, whether or not the node has children, and
    touches no node elsewhere.  The path, as spelled, leaves the ephemeral
    set of the deleting handle; the sets of the other handles are not
    looked at.  When the name after the last slash is not empty, [exists]
    on the path then returns [False]. *)
Theorem delete_removes_subtree (handle : Z) (path : string) (w w' : World) :
  ZooKeeper.delete handle path w = (Return tt, w') →
  ∃ base name pos,
    rsplit1 path = Some (base, name) ∧
    pos = segs base ++ [name] ∧
    is_Some (lookup_pos pos (root (zk w))) ∧
    (∀ q, pos `prefix_of` q → lookup_pos q (root (zk w')) = None) ∧
    (∀ q n, lookup_pos q (root (zk w)) = Some n → ¬ pos `prefix_of` q →
            ∃ n', lookup_pos q (root (zk w')) = Some n' ∧
                  payload n' = payload n) ∧
    sessions (zk w') =
      (let paths := default ∅ (sessions (zk w) !! handle) in
       if decide (path ∈ paths)
       then <[handle := paths ∖ {[path]}]> (sessions (zk w))
       else sessions (zk w)) ∧
    (name ≠ ""%string →
     ZooKeeper.exists_ handle path w' = (Return false, w')).
Proof.
  intros Hd.
  destruct (delete_effect _ _ _ _ Hd) as (Habs & _ & Hkeep & Hlive' & _).
  apply delete_returns in Hd
    as (base & name & obj & bobj & Hlive & Hobj & Hr & Hbobj & Hin & ->).
  exists base, name, (segs base ++ [name]).
  unfold link in Habs, Hkeep. rewrite Hr in Habs, Hkeep.
  destruct Habs as (lk & [= <-] & Hnone).
  split; [done|]. split; [done|]. split; [|split; [|split; [|split]]].
  - rewrite lookup_pos_app, Hbobj. simpl.
    apply elem_of_dom in Hin as [c Hc]. rewrite Hc. eauto.
  - intros q [rest ->]. by rewrite lookup_pos_app, Hnone.
  - intros q n Hq Hpre. by apply (Hkeep q n _ Hq eq_refl).
  - cbn [zk]. unfold forget_ephemeral. rewrite delete_zk2_sessions. cbv zeta.
    destruct (decide (path ∈ default ∅ (sessions (zk w) !! handle)));
      [reflexivity|apply delete_zk2_sessions].
  - intros Hname. unfold ZooKeeper.exists_.
    rewrite bind_run, check_handle_live by exact Hlive'. cbv beta iota.
    unfold try_except. rewrite bind_run, traverse_run.
    rewrite (segs_rsplit1 _ _ _ Hr). unfold nonempty.
    rewrite filter_cons_True, filter_nil by assumption.
    by rewrite Hnone.
Qed.

(** Session 0 deletes [/e] of [w_nested], which has the child [/e/n]. *)
Lemma delete_removes_subtree_witness :
  ZooKeeper.delete 0 "/e" w_nested =
    (Return tt, after (ZooKeeper.delete 0 "/e" w_nested)) ∧
  let w' := after (ZooKeeper.delete 0 "/e" w_nested) in
  ∃ base name pos,
    rsplit1 "/e" = Some (base, name) ∧
    pos = segs base ++ [name] ∧
    is_Some (lookup_pos pos (root (zk w_nested))) ∧
    (∀ q, pos `prefix_of` q → lookup_pos q (root (zk w')) = None) ∧
    (∀ q n, lookup_pos q (root (zk w_nested)) = Some n → ¬ pos `prefix_of` q →
            ∃ n', lookup_pos q (root (zk w')) = Some n' ∧
                  payload n' = payload n) ∧
    sessions (zk w') =
      (let paths := default ∅ (sessions (zk w_nested) !! 0) in
       if decide ("/e"%string ∈ paths)
       then <[0 := paths ∖ {["/e"%string]}]> (sessions (zk w_nested))
       else sessions (zk w_nested)) ∧
    (name ≠ ""%string →
     ZooKeeper.exists_ 0 "/e" w' = (Return false, w')).
Proof.
  assert (Hd : ZooKeeper.delete 0 "/e" w_nested =
            (Return tt, after (ZooKeeper.delete 0 "/e" w_nested)))
    by (vm_compute; reflexivity).
  split; [exact Hd|].
  exact (delete_removes_subtree 0 "/e" w_nested _ Hd).
Defined.

(** ** What the operations leave alone *)

Section preservation.
Context {R : World → World → Prop} `{!PreOrder R}.

Lemma preserves_unchanged {A} (m : M A) :
  (∀ w, (m w).2 = w) → preserves R m.
Proof. intros Hm w. by rewrite Hm. Qed.

Lemma preserves_bind {A B} (m : M A) (k : A → M B) :
  preserves R m → (∀ a, preserves R (k a)) → preserves R (m ≫= k).
Proof.
  intros Hm Hk w. rewrite bind_run. specialize (Hm w).
  destruct (m w) as [[a|e] w1]; simpl in *.
  - by etrans; [|apply Hk].
  - done.
Qed.

Lemma preserves_try {A} (m : M A) (handler : exn → option (M A)) :
  preserves R m →
  (∀ e k, handler e = Some k → preserves R k) →
  preserves R (try_except m handler).
Proof.
  intros Hm Hh w. unfold try_except. specialize (Hm w).
  destruct (m w) as [[a|e] w1]; simpl in *; [done|].
  destruct (handler e) as [k|] eqn:He; [|done].
  by etrans; [|apply (Hh e k He)].
Qed.

Lemma preserves_check_handle (handle : Z) :
  preserves R (ZooKeeper._check_handle handle).
Proof.
  apply preserves_unchanged. intros w.
  destruct (decide (handle ∈ dom (sessions (zk w)))).
  - by rewrite check_handle_live.
  - by rewrite check_handle_dead.
Qed.

Lemma preserves_traverse (path : string) :
  preserves R (ZooKeeper._traverse path).
Proof. apply preserves_unchanged. apply traverse_state. Qed.

Lemma preserves_ret {A} (a : A) : preserves R (ret a).
Proof. by apply preserves_unchanged. Qed.

Lemma preserves_raise {A} (e : exn) : preserves R (raise e : M A).
Proof. by apply preserves_unchanged. Qed.

End preservation.

(** Takes an operation apart into its steps. *)
Ltac preserve_steps :=
  repeat match goal with
    | |- preserves _ (ZooKeeper._check_handle _) => apply preserves_check_handle
    | |- preserves _ (ZooKeeper._traverse _) => apply preserves_traverse
    | |- preserves _ (ret _) => apply preserves_ret
    | |- preserves _ (raise _) => apply preserves_raise
    | |- preserves _ (mbind _ _) => apply preserves_bind; [|intros ?]
    | |- preserves _ (let '(_, _) := ?x in _) => destruct x
    | |- preserves _ (match ?x with Some _ => _ | None => _ end) => destruct x
    | |- preserves _ (if ?b then _ else _) => destruct b
    end.

Lemma lookup_update_shape (p q : ref) (f : Node → Node) (r : Node) :
  keeps_children f →
  is_Some (lookup_pos q (update_at p f r)) ↔ is_Some (lookup_pos q r).
Proof.
  intros Hf. revert r q. induction p as [|x p IH]; intros r q.
  - destruct q as [|k q]; simpl; [split; eauto|]. by rewrite Hf.
  - destruct q as [|k q]; simpl; [split; eauto|].
    rewrite lookup_alter. destruct (decide (x = k)) as [<-|]; [|done].
    destruct (children r !! x); simpl; [apply IH|done].
Qed.

#[local] Instance quiet_preorder : PreOrder quiet.
Proof.
  split.
  - intros w. by repeat split.
  - intros w1 w2 w3 (Hs & Hc & Hl) (Hs' & Hc' & Hl').
    split; [congruence|]. split; [congruence|].
    intros q. by rewrite Hl', Hl.
Qed.

Lemma quiet_assign (self : ref) (f : Node → Node) :
  keeps_children f → preserves quiet (assign self f).
Proof.
  intros Hf w. rewrite assign_run. cbn. split; [done|]. split; [done|].
  intros q. by apply lookup_update_shape.
Qed.

Lemma quiet_method (self : ref) (m : Node → Node * list call) :
  keeps_children (λ n, (m n).1) → preserves quiet (method self m).
Proof.
  intros Hm w.
  destruct (lookup_pos self (root (zk w))) as [obj|] eqn:Hobj.
  - rewrite (method_run_at _ _ obj) by assumption. cbn.
    split; [done|]. split; [done|]. intros q. by apply lookup_update_shape.
  - unfold method. rewrite bind_run. cbn. rewrite Hobj. reflexivity.
Qed.

(** [state], [exists], [get_children], [get], [set], [get_acl] and
    [set_acl] are quiet, however they end. *)
Lemma quiet_operations (set_list : gset string → list string) (o : operation) :
  reshapes o = false → opens_or_closes o = false →
  preserves quiet (perform set_list o).
Proof.
  intros Hr Ho.
  destruct o; try discriminate Hr; try discriminate Ho; simpl;
    unfold returning.
  - unfold ZooKeeper.state. preserve_steps.
  - unfold ZooKeeper.exists_. preserve_steps.
    apply preserves_try; [preserve_steps|].
    intros e k. destruct e; try discriminate. intros [= <-]. preserve_steps.
  - unfold ZooKeeper.get_children. preserve_steps.
    by apply quiet_assign.
  - unfold ZooKeeper.get. preserve_steps. by apply quiet_assign.
  - unfold ZooKeeper.set. preserve_steps.
    + by apply quiet_assign.
    + by apply quiet_method.
  - unfold ZooKeeper.get_acl. preserve_steps.
  - unfold ZooKeeper.set_acl. preserve_steps; by apply quiet_assign.
Qed.

(** X14.  The operations that only read, [state], [exists], [get_acl],
    and [get] and [get_children] without a watch, leave the emulator exactly
    as it was, whether they return or raise: tree, watchers, sessions and
    delivered notifications. *)
Theorem read_only_unchanged (set_list : gset string → list string)
    (o : operation) (w : World) :
  read_only o = true →
  after (perform set_list o w) = w.
Proof.
  intros Ho.
  assert (H : preserves eq (perform set_list o)).
  { destruct o as [| | | | | |? ? [?|]|? ? [?|]| | |];
      try discriminate Ho; simpl; unfold returning.
    - unfold ZooKeeper.state. preserve_steps.
    - unfold ZooKeeper.exists_. preserve_steps.
      apply preserves_try; [preserve_steps|].
      intros e k. destruct e; try discriminate. intros [= <-]. preserve_steps.
    - unfold ZooKeeper.get_children. preserve_steps.
    - unfold ZooKeeper.get. preserve_steps.
    - unfold ZooKeeper.get_acl. preserve_steps. }
  symmetry. apply H.
Qed.

(** Reading [/a], which has watchers, and a path that is not there. *)
Lemma read_only_unchanged_witness :
  read_only (op_get 0 "/a" None) = true ∧
  after (perform elements (op_get 0 "/a" None) w_watched) = w_watched ∧
  after (perform elements (op_get_acl 0 "/b") w_watched) = w_watched.
Proof.
  split; [reflexivity|]. split.
  - exact (read_only_unchanged elements (op_get 0 "/a" None) w_watched eq_refl).
  - exact (read_only_unchanged elements (op_get_acl 0 "/b") w_watched eq_refl).
Defined.

(** X15.  Only [create], [delete] and [close] link or unlink nodes: after
    any other operation, returned or raised, exactly the positions that were
    linked are linked. *)
Theorem tree_shape_kept (set_list : gset string → list string)
    (o : operation) (w : World) (q : ref) :
  reshapes o = false →
  is_Some (lookup_pos q (root (zk (after (perform set_list o w))))) ↔
  is_Some (lookup_pos q (root (zk w))).
Proof.
  intros Hr. destruct (opens_or_closes o) eqn:Ho.
  - destruct o; try discriminate Hr; try discriminate Ho. simpl.
    unfold returning, after. rewrite bind_run, init_run. reflexivity.
  - apply (quiet_operations set_list o Hr Ho w).
Qed.

(** A [set] on [/a] and the position of [/a]. *)
Lemma tree_shape_kept_witness :
  reshapes (op_set 0 "/a" "y") = false ∧
  (is_Some (lookup_pos ["a"%string]
              (root (zk (after (perform elements (op_set 0 "/a" "y") w_watched)))))
   ↔ is_Some (lookup_pos ["a"%string] (root (zk w_watched)))).
Proof.
  split; [reflexivity|].
  exact (tree_shape_kept elements (op_set 0 "/a" "y") w_watched ["a"%string]
           eq_refl).
Defined.

(** ** Sessions over time *)

Lemma returning_state {A} (f : A → value) (m : M A) (w : World) :
  (returning f m w).2 = (m w).2.
Proof.
  unfold returning. rewrite bind_run. by destruct (m w) as [[a|e] w1].
Qed.

Lemma dom_insert_live (S0 : gmap Z (gset string)) (handle : Z)
    (paths : gset string) :
  handle ∈ dom S0 → dom (<[handle := paths]> S0) = dom S0.
Proof.
  intros Hin. rewrite dom_insert_L. apply subseteq_union_1_L.
  by apply singleton_subseteq_l.
Qed.

Lemma create_same_handles (handle : Z) (path d : string) (a : ACL) (f : Z)
    (w : World) :
  dom (sessions (zk (ZooKeeper.create handle path d a f w).2)) =
  dom (sessions (zk w)).
Proof.
  rewrite create_run.
  destruct (decide (handle ∈ dom (sessions (zk w)))) as [Hlive|]; [|done].
  destruct (rsplit1 path) as [[base name]|]; [|done].
  destruct (lookup_pos (segs base) (root (zk w))) as [obj|]; [|done].
  destruct (decide (name ∈ dom (children obj))); [done|].
  cbn. unfold record_ephemeral.
  destruct (decide (Z.land f EPHEMERAL ≠ 0)); [|done].
  cbn. by apply dom_insert_live.
Qed.

Lemma delete_same_handles (handle : Z) (path : string) (w : World) :
  dom (sessions (zk (ZooKeeper.delete handle path w).2)) =
  dom (sessions (zk w)).
Proof.
  rewrite delete_run.
  destruct (decide (handle ∈ dom (sessions (zk w)))) as [Hlive|]; [|done].
  destruct (lookup_pos (segs path) (root (zk w))) as [obj|]; [|done].
  destruct (rsplit1 path) as [[base name]|]; [|done].
  destruct (lookup_pos (segs base) (root (zk w))) as [bobj|]; [|done].
  destruct (decide (name ∈ dom (children bobj))); [|done].
  cbn. unfold forget_ephemeral. rewrite delete_zk2_sessions.
  destruct (decide (path ∈ default ∅ (sessions (zk w) !! handle))).
  - cbn [sessions set_sessions]. by apply dom_insert_live.
  - by rewrite delete_zk2_sessions.
Qed.

Lemma delete_each_same_handles (handle : Z) (paths : list string) (w : World) :
  dom (sessions (zk (ZooKeeper.delete_each handle paths w).2)) =
  dom (sessions (zk w)).
Proof.
  revert w. induction paths as [|p paths IH]; intros w; simpl; [done|].
  rewrite bind_run. pose proof (delete_same_handles handle p w) as Hd.
  destruct (ZooKeeper.delete handle p w) as [[[]|e] w1]; simpl in *.
  - by rewrite IH.
  - done.
Qed.

(** X16.  A session lasts from its [init] to its [close]: no other
    operation, returned or raised, adds a handle to the session table or
    removes one. *)
Theorem live_handles_kept (set_list : gset string → list string)
    (o : operation) (w : World) :
  opens_or_closes o = false →
  dom (sessions (zk (after (perform set_list o w)))) = dom (sessions (zk w)).
Proof.
  intros Ho. destruct (reshapes o) eqn:Hr.
  - destruct o; try discriminate Hr; try discriminate Ho; simpl;
      unfold after; rewrite returning_state.
    + apply create_same_handles.
    + apply delete_same_handles.
  - destruct (quiet_operations set_list o Hr Ho w) as (Hs & _).
    unfold after. by rewrite Hs.
Qed.

(** Session 1 deletes the ephemeral node of session 0. *)
Lemma live_handles_kept_witness :
  opens_or_closes (op_delete 1 "/e") = false ∧
  dom (sessions (zk (after (perform elements (op_delete 1 "/e") w_two)))) =
  dom (sessions (zk w_two)).
Proof.
  split; [reflexivity|].
  exact (live_handles_kept elements (op_delete 1 "/e") w_two eq_refl).
Defined.

(** X17.  When [close] raises on a live handle, it is one of its
    deletions that raised, with that exception; the session is still
    registered, as is every other, and its watchers are not cleared: the
    statements after the loop have not run. *)
Theorem close_failure_keeps_session (set_list : gset string → list string)
    (handle : Z) (w w' : World) (e : exn) :
  handle ∈ dom (sessions (zk w)) →
  ZooKeeper.close set_list handle w = (Raise e, w') →
  ZooKeeper.delete_each handle
    (set_list (default ∅ (sessions (zk w) !! handle))) w = (Raise e, w') ∧
  handle ∈ dom (sessions (zk w')) ∧
  dom (sessions (zk w')) = dom (sessions (zk w)).
Proof.
  intros Hlive. unfold ZooKeeper.close.
  rewrite bind_run, check_handle_live by assumption. cbv beta iota.
  rewrite bind_run, session_paths_live by assumption. cbv beta iota.
  rewrite bind_run.
  pose proof (delete_each_same_handles handle
                (set_list (default ∅ (sessions (zk w) !! handle))) w) as Hdom.
  destruct (ZooKeeper.delete_each handle _ w) as [[[]|e1] w1]; simpl in Hdom.
  - zk_unfold. cbn [zk trace]. rewrite decide_True by (by rewrite Hdom).
    discriminate.
  - intros [= <- <-]. split; [done|]. split; [by rewrite Hdom|done].
Qed.

(** Closing session 0 of [w_alias], whose set spells one node twice. *)
Lemma close_failure_keeps_session_witness :
  0 ∈ dom (sessions (zk w_alias)) ∧
  ZooKeeper.close elements 0 w_alias =
    (Raise (NoNodeException "no node"),
     after (ZooKeeper.close elements 0 w_alias)) ∧
  ZooKeeper.delete_each 0
    (elements (default ∅ (sessions (zk w_alias) !! 0))) w_alias =
    (Raise (NoNodeException "no node"),
     after (ZooKeeper.close elements 0 w_alias)) ∧
  0 ∈ dom (sessions (zk (after (ZooKeeper.close elements 0 w_alias)))) ∧
  dom (sessions (zk (after (ZooKeeper.close elements 0 w_alias)))) =
    dom (sessions (zk w_alias)).
Proof.
  assert (Hlive : 0 ∈ dom (sessions (zk w_alias))).
  { apply elem_of_dom. vm_compute. eauto. }
  assert (Hc : ZooKeeper.close elements 0 w_alias =
            (Raise (NoNodeException "no node"),
             after (ZooKeeper.close elements 0 w_alias)))
    by (vm_compute; reflexivity).
  split; [exact Hlive|]. split; [exact Hc|].
  exact (close_failure_keeps_session elements 0 w_alias _ _ Hlive Hc).
Defined.

(** X18.  A closed handle is free again.  After a successful
    [close(handle)], the next [init] registers a handle that is at most
    [handle], and exactly [handle] when every smaller handle is live. *)
Theorem closed_handle_reused (set_list : gset string → list string)
    (handle : Z) (w w' : World) (addr : string) (watch : option callback) :
  0 ≤ handle →
  ZooKeeper.close set_list handle w = (Return tt, w') →
  ∃ h' w'',
    ZooKeeper.init addr watch w' = (Return tt, w'') ∧
    0 ≤ h' ≤ handle ∧
    sessions (zk w'') = <[h' := ∅]> (delete handle (sessions (zk w))) ∧
    ((∀ k, 0 ≤ k < handle → k ∈ dom (sessions (zk w))) → h' = handle).
Proof.
  intros H0 Hclose.
  apply close_returns in Hclose as (Hlive & w1 & Hloop & ->).
  destruct (delete_each_effect _ _ _ _ Hloop Hlive) as (_ & _ & _ & _ & Hsess).
  set (w' := mkWorld _ (trace w1)).
  assert (Hs' : sessions (zk w') = delete handle (sessions (zk w))) by exact Hsess.
  destruct (init_handle_lowest (zk w')) as (Hh0 & Hfree & Hlow).
  exists (init_handle (zk w')), (ZooKeeper.init addr watch w').2.
  split; [by rewrite init_run|].
  assert (Hle : init_handle (zk w') ≤ handle).
  { destruct (decide (init_handle (zk w') ≤ handle)) as [|Hgt]; [done|].
    exfalso. assert (Hin : handle ∈ dom (sessions (zk w'))) by (apply Hlow; lia).
    rewrite Hs', dom_delete_L in Hin.
    apply elem_of_difference in Hin as [_ Hne]. apply Hne.
    by apply elem_of_singleton. }
  split; [lia|]. split.
  - rewrite init_run. cbn. by rewrite <- Hs'.
  - intros Hall. destruct (decide (init_handle (zk w') = handle)); [done|].
    exfalso. apply Hfree. rewrite Hs', dom_delete_L.
    apply elem_of_difference. split; [apply Hall; lia|].
    by rewrite elem_of_singleton.
Qed.

(** Session 0 of [w_two] is closed and a new session is opened. *)
Lemma closed_handle_reused_witness :
  0 ≤ 0 ∧
  ZooKeeper.close elements 0 w_two =
    (Return tt, after (ZooKeeper.close elements 0 w_two)) ∧
  ∃ h' w'',
    ZooKeeper.init addr0 None (after (ZooKeeper.close elements 0 w_two)) =
      (Return tt, w'') ∧
    0 ≤ h' ≤ 0 ∧
    sessions (zk w'') = <[h' := ∅]> (delete 0 (sessions (zk w_two))) ∧
    ((∀ k, 0 ≤ k < 0 → k ∈ dom (sessions (zk w_two))) → h' = 0).
Proof.
  assert (Hc : ZooKeeper.close elements 0 w_two =
            (Return tt, after (ZooKeeper.close elements 0 w_two)))
    by (vm_compute; reflexivity).
  split; [lia|]. split; [exact Hc|].
  exact (closed_handle_reused elements 0 w_two _ addr0 None (Z.le_refl 0) Hc).
Defined.

(** X19.  Handles are handed out in sequence: when the live handles are
    exactly [0 .. n-1], as they are after [n] calls of [init] on a new
    emulator, [init] registers [n]; it leaves the tree and the other
    sessions alone. *)
Theorem init_sequential (n : Z) (w : World) (addr : string)
    (watch : option callback) :
  (∀ k, k ∈ dom (sessions (zk w)) ↔ 0 ≤ k < n) →
  0 ≤ n →
  ∃ w',
    ZooKeeper.init addr watch w = (Return tt, w') ∧
    sessions (zk w') = <[n := ∅]> (sessions (zk w)) ∧
    root (zk w') = root (zk w) ∧
    (∀ k, k ∈ dom (sessions (zk w')) ↔ 0 ≤ k < n + 1).
Proof.
  intros Hdom Hn.
  destruct (init_handle_lowest (zk w)) as (Hh0 & Hfree & Hlow).
  assert (Hh : init_handle (zk w) = n).
  { rewrite Hdom in Hfree.
    destruct (decide (init_handle (zk w) ≤ n)) as [|Hgt]; [lia|].
    exfalso. assert (Hin : n ∈ dom (sessions (zk w))) by (apply Hlow; lia).
    apply Hdom in Hin. lia. }
  exists (ZooKeeper.init addr watch w).2. rewrite init_run. cbn.
  rewrite Hh. split; [done|]. split; [done|]. split; [done|].
  intros k. rewrite dom_insert_L, elem_of_union, elem_of_singleton, Hdom. lia.
Qed.

(** The first [init] on a new emulator. *)
Lemma init_sequential_witness :
  let w := mkWorld (ZooKeeper.__init__ addr0 (Node.__init__ "" ∅)) [] in
  (∀ k, k ∈ dom (sessions (zk w)) ↔ 0 ≤ k < 0) ∧
  0 ≤ 0 ∧
  ∃ w',
    ZooKeeper.init addr0 None w = (Return tt, w') ∧
    sessions (zk w') = <[0 := ∅]> (sessions (zk w)) ∧
    root (zk w') = root (zk w) ∧
    (∀ k, k ∈ dom (sessions (zk w')) ↔ 0 ≤ k < 0 + 1).
Proof.
  intros w.
  assert (Hdom : ∀ k, k ∈ dom (sessions (zk w)) ↔ 0 ≤ k < 0).
  { intros k. unfold w. cbn. rewrite dom_empty_L. split; [set_solver|lia]. }
  split; [exact Hdom|]. split; [lia|].
  exact (init_sequential 0 w addr0 None Hdom (Z.le_refl 0)).
Defined.

(** ** Clearing watchers *)

(** X20.  [clear_watchers] reaches every node of the tree at every depth:
    it links and unlinks nothing, and on each node it removes the
    registrations of the handle from [watchers] and [child_watchers],
    keeps those of the other handles in their order, and leaves the data,
    flags, version, ACL attributes and the names of the children alone. *)
Theorem clear_watchers_everywhere (handle : Z) (r : Node) (q : ref) :
  (lookup_pos q (Node.clear_watchers handle r) = None ↔
   lookup_pos q r = None) ∧
  (∀ n, lookup_pos q r = Some n →
        ∃ n', lookup_pos q (Node.clear_watchers handle r) = Some n' ∧
              watchers n' = filter (λ hw, hw.1 ≠ handle) (watchers n) ∧
              child_watchers n' =
                filter (λ hw, hw.1 ≠ handle) (child_watchers n) ∧
              payload n' = payload n ∧
              dom (children n') = dom (children n)).
Proof.
  rewrite lookup_clear_watchers. split.
  - by destruct (lookup_pos q r).
  - intros n ->. exists (Node.clear_watchers handle n).
    destruct n as [d ch ws cws fl av a1 a2]. simpl.
    repeat split. apply dom_fmap_L.
Qed.

(** ** Polling *)

Section wait_until_properties.
Context {T : Type}.
Variables (add : T → T → T) (gt : T → T → bool).

(** The loop, entered with [c] calls, [r] readings and [s] sleeps done: the
    condition fails [d] times, with no reading past the deadline, and then
    holds. *)
Lemma wait_loop_returns (env : poll_env T) (deadline : T) (d : nat) :
  ∀ fuel c r s,
    (∀ i, i < d → func_result env (c + i) = false ∧
                  gt (clock env (r + i)) deadline = false)%nat →
    func_result env (c + d) = true →
    (d < fuel)%nat →
    wait_loop gt fuel env deadline (mk_poll_state c r s) =
      Some (WReturn, mk_poll_state (c + d + 1) (r + d) (s + d)).
Proof.
  induction d as [|d IH]; intros fuel c r s Hfalse Htrue Hfuel;
    (destruct fuel as [|fuel]; [lia|]); simpl.
  - rewrite Nat.add_0_r in Htrue. rewrite Htrue.
    do 2 f_equal. f_equal; lia.
  - destruct (Hfalse O ltac:(lia)) as [Hf Hg]. rewrite Nat.add_0_r in Hf, Hg.
    rewrite Hf, Hg.
    rewrite (IH fuel (S c) (S r) (S s)).
    + do 2 f_equal. f_equal; lia.
    + intros i Hi. replace (S c + i)%nat with (c + S i)%nat by lia.
      replace (S r + i)%nat with (r + S i)%nat by lia. apply Hfalse. lia.
    + replace (S c + d)%nat with (c + S d)%nat by lia. exact Htrue.
    + lia.
Qed.

(** The same, ending with a reading past the deadline. *)
Lemma wait_loop_times_out (env : poll_env T) (deadline : T) (d : nat) :
  ∀ fuel c r s,
    (∀ i, i < d → func_result env (c + i) = false ∧
                  gt (clock env (r + i)) deadline = false)%nat →
    func_result env (c + d) = false →
    gt (clock env (r + d)) deadline = true →
    (d < fuel)%nat →
    wait_loop gt fuel env deadline (mk_poll_state c r s) =
      Some (WAssertionError "timeout",
            mk_poll_state (c + d + 1) (r + d + 1) (s + d + 1)).
Proof.
  induction d as [|d IH]; intros fuel c r s Hfalse Hlast Hpast Hfuel;
    (destruct fuel as [|fuel]; [lia|]); simpl.
  - rewrite Nat.add_0_r in Hlast, Hpast. rewrite Hlast, Hpast.
    do 2 f_equal. f_equal; lia.
  - destruct (Hfalse O ltac:(lia)) as [Hf Hg]. rewrite Nat.add_0_r in Hf, Hg.
    rewrite Hf, Hg.
    rewrite (IH fuel (S c) (S r) (S s)).
    + do 2 f_equal. f_equal; lia.
    + intros i Hi. replace (S c + i)%nat with (c + S i)%nat by lia.
      replace (S r + i)%nat with (r + S i)%nat by lia. apply Hfalse. lia.
    + replace (S c + d)%nat with (c + S d)%nat by lia. exact Hlast.
    + replace (S r + d)%nat with (r + S d)%nat by lia. exact Hpast.
    + lia.
Qed.

(** What an outcome of the loop says about the oracles. *)
Lemma wait_loop_sound (env : poll_env T) (deadline : T) :
  ∀ fuel st out st',
    wait_loop gt fuel env deadline st = Some (out, st') →
    (func_calls st < func_calls st')%nat ∧
    match out with
    | WReturn => func_result env (func_calls st' - 1) = true
    | WAssertionError msg =>
        msg = "timeout"%string ∧
        func_result env (func_calls st' - 1) = false ∧
        (clock_reads st < clock_reads st')%nat ∧
        gt (clock env (clock_reads st' - 1)) deadline = true ∧
        (sleeps st < sleeps st')%nat
    end.
Proof.
  induction fuel as [|fuel IH]; intros st out st'; simpl; [discriminate|].
  destruct (func_result env (func_calls st)) eqn:Hf.
  - intros [= <- <-]. simpl. rewrite Nat.sub_0_r. split; [lia|done].
  - destruct (gt (clock env (clock_reads st)) deadline) eqn:Hg.
    + intros [= <- <-]. simpl. rewrite !Nat.sub_0_r.
      split; [lia|]. repeat split; try done; lia.
    + intros Hrec. apply IH in Hrec as [Hlt Hout]. simpl in *.
      split; [lia|]. destruct out; [done|].
      destruct Hout as (? & ? & ? & ? & ?). repeat split; try done; lia.
Qed.

(** X21.  [wait_until] returns as soon as [func()] is true.  When the
    first call is true it returns without reading the clock or sleeping.
    When the first [k] calls are false, [k ≥ 1], the call after them is true
    and no reading after a sleep is past the deadline (the first reading
    plus the timeout), it returns after [k + 1] calls of [func], [k - 1]
    sleeps of 10 ms and [k] readings of the clock. *)
Theorem wait_until_returns (env : poll_env T) (timeout : T) (k fuel : nat) :
  (∀ i, i < k → func_result env i = false)%nat →
  func_result env k = true →
  (∀ j, 1 ≤ j < k → gt (clock env j) (add (clock env 0) timeout) = false)%nat →
  (k ≤ fuel)%nat →
  wait_until add gt fuel env timeout poll_start =
    Some (WReturn, mk_poll_state (k + 1) k (k - 1)).
Proof.
  intros Hfalse Htrue Hclock Hfuel. unfold wait_until, poll_start. simpl.
  destruct k as [|k].
  - rewrite Htrue. reflexivity.
  - rewrite (Hfalse O) by lia.
    rewrite (wait_loop_returns env _ k fuel 1 1 0).
    + do 2 f_equal. f_equal; lia.
    + intros i Hi. split; [apply Hfalse; lia|apply Hclock; lia].
    + exact Htrue.
    + lia.
Qed.

(** X22.  [wait_until] gives up after a sleep, without testing the
    condition again.  When the first [k + 1] calls of [func] are false,
    [k ≥ 1], and the reading after sleep number [k] is the first one past
    the deadline, it raises [AssertionError('timeout')] after [k + 1] calls,
    [k] sleeps and [k + 1] readings, whatever the next call of [func] would
    have returned. *)
Theorem wait_until_times_out (env : poll_env T) (timeout : T) (k fuel : nat) :
  (1 ≤ k)%nat →
  (∀ i, i ≤ k → func_result env i = false)%nat →
  (∀ j, 1 ≤ j < k → gt (clock env j) (add (clock env 0) timeout) = false)%nat →
  gt (clock env k) (add (clock env 0) timeout) = true →
  (k ≤ fuel)%nat →
  wait_until add gt fuel env timeout poll_start =
    Some (WAssertionError "timeout", mk_poll_state (k + 1) (k + 1) k).
Proof.
  intros Hk Hfalse Hclock Hpast Hfuel. unfold wait_until, poll_start. simpl.
  rewrite (Hfalse O) by lia.
  rewrite (wait_loop_times_out env _ (k - 1) fuel 1 1 0).
  - do 2 f_equal. f_equal; lia.
  - intros i Hi. split; [apply Hfalse; lia|apply Hclock; lia].
  - apply Hfalse. lia.
  - replace (1 + (k - 1))%nat with k by lia. exact Hpast.
  - lia.
Qed.

(** With a function whose calls all return, the loop and [wait_until]
    are those of the oracle model. *)
Lemma callable_wait_loop_agrees (env : poll_env T) (deadline : T) :
  ∀ fuel st,
    Callable.wait_loop gt (returning_func env) (clock env) fuel deadline st =
      option_map (λ r, (outcome_result r.1, r.2))
        (wait_loop gt fuel env deadline st).
Proof.
  induction fuel as [|fuel IH]; intros st; simpl; [reflexivity|].
  destruct (func_result env (func_calls st)); [reflexivity|].
  destruct (gt (clock env (clock_reads st)) deadline); [reflexivity|].
  apply IH.
Qed.

Lemma callable_wait_until_agrees (env : poll_env T) (timeout : T)
    (fuel : nat) (st : poll_state) :
  Callable.wait_until add gt (returning_func env) (clock env) fuel timeout st =
    option_map (λ r, (outcome_result r.1, r.2))
      (wait_until add gt fuel env timeout st).
Proof.
  unfold Callable.wait_until, wait_until. simpl.
  destruct (func_result env (func_calls st)); [reflexivity|].
  apply callable_wait_loop_agrees.
Qed.

(** What an outcome of the loop says about the function and the clock. *)
Lemma callable_wait_loop_sound (f : nat → func_outcome) (clock : nat → T)
    (deadline : T) :
  ∀ fuel st out st',
    Callable.wait_loop gt (Some f) clock fuel deadline st = Some (out, st') →
    (func_calls st < func_calls st')%nat ∧
    match out with
    | Return _ => f (func_calls st' - 1)%nat = FReturns true
    | Raise e =>
        f (func_calls st' - 1)%nat = FRaises e ∨
        (e = AssertionError "timeout" ∧
         f (func_calls st' - 1)%nat = FReturns false ∧
         (clock_reads st < clock_reads st')%nat ∧
         gt (clock (clock_reads st' - 1)%nat) deadline = true ∧
         (sleeps st < sleeps st')%nat)
    end.
Proof.
  induction fuel as [|fuel IH]; intros st out st'; simpl; [discriminate|].
  destruct (f (func_calls st)) as [[|]|e] eqn:Hf.
  - intros [= <- <-]. simpl. rewrite Nat.sub_0_r. split; [lia|done].
  - destruct (gt (clock (clock_reads st)) deadline) eqn:Hg.
    + intros [= <- <-]. simpl. rewrite !Nat.sub_0_r.
      split; [lia|]. right. repeat split; try done; lia.
    + intros Hrec. apply IH in Hrec as [Hlt Hout]. simpl in *.
      split; [lia|]. destruct out as [[]|e]; [done|].
      destruct Hout as [Hout|(? & ? & ? & ? & ?)]; [by left|].
      right. repeat split; try done; lia.
  - intros [= <- <-]. simpl. rewrite Nat.sub_0_r. split; [lia|by left].
Qed.

(** X23.  [wait_until] returns normally only when its last call of [func]
    returned a true value.  When it raises, one of three things has
    happened.  The argument [func] is [None], the default, and the first
    statement raises [TypeError] before anything is called or read.  Or the
    last call of [func] raised, and that exception leaves [wait_until]
    unchanged.  Or [wait_until] raises [AssertionError('timeout')] itself:
    then the last call of [func] returned a false value, and a sleep and a
    reading of the clock past the deadline (the first reading plus the
    timeout) came after it. *)
Theorem wait_until_sound (func : option (nat → func_outcome))
    (clock : nat → T) (timeout : T) (fuel : nat) (out : result unit)
    (st : poll_state) :
  Callable.wait_until add gt func clock fuel timeout poll_start
    = Some (out, st) →
  match out with
  | Return _ =>
      ∃ f, func = Some f ∧ (1 ≤ func_calls st)%nat ∧
           f (func_calls st - 1)%nat = FReturns true
  | Raise e =>
      (func = None ∧ e = TypeError "'NoneType' object is not callable" ∧
       st = poll_start) ∨
      (∃ f, func = Some f ∧ (1 ≤ func_calls st)%nat ∧
            f (func_calls st - 1)%nat = FRaises e) ∨
      (∃ f, func = Some f ∧ e = AssertionError "timeout" ∧
            (1 ≤ func_calls st)%nat ∧
            f (func_calls st - 1)%nat = FReturns false ∧
            (2 ≤ clock_reads st)%nat ∧
            gt (clock (clock_reads st - 1)%nat) (add (clock 0%nat) timeout) = true ∧
            (1 ≤ sleeps st)%nat)
  end.
Proof.
  destruct func as [f|].
  2: { intros [= <- <-]. left. done. }
  unfold Callable.wait_until, poll_start. simpl.
  destruct (f 0%nat) as [[|]|e] eqn:Hf0.
  - intros [= <- <-]. simpl. exists f. split; [done|]. split; [lia|done].
  - intros Hloop. apply callable_wait_loop_sound in Hloop as [Hlt Hout].
    simpl in *. destruct out as [[]|e].
    + exists f. split; [done|]. split; [lia|done].
    + right. destruct Hout as [Hout|(? & ? & ? & ? & ?)].
      * left. exists f. split; [done|]. split; [lia|done].
      * right. exists f. repeat split; try done; lia.
  - intros [= <- <-]. simpl. right. left. exists f.
    split; [done|]. split; [lia|done].
Qed.

End wait_until_properties.

(** The condition holds at the fourth test; timeout 100. *)
Lemma wait_until_returns_witness :
  (∀ i, i < 3 → func_result env_fourth i = false)%nat ∧
  func_result env_fourth 3 = true ∧
  (∀ j, (1 ≤ j < 3)%nat →
        Z.gtb (clock env_fourth j) (Z.add (clock env_fourth 0) 100) = false) ∧
  (3 ≤ 5)%nat ∧
  wait_until Z.add Z.gtb 5 env_fourth 100 poll_start =
    Some (WReturn, mk_poll_state (3 + 1) 3 (3 - 1)).
Proof.
  assert (H1 : (∀ i, i < 3 → func_result env_fourth i = false)%nat).
  { intros i Hi. simpl. apply bool_decide_eq_false. lia. }
  assert (H2 : ∀ j, (1 ≤ j < 3)%nat →
            Z.gtb (clock env_fourth j) (Z.add (clock env_fourth 0) 100) = false).
  { intros j Hj. simpl. rewrite Z.gtb_ltb. apply Z.ltb_ge. lia. }
  assert (H3 : (3 ≤ 5)%nat) by lia.
  split; [exact H1|]. split; [reflexivity|]. split; [exact H2|].
  split; [exact H3|].
  exact (wait_until_returns Z.add Z.gtb env_fourth 100 3 5 H1 eq_refl H2 H3).
Defined.

(** The condition never holds; timeout 15, passed at the second reading
    after the first. *)
Lemma wait_until_times_out_witness :
  (1 ≤ 2)%nat ∧
  (∀ i, i ≤ 2 → func_result env_never i = false)%nat ∧
  (∀ j, (1 ≤ j < 2)%nat →
        Z.gtb (clock env_never j) (Z.add (clock env_never 0) 15) = false) ∧
  Z.gtb (clock env_never 2) (Z.add (clock env_never 0) 15) = true ∧
  (2 ≤ 2)%nat ∧
  wait_until Z.add Z.gtb 2 env_never 15 poll_start =
    Some (WAssertionError "timeout", mk_poll_state (2 + 1) (2 + 1) 2).
Proof.
  assert (H0 : (1 ≤ 2)%nat) by lia.
  assert (H1 : (∀ i, i ≤ 2 → func_result env_never i = false)%nat)
    by (intros i Hi; reflexivity).
  assert (H2 : ∀ j, (1 ≤ j < 2)%nat →
            Z.gtb (clock env_never j) (Z.add (clock env_never 0) 15) = false).
  { intros j Hj. simpl. rewrite Z.gtb_ltb. apply Z.ltb_ge. lia. }
  assert (H3 : (2 ≤ 2)%nat) by lia.
  split; [exact H0|]. split; [exact H1|]. split; [exact H2|].
  split; [reflexivity|]. split; [exact H3|].
  exact (wait_until_times_out Z.add Z.gtb env_never 15 2 2 H0 H1 H2 eq_refl H3).
Defined.

(** A function that raises at its third call; timeout 100. *)
Lemma wait_until_sound_witness :
  Callable.wait_until Z.add Z.gtb func_third (λ i, 10 * Z.of_nat i) 5 100
    poll_start
    = Some (Raise (Exception "boom"), mk_poll_state 3 2 1) ∧
  ((func_third = None ∧
    Exception "boom" = TypeError "'NoneType' object is not callable" ∧
    mk_poll_state 3 2 1 = poll_start) ∨
   (∃ f, func_third = Some f ∧ (1 ≤ func_calls (mk_poll_state 3 2 1))%nat ∧
         f (func_calls (mk_poll_state 3 2 1) - 1)%nat
           = FRaises (Exception "boom")) ∨
   (∃ f, func_third = Some f ∧ Exception "boom" = AssertionError "timeout" ∧
         (1 ≤ func_calls (mk_poll_state 3 2 1))%nat ∧
         f (func_calls (mk_poll_state 3 2 1) - 1)%nat = FReturns false ∧
         (2 ≤ clock_reads (mk_poll_state 3 2 1))%nat ∧
         Z.gtb (10 * Z.of_nat (clock_reads (mk_poll_state 3 2 1) - 1))
           (Z.add (10 * Z.of_nat 0) 100) = true ∧
         (1 ≤ sleeps (mk_poll_state 3 2 1))%nat)).
Proof.
  assert (H : Callable.wait_until Z.add Z.gtb func_third
                (λ i, 10 * Z.of_nat i) 5 100 poll_start
              = Some (Raise (Exception "boom"), mk_poll_state 3 2 1))
    by reflexivity.
  split; [exact H|].
  exact (wait_until_sound Z.add Z.gtb func_third (λ i, 10 * Z.of_nat i) 100 5
           (Raise (Exception "boom")) _ H).
Defined.

(** The default argument: [wait_until()] raises [TypeError] at once. *)
Example wait_until_without_func :
  Callable.wait_until Z.add Z.gtb None (λ i, 10 * Z.of_nat i) 5 100 poll_start
    = Some (Raise (TypeError "'NoneType' object is not callable"), poll_start).
Proof. reflexivity. Qed.

(** ** Compositions *)

(** X24.  Closing a session that holds no ephemeral path always succeeds:
    no deletion is attempted and nothing is notified; the session leaves the
    table and the registrations of the handle leave the tree. *)
Theorem close_without_ephemerals (set_list : gset string → list string)
    (handle : Z) (w : World) :
  (∀ X, set_list X ≡ₚ elements X) →
  sessions (zk w) !! handle = Some ∅ →
  ZooKeeper.close set_list handle w =
    (Return tt,
     mkWorld
       (set_root (Node.clear_watchers handle (root (zk w)))
          (set_sessions (delete handle (sessions (zk w))) (zk w)))
       (trace w)).
Proof.
  intros Hlist Hempty.
  assert (Hlive : handle ∈ dom (sessions (zk w))).
  { apply elem_of_dom. eauto. }
  assert (Hnil : set_list ∅ = []).
  { apply Permutation_nil_r. rewrite (Hlist ∅). by rewrite elements_empty. }
  unfold ZooKeeper.close.
  rewrite bind_run, check_handle_live by assumption. cbv beta iota.
  rewrite bind_run, session_paths_live by assumption. cbv beta iota.
  rewrite Hempty.
  change (default ∅ (Some (∅ : gset string))) with (∅ : gset string).
  rewrite Hnil.
  zk_unfold. cbn. rewrite decide_True by assumption. reflexivity.
Qed.

(** Session 1 of [w_two] has created no ephemeral node. *)
Lemma close_without_ephemerals_witness :
  (∀ X : gset string, elements X ≡ₚ elements X) ∧
  sessions (zk w_two) !! 1 = Some ∅ ∧
  ZooKeeper.close elements 1 w_two =
    (Return tt,
     mkWorld
       (set_root (Node.clear_watchers 1 (root (zk w_two)))
          (set_sessions (delete 1 (sessions (zk w_two))) (zk w_two)))
       (trace w_two)).
Proof.
  assert (Hlist : ∀ X : gset string, elements X ≡ₚ elements X)
    by (intros X; reflexivity).
  assert (He : sessions (zk w_two) !! 1 = Some ∅) by (vm_compute; reflexivity).
  split; [exact Hlist|]. split; [exact He|].
  exact (close_without_ephemerals elements 1 w_two Hlist He).
Defined.

Lemma forget_ephemeral_ext (handle : Z) (path : string) (z z' : ZooKeeper) :
  sessions z = sessions z' →
  sessions (forget_ephemeral handle path z) =
  sessions (forget_ephemeral handle path z').
Proof.
  intros Heq. unfold forget_ephemeral. rewrite Heq.
  destruct (decide (path ∈ default ∅ (sessions z' !! handle)));
    cbn [sessions set_sessions]; [reflexivity|exact Heq].
Qed.

(** Recording a path that was not in the set and forgetting it again. *)
Lemma forget_record (handle : Z) (path : string) (f : Z) (z : ZooKeeper) :
  handle ∈ dom (sessions z) →
  path ∉ default ∅ (sessions z !! handle) →
  sessions (forget_ephemeral handle path (record_ephemeral handle path f z)) =
  sessions z.
Proof.
  intros [P HP]%elem_of_dom. rewrite HP.
  change (default ∅ (Some P)) with P. intros Hnew.
  unfold record_ephemeral.
  destruct (decide (Z.land f EPHEMERAL ≠ 0)).
  - unfold forget_ephemeral. cbn [sessions set_sessions].
    rewrite HP, lookup_insert_eq.
    change (default ∅ (Some P)) with P.
    change (default ∅ (Some (P ∪ {[path]}))) with (P ∪ {[path]}).
    rewrite decide_True by (apply elem_of_union_r; by apply elem_of_singleton).
    cbn [sessions set_sessions].
    rewrite insert_insert_eq. apply insert_id. rewrite HP. f_equal.
    apply set_eq. intros x.
    rewrite elem_of_difference, elem_of_union, elem_of_singleton.
    split; [|tauto]. intros Hx. split; [by left|]. by intros ->.
  - unfold forget_ephemeral. rewrite HP.
    change (default ∅ (Some P)) with P.
    by rewrite decide_False.
Qed.

(** X25.  [create] followed by [delete] of the same path, whose last
    component is not empty, by the same handle: the deletion succeeds and the
    tree is the one before the creation, except that the parent has no child
    watchers left.  They were invoked once, by [create]; [delete] finds none
    and invokes nothing.  If the path was not in the ephemeral set of the
    handle before, the session table is as before too. *)
Theorem create_delete_roundtrip (handle : Z) (path base name d : string)
    (a : ACL) (f : Z) (w w1 : World) (r : string) (node : ref) (obj : Node) :
  ZooKeeper.create handle path d a f w = (Return r, w1) →
  rsplit1 path = Some (base, name) →
  name ≠ ""%string →
  ZooKeeper._traverse base w = (Return (node, obj), w) →
  ∃ w2,
    ZooKeeper.delete handle path w1 = (Return tt, w2) ∧
    root (zk w2) = update_at node (set_child_watchers []) (root (zk w)) ∧
    calls (trace w2) =
      calls (trace w) ++
      Node.notify CHILD_EVENT CONNECTED_STATE base (child_watchers obj) ∧
    (path ∉ default ∅ (sessions (zk w) !! handle) →
     sessions (zk w2) = sessions (zk w)).
Proof.
  intros Hc Hr Hname [-> Hobj]%traverse_found.
  apply create_returns in Hc
    as (base' & name' & obj' & Hlive & Hr' & Hobj' & Hfree & -> & ->).
  rewrite Hr in Hr'. injection Hr' as <- <-.
  assert (obj' = obj) as -> by congruence.
  set (c := created d a f).
  set (z1 := create_zk base name d a f (zk w)).
  set (w1 := mkWorld (record_ephemeral handle path f z1) _).
  assert (Hlive1 : handle ∈ dom (sessions (zk w1))).
  { unfold w1. cbn [zk]. by apply record_ephemeral_live. }
  assert (Hpath : segs path = segs base ++ [name]).
  { rewrite (segs_rsplit1 _ _ _ Hr). unfold nonempty.
    by rewrite filter_cons_True, filter_nil. }
  assert (Hnode1 : lookup_pos (segs path) (root (zk w1)) = Some c).
  { unfold w1. cbn [zk]. rewrite record_ephemeral_root, Hpath.
    by apply (create_links _ _ _ _ _ _ obj). }
  assert (Hbase1 : lookup_pos (segs base) (root (zk w1)) =
            Some (set_child_watchers [] (add_child name c obj))).
  { unfold w1. cbn [zk]. rewrite record_ephemeral_root.
    unfold z1, create_zk. cbn [root set_root].
    by rewrite lookup_update_at, Hobj. }
  pose proof (delete_run handle path w1) as Hd.
  rewrite decide_True, Hnode1, Hr, Hbase1 in Hd by exact Hlive1.
  rewrite decide_True in Hd.
  2: { simpl. rewrite dom_insert_L. apply elem_of_union_l.
       by apply elem_of_singleton. }
  cbv zeta in Hd.
  match type of Hd with _ = (_, ?x) => set (w2 := x) in * end.
  assert (Hne : segs path ≠ segs base).
  { intros Heq. apply (same_object_iff _ _ _ Hr) in Heq. done. }
  exists w2. split; [exact Hd|]. split; [|split].
  - unfold w2. cbn [zk]. rewrite forget_ephemeral_root.
    unfold delete_zk2, delete_zk1, unlinked. rewrite decide_False by exact Hne.
    cbn [root set_root]. unfold w1. cbn [zk].
    rewrite record_ephemeral_root. unfold z1, create_zk. cbn [root set_root].
    rewrite !update_at_compose. apply update_at_ext.
    intros m Hm. assert (m = obj) as -> by congruence.
    apply not_elem_of_dom in Hfree.
    destruct obj as [d0 ch ws cws fl av a1 a2]. simpl in *.
    unfold set_child_watchers, del_child, add_child, set_children. simpl.
    f_equal. by apply delete_insert_id.
  - unfold w2, w1. cbn [trace].
    rewrite !calls_app, !calls_called. unfold deleted_calls, c. simpl.
    by rewrite app_nil_r.
  - intros Hnew. unfold w2. cbn [zk].
    rewrite (forget_ephemeral_ext _ _ _ (zk w1))
      by apply delete_zk2_sessions.
    unfold w1. cbn [zk]. by rewrite forget_record.
Qed.

(** Session 1 of [w_two] creates the ephemeral node [/k/t] and deletes
    it. *)
Lemma create_delete_roundtrip_witness :
  let w1 := after (ZooKeeper.create 1 "/k/t" "d" acl_bob EPHEMERAL w_two) in
  let obj := set_watchers [(1, 5%nat); (0, 6%nat)] (created "y" acl_bob 0) in
  ZooKeeper.create 1 "/k/t" "d" acl_bob EPHEMERAL w_two =
    (Return "/k/t"%string, w1) ∧
  rsplit1 "/k/t" = Some ("/k"%string, "t"%string) ∧
  "t"%string ≠ ""%string ∧
  ZooKeeper._traverse "/k" w_two = (Return (["k"%string], obj), w_two) ∧
  ∃ w2,
    ZooKeeper.delete 1 "/k/t" w1 = (Return tt, w2) ∧
    root (zk w2) =
      update_at ["k"%string] (set_child_watchers []) (root (zk w_two)) ∧
    calls (trace w2) =
      calls (trace w_two) ++
      Node.notify CHILD_EVENT CONNECTED_STATE "/k" (child_watchers obj) ∧
    (("/k/t"%string ∉ default ∅ (sessions (zk w_two) !! 1)) →
     sessions (zk w2) = sessions (zk w_two)).
Proof.
  intros w1 obj.
  assert (Hc : ZooKeeper.create 1 "/k/t" "d" acl_bob EPHEMERAL w_two =
               (Return "/k/t"%string, w1)) by (vm_compute; reflexivity).
  assert (Htr : ZooKeeper._traverse "/k" w_two =
                (Return (["k"%string], obj), w_two))
    by (vm_compute; reflexivity).
  assert (Hn : "t"%string ≠ ""%string) by discriminate.
  split; [exact Hc|]. split; [reflexivity|]. split; [exact Hn|].
  split; [exact Htr|].
  exact (create_delete_roundtrip 1 "/k/t" "/k" "t" "d" acl_bob EPHEMERAL
           w_two w1 _ _ _ Hc eq_refl Hn Htr).
Defined.
